(** * lcMacroPipeline: retiling, fan-out execution and remote synchronisation

    A shallow embedding of the Python sources

      - [lc_macro_pipeline/macro_pipeline.py]  (module [MacroPipeline])
      - [lc_macro_pipeline/retiler.py]         (module [Retiler])
      - [lc_macro_pipeline/remote_utils.py]    (module [RemoteUtils])

    together with the spatial grid of [lc_macro_pipeline/grid.py]
    (module [Grid]).

    Conventions.  A Python call that may raise returns a [result].  Code that
    talks to the file system, to the WebDAV server or to the point-cloud
    tools runs in the monad [M]: it threads the state of the world, stops at
    the first exception (keeping the effects made so far, as Python does) and
    records every call it makes to a collaborator, with the answer it got.
    Python floats are idealised as rationals ([Q]). *)

From Stdlib Require Import List String Ascii Bool Arith ZArith QArith Qround Lia.
From Stdlib Require Import DecimalString DecimalZ DecimalPos.
Import ListNotations.

Set Implicit Arguments.
Set Warnings "-register-all".
Local Open Scope string_scope.
Local Open Scope list_scope.

(** ** Exceptions and results *)

(** The exception classes that the three modules raise or let through. *)
Inductive exc_type : Type :=
| AttributeError
| FileExistsError
| FileNotFoundError
| IsADirectoryError
| NotADirectoryError
| NotImplementedError
| RuntimeError
| RecursionError
| TypeError
| ValueError
| KeyboardInterrupt
| OSError
| PylasError
| ClosedClientError
| WebDavException
| RemoteResourceNotFound
| RemoteParentNotFound
| LocalResourceNotFound
| ResponseErrorCode
| NoConnection.

(** [except WebDavException] catches the base class and its subclasses. *)
Definition is_WebDavException (t : exc_type) : bool :=
  match t with
  | WebDavException | RemoteResourceNotFound | RemoteParentNotFound
  | LocalResourceNotFound | ResponseErrorCode | NoConnection => true
  | _ => false
  end.

(** A raised exception: its class and the argument it was built with. *)
Record exc : Type := Exc { exc_class : exc_type; exc_arg : string }.

Inductive result (A : Type) : Type :=
| Ok (a : A)
| Raise (e : exc).
Arguments Ok {A} a.
Arguments Raise {A} e.

(** ** Python values *)

(** The values that travel through the executor: what a task returns and what
    [sys.exc_info()] yields. *)
Inductive pyobj : Type :=
| PyNone
| PyBool (b : bool)
| PyInt (z : Z)
| PyStr (s : string)
| PyType (t : exc_type)
| PyExc (e : exc)
| PyTuple (items : list pyobj)
| PyObject (ident : string).

(** ** The monad of effectful code *)

Section Monad.
Variables St Ev : Type.

Definition M (A : Type) : Type := St -> result A * St * list Ev.

Definition ret {A} (a : A) : M A := fun s => (Ok a, s, []).

Definition bind {A B} (m : M A) (k : A -> M B) : M B :=
  fun s =>
    match m s with
    | (Ok a, s1, l1) =>
        match k a s1 with
        | (r, s2, l2) => (r, s2, l1 ++ l2)
        end
    | (Raise e, s1, l1) => (Raise e, s1, l1)
    end.

Definition raise {A} (e : exc) : M A := fun s => (Raise e, s, []).

Definition emit (ev : Ev) : M unit := fun s => (Ok tt, s, [ev]).

(** [try: m  except <classes>: handler]; the handler sees the exception. *)
Definition try_except {A} (m : M A) (catches : exc_type -> bool)
    (handler : exc -> M A) : M A :=
  fun s =>
    match m s with
    | (Raise e, s1, l1) =>
        if catches (exc_class e) then
          match handler e s1 with
          | (r, s2, l2) => (r, s2, l1 ++ l2)
          end
        else (Raise e, s1, l1)
    | done => done
    end.

(** [for x in xs: body x]. *)
Fixpoint for_each {A} (xs : list A) (body : A -> M unit) : M unit :=
  match xs with
  | [] => ret tt
  | x :: rest => bind (body x) (fun _ => for_each rest body)
  end.

End Monad.

Arguments ret {St Ev A} a.
Arguments raise {St Ev A} e.
Arguments emit {St Ev} ev.

Declare Scope monad_scope.
Delimit Scope monad_scope with monad.
Notation "x <- m ;; k" := (bind m (fun x => k))
  (at level 61, m at next level, right associativity) : monad_scope.
Notation "m ;;; k" := (bind m (fun _ => k))
  (at level 61, right associativity) : monad_scope.

(** ** Strings *)

(** [str.startswith]. *)
Definition startswith (s pre : string) : bool := String.prefix pre s.

(** [str.lower] on ASCII letters; bytes outside A-Z are left as they are. *)
Definition lower_ascii (c : ascii) : ascii :=
  let n := nat_of_ascii c in
  if (65 <=? n)%nat && (n <=? 90)%nat then ascii_of_nat (n + 32) else c.

Fixpoint lower (s : string) : string :=
  match s with
  | EmptyString => EmptyString
  | String c rest => String (lower_ascii c) (lower rest)
  end.

(** [str.rfind('.')]: the index of the last dot, if any. *)
Fixpoint rfind_dot_from (s : string) (i : nat) (found : option nat) : option nat :=
  match s with
  | EmptyString => found
  | String c rest =>
      rfind_dot_from rest (S i)
        (if Ascii.eqb c "."%char then Some i else found)
  end.

Definition rfind_dot (s : string) : option nat := rfind_dot_from s 0 None.

(** ["{}".format(z)] for an integer. *)
Definition str_of_Z (z : Z) : string := NilZero.string_of_int (Z.to_int z).

(** ** Grid *)

Module Grid.

(** Modelled from the spec: [lc_macro_pipeline/grid.py] (class [Grid]) is not
    among the sources.  The attributes are those of section 3 of the
    specification: the two bounds, the tile count per side, and the derived
    tile sizes. *)
Record t : Type := Mk {
  min_x : Q; min_y : Q;
  max_x : Q; max_y : Q;
  n_tiles_side : Z;
  tile_width : Q;
  tile_height : Q
}.

Definition Qltb (a b : Q) : bool := negb (Qle_bool b a).

(** Modelled from the spec: [Grid.setup] "validates max > min on both axes
    and n_tiles_side >= 1; fails with a configuration error otherwise;
    computes per-axis tile size as (max - min) / n_tiles_side". *)
Definition setup (mnx mny mxx mxy : Q) (n : Z) : result t :=
  if Qltb mnx mxx && Qltb mny mxy && (1 <=? n)%Z then
    Ok {| min_x := mnx; min_y := mny; max_x := mxx; max_y := mxy;
          n_tiles_side := n;
          tile_width := (mxx - mnx) / inject_Z n;
          tile_height := (mxy - mny) / inject_Z n |}
  else Raise (Exc ValueError "invalid grid configuration").

(** Modelled from the spec: one axis of [Grid.get_tile_index], "floor
    division of (x - min) / tile_size; if the computed index equals
    n_tiles_side it is clamped to n_tiles_side - 1.  No other boundary clamp
    is performed". *)
Definition axis_index (mn size : Q) (n : Z) (x : Q) : Z :=
  let i := Qfloor ((x - mn) / size) in
  if (i =? n)%Z then (n - 1)%Z else i.

(** Modelled from the spec: [Grid.get_tile_index(x, y)]. *)
Definition get_tile_index (g : t) (x y : Q) : Z * Z :=
  (axis_index (min_x g) (tile_width g) (n_tiles_side g) x,
   axis_index (min_y g) (tile_height g) (n_tiles_side g) y).

(** The scenario of the specification: [Grid.setup(0,0,100,100,2)]. *)
Definition grid_100_2 : result t := setup 0 0 100 100 2.

End Grid.

(** ** A file system tree

    Directories hold named entries; a path is the list of its components, as
    [pathlib] keeps it.  The tree is the state of the world for the retiler,
    and the store behind the example WebDAV server and the example local
    disk of the synchronisation functions. *)

Module FS.

Section Tree.
Variable C : Type.

Inductive node : Type :=
| File (content : C)
| Dir (entries : list (string * node)).

Definition path : Type := list string.

Fixpoint assoc {A} (x : string) (es : list (string * A)) : option A :=
  match es with
  | [] => None
  | (y, a) :: rest => if String.eqb x y then Some a else assoc x rest
  end.

(** Replace the entry named [x], or add it at the end. *)
Fixpoint set_entry {A} (x : string) (a : A) (es : list (string * A))
  : list (string * A) :=
  match es with
  | [] => [(x, a)]
  | (y, b) :: rest =>
      if String.eqb x y then (y, a) :: rest else (y, b) :: set_entry x a rest
  end.

Fixpoint remove_entry {A} (x : string) (es : list (string * A))
  : list (string * A) :=
  match es with
  | [] => []
  | (y, b) :: rest =>
      if String.eqb x y then rest else (y, b) :: remove_entry x rest
  end.

Fixpoint lookup (n : node) (p : path) : option node :=
  match p with
  | [] => Some n
  | x :: rest =>
      match n with
      | Dir es =>
          match assoc x es with
          | Some child => lookup child rest
          | None => None
          end
      | File _ => None
      end
  end.

Definition exists_ (n : node) (p : path) : bool :=
  match lookup n p with Some _ => true | None => false end.

Definition is_file (n : node) (p : path) : bool :=
  match lookup n p with Some (File _) => true | _ => false end.

Definition is_dir (n : node) (p : path) : bool :=
  match lookup n p with Some (Dir _) => true | _ => false end.

(** Put [new] at [p]; every proper ancestor must be a directory. *)
Fixpoint put (n : node) (p : path) (new : node) : option node :=
  match p with
  | [] => Some new
  | x :: rest =>
      match n with
      | Dir es =>
          match rest with
          | [] => Some (Dir (set_entry x new es))
          | _ :: _ =>
              match assoc x es with
              | Some child =>
                  match put child rest new with
                  | Some child' => Some (Dir (set_entry x child' es))
                  | None => None
                  end
              | None => None
              end
          end
      | File _ => None
      end
  end.

(** Remove what is at [p], if anything. *)
Fixpoint remove (n : node) (p : path) : node :=
  match p with
  | [] => n
  | x :: rest =>
      match n with
      | Dir es =>
          match rest with
          | [] => Dir (remove_entry x es)
          | _ :: _ =>
              match assoc x es with
              | Some child => Dir (set_entry x (remove child rest) es)
              | None => n
              end
          end
      | File _ => n
      end
  end.

(** [mkdir -p]: create the missing directories along [p]; [None] when a
    component is a file. *)
Fixpoint mkdirs (n : node) (p : path) : option node :=
  match p with
  | [] => match n with Dir _ => Some n | File _ => None end
  | x :: rest =>
      match n with
      | Dir es =>
          match mkdirs (match assoc x es with
                        | Some child => child
                        | None => Dir []
                        end) rest with
          | Some child' => Some (Dir (set_entry x child' es))
          | None => None
          end
      | File _ => None
      end
  end.

(** The parent of a path and its last component. *)
Definition parent (p : path) : path := removelast p.
Definition name (p : path) : string := last p "".

End Tree.

Arguments File {C} content.
Arguments Dir {C} entries.

(** Splitting a POSIX path string into its components; empty components
    (doubled or trailing slashes) are dropped. *)
Fixpoint split_from (s : string) (acc : string) : list string :=
  match s with
  | EmptyString => if String.eqb acc "" then [] else [acc]
  | String c rest =>
      if Ascii.eqb c "/"%char
      then (if String.eqb acc "" then [] else [acc]) ++ split_from rest ""
      else split_from rest (acc ++ String c "")%string
  end.

Definition split_path (s : string) : list string := split_from s "".

(** [q] is [p] or lies below it. *)
Definition under (p q : list string) : Prop := exists s, q = p ++ s.

(** Neither of two paths lies at or below the other. *)
Definition apart (p q : list string) : Prop := ~ under p q /\ ~ under q p.

End FS.

(** ** Step pipelines, as the executor sees them *)

Module Pipeline.

(** A Python callable without arguments: calling it returns a value or
    raises. *)
Definition callable : Type := unit -> result pyobj.

(** Modelled from the spec: [lc_macro_pipeline/pipeline.py] (class
    [Pipeline]) is not among the sources.  The executor uses a task through
    its bound method [run] alone, which runs the steps in order and lets the
    first failure propagate. *)
Record t : Type := Mk { name : string; run : callable }.

End Pipeline.

(** ** The fan-out executor ([macro_pipeline.py]) *)

Module MacroPipeline.

(** *** The dask collaborator

    [dask.distributed] is an external library.  Its client is modelled in
    the ideal case the specification describes: a submitted call is run, its
    value is kept in a future, [gather] hands the values back in the order
    of the futures, and a client that was shut down refuses submissions. *)

Definition kwargs : Type := list (string * pyobj).

Inductive cluster : Type :=
| LocalCluster
| SSHCluster (options : kwargs).

Inductive client_status : Type := running | closed.

Record Client : Type := MkClient {
  client_cluster : cluster;
  status : client_status
}.

Record Future : Type := MkFuture { future_result : pyobj }.

Definition submit (c : Client) (func : Pipeline.callable -> pyobj)
    (arg : Pipeline.callable) : result Future :=
  match status c with
  | running => Ok (MkFuture (func arg))
  | closed => Raise (Exc ClosedClientError "client is closed")
  end.

Definition gather (c : Client) (futures : list Future) : result (list pyobj) :=
  Ok (map future_result futures).

Definition shutdown (c : Client) : Client :=
  {| client_cluster := client_cluster c; status := closed |}.

(** *** class MacroPipeline *)

(** The attribute [client] exists only once [setup_client] has set it. *)
Record t : Type := Mk {
  tasks : list Pipeline.t;
  client : option Client
}.

(** [MacroPipeline()] *)
Definition init : t := {| tasks := []; client := None |}.

(** [add_task(self, task)] *)
Definition add_task (self : t) (task : Pipeline.t) : t :=
  {| tasks := tasks self ++ [task]; client := client self |}.

(** [_run_task(f)]: the value of [f()] is bound to [_] and dropped; the pair
    starts as [(None, None)] and is overwritten, by a bare [except], with the
    first two components of [sys.exc_info()]. *)
Definition _run_task (f : Pipeline.callable) : pyobj :=
  match f tt with
  | Ok _ => PyTuple [PyNone; PyNone]
  | Raise e => PyTuple [PyType (exc_class e); PyExc e]
  end.

(** What [setup_client] does besides setting [self.client]. *)
Inductive event : Type :=
| EvPrint (line : string)
| EvNewSSHCluster (options : kwargs)
| EvNewClient (on : cluster).

(** [setup_client(self, mode='local', **kwargs)] *)
Definition setup_client (self : t) (mode : string) (options : kwargs)
  : result t * list event :=
  if String.eqb mode "local" then
    (Ok {| tasks := tasks self;
           client := Some (MkClient LocalCluster running) |},
     [EvNewClient LocalCluster])
  else if String.eqb mode "ssh" then
    (Ok {| tasks := tasks self;
           client := Some (MkClient (SSHCluster options) running) |},
     [EvNewSSHCluster options; EvNewClient (SSHCluster options)])
  else if String.eqb mode "slurm" then
    (Raise (Exc NotImplementedError ""),
     [EvPrint "Slurm cluster is not implemented in this version!"])
  else
    (Raise (Exc RuntimeError ""),
     [EvPrint ("Unknown mode of setup client " ++ mode ++ "!")%string]).

(** The list comprehension of [run]: one [submit] per task, in order; the
    first submission that raises ends it. *)
Fixpoint submit_all (c : Client) (ts : list Pipeline.t) : result (list Future) :=
  match ts with
  | [] => Ok []
  | task :: rest =>
      match submit c _run_task (Pipeline.run task) with
      | Raise e => Raise e
      | Ok fut =>
          match submit_all c rest with
          | Raise e => Raise e
          | Ok futs => Ok (fut :: futs)
          end
      end
  end.

(** [run(self)]: the result, and the executor afterwards. *)
Definition run (self : t) : result (list pyobj) * t :=
  match client self with
  | None =>
      (Raise (Exc AttributeError
                "'MacroPipeline' object has no attribute 'client'"), self)
  | Some c =>
      match submit_all c (tasks self) with
      | Raise e => (Raise e, self)
      | Ok futures =>
          match gather c futures with
          | Raise e => (Raise e, self)
          | Ok results =>
              (Ok results,
               {| tasks := tasks self; client := Some (shutdown c) |})
          end
      end
  end.

(** The entry of a task in the result list: what [_run_task] makes of the
    task's [run]. *)
Definition entry_of (task : Pipeline.t) : pyobj := _run_task (Pipeline.run task).

(** *** A small batch *)

Definition task_returns_7 : Pipeline.t :=
  Pipeline.Mk "seven" (fun _ => Ok (PyInt 7)).

Definition task_fails : Pipeline.t :=
  Pipeline.Mk "broken" (fun _ => Raise (Exc ValueError "bad tile")).

Definition task_returns_self : Pipeline.t :=
  Pipeline.Mk "retiler" (fun _ => Ok (PyObject "retiler")).

Definition local_client : Client := MkClient LocalCluster running.

Definition batch_of_one : t :=
  {| tasks := [task_returns_7]; client := Some local_client |}.

Definition batch_of_three : t :=
  {| tasks := [task_returns_self; task_fails; task_returns_7];
     client := Some local_client |}.

End MacroPipeline.

(** ** Assigning the tasks of the executor ([macro_pipeline.py]) *)

Module MacroTasks.
Import MacroPipeline.

(** An object offered as a task: an instance of [Pipeline], or any other
    object, given by its [str()]. *)
Inductive candidate : Type :=
| IsPipeline (task : Pipeline.t)
| NotPipeline (repr : string).

(** What may be assigned to [tasks]: a collection that can be iterated any
    number of times (a list, a tuple), an iterator that is used up by one
    pass (a generator), or an object that [iter] rejects. *)
Inductive collection : Type :=
| Reiterable (items : list candidate)
| OneShot (items : list candidate)
| NotIterable (repr : string).

(** How the setter and [add_task] fail: by an [assert], or by another
    exception. *)
Inductive failure : Type :=
| AssertionError (message : string)
| Raised (e : exc).

(** [for task in tasks: assert isinstance(task, Pipeline), '...'] *)
Fixpoint assert_pipelines (items : list candidate)
  : failure + list Pipeline.t :=
  match items with
  | [] => inr []
  | NotPipeline repr :: _ =>
      inl (AssertionError
             ("Task " ++ repr ++ " is not a derived Pipeline object")%string)
  | IsPipeline task :: rest =>
      match assert_pipelines rest with
      | inl f => inl f
      | inr tasks => inr (task :: tasks)
      end
  end.

(** [tasks.setter].  [iter(tasks)] raises TypeError for an object that is
    not iterable; the handler calls the exception instance, which raises a
    TypeError of its own.  The loop of the assertions is one pass over the
    collection, the list comprehension that follows is a second one: an
    iterator that was used up by the first yields nothing in the second. *)
Definition set_tasks (self : t) (tasks : collection) : failure + t :=
  match tasks with
  | NotIterable _ =>
      inl (Raised (Exc TypeError "'TypeError' object is not callable"))
  | Reiterable items =>
      match assert_pipelines items with
      | inl f => inl f
      | inr pipelines =>
          inr {| MacroPipeline.tasks := pipelines; client := client self |}
      end
  | OneShot items =>
      match assert_pipelines items with
      | inl f => inl f
      | inr _ => inr {| MacroPipeline.tasks := []; client := client self |}
      end
  end.

(** [add_task(self, task)] for any object: the [assert] has no message. *)
Definition add_task_checked (self : t) (task : candidate) : failure + t :=
  match task with
  | IsPipeline p => inr (add_task self p)
  | NotPipeline _ => inl (AssertionError "")
  end.

(** [macro.add_task(a).add_task(b)...]: the calls are chained on the
    executor that each one returns. *)
Definition add_tasks (self : t) (new : list Pipeline.t) : t :=
  fold_left add_task new self.


End MacroTasks.

(** ** The retiler ([retiler.py]) *)

Module Retiler.

Local Open Scope monad_scope.

(** *** pathlib *)

(** A [pathlib.Path], as the list of its parts below the working
    directory. *)
Definition path : Type := FS.path.

Definition name (p : path) : string := FS.name p.

(** [PurePath.suffix] and [PurePath.stem] of a file name: the name is cut at
    its last dot, unless that dot is the first or the last character. *)
Definition cut_at_last_dot (nm : string) : option nat :=
  match rfind_dot nm with
  | Some i =>
      if (0 <? i)%nat && (i <? String.length nm - 1)%nat then Some i else None
  | None => None
  end.

Definition suffix_of (nm : string) : string :=
  match cut_at_last_dot nm with
  | Some i => substring i (String.length nm - i) nm
  | None => ""
  end.

Definition stem_of (nm : string) : string :=
  match cut_at_last_dot nm with
  | Some i => substring 0 i nm
  | None => nm
  end.

Definition suffix (p : path) : string := suffix_of (name p).
Definition stem (p : path) : string := stem_of (name p).

Definition joinpath (p : path) (child : string) : path := p ++ [child].

Definition as_posix (p : path) : string := String.concat "/" p.

(** [os.path.splitext(nm)[0]] for a name without slashes: the name up to its
    last dot, unless only dots stand before it. *)
Fixpoint only_dots (s : string) : bool :=
  match s with
  | EmptyString => true
  | String c rest => Ascii.eqb c "."%char && only_dots rest
  end.

Definition splitext_root (nm : string) : string :=
  match rfind_dot nm with
  | Some i => if only_dots (substring 0 i nm) then nm else substring 0 i nm
  | None => nm
  end.

(** *** Files *)

(** The header fields of a LAS file that [_get_details_pc_file] returns. *)
Record las_header : Type := MkHeader {
  point_count : Z;
  mins : Q * Q * Q;
  maxs : Q * Q * Q;
  scales : Q * Q * Q;
  offsets : Q * Q * Q
}.

(** The retile record of [validate]. *)
Record retile_record : Type := MkRecord {
  file : string;
  redistributed_to : list string;
  validated : bool
}.

Inductive content : Type :=
| Las (header : las_header)
| Json (record : retile_record)
| Other (text : string).

Abbreviation disk := (FS.node content).

(** The description that [_run_PDAL_splitter] hands to PDAL. *)
Record pdal_pipeline : Type := MkPipeline {
  reader_filename : string;
  splitter_origin_x : Q;
  splitter_origin_y : Q;
  splitter_length : Q;
  writer_filename : string
}.

Inductive event : Type :=
| EvPrint (line : string)
| EvExecute (pipeline : pdal_pipeline)
| EvMkdir (dir : path)
| EvRename (src dst : path)
| EvWrite (target : path) (record : retile_record).

Definition Ret (A : Type) : Type := M disk event A.

(** *** class Retiler *)

(** The attributes the steps read: the input file and the output folder (of
    [PipelineRemoteData]) and the grid, which is configured by [tiling]. *)
Record t : Type := Mk {
  input_file : path;
  output_folder : path;
  grid : option Grid.t
}.

(** [tiling(min_x, min_y, max_x, max_y, n_tiles_side)] *)
Definition tiling (self : t) (min_x min_y max_x max_y : Q) (n_tiles_side : Z)
  : result t :=
  match Grid.setup min_x min_y max_x max_y n_tiles_side with
  | Ok g => Ok {| input_file := input_file self;
                  output_folder := output_folder self;
                  grid := Some g |}
  | Raise e => Raise e
  end.

(** Modelled from the spec: [utils.check_file_exists(path, should_exist=True)]
    is not among the sources; the step "requires the input file to exist
    (fails with not-found otherwise)". *)
Definition check_file_exists (p : path) : Ret unit :=
  fun fs =>
    if FS.is_file fs p then (Ok tt, fs, [])
    else (Raise (Exc FileNotFoundError (as_posix p)), fs, []).

(** Modelled from the spec: [utils.check_dir_exists(path, should_exist=True,
    mkdir=True)] is not among the sources; the step "creates that directory
    if absent". *)
Definition check_dir_exists (p : path) : Ret unit :=
  fun fs =>
    if FS.is_dir fs p then (Ok tt, fs, [])
    else if FS.exists_ fs p then
      (Raise (Exc NotADirectoryError (as_posix p)), fs, [])
    else match FS.put fs p (FS.Dir []) with
         | Some fs' => (Ok tt, fs', [EvMkdir p])
         | None => (Raise (Exc FileNotFoundError (as_posix p)), fs, [])
         end.

(** [_get_details_pc_file(filename)]: [pylas.open] raises IOError when there
    is no such file, which is caught and turned into [None]; a file that is
    not a LAS file makes pylas raise an error of its own. *)
Definition _get_details_pc_file (filename : path)
  : Ret (option (Z * (Q * Q * Q) * (Q * Q * Q) * (Q * Q * Q) * (Q * Q * Q))) :=
  fun fs =>
    match FS.lookup fs filename with
    | Some (FS.File (Las h)) =>
        (Ok (Some (point_count h, mins h, maxs h, scales h, offsets h)), fs, [])
    | Some (FS.File _) =>
        (Raise (Exc PylasError (as_posix filename)), fs, [])
    | _ =>
        (Ok None, fs,
         [EvPrint ("failure to open " ++ as_posix filename)%string])
    end.

(** Unpacking [None] into five names. *)
Definition unpack_error : exc :=
  Exc TypeError "cannot unpack non-iterable NoneType object".

(** [_get_tile_name(x_index, y_index)] *)
Definition _get_tile_name (index : Z * Z) : string :=
  ("tile_" ++ str_of_Z (fst index) ++ "_" ++ str_of_Z (snd index))%string.

Section Splitter.

(** PDAL, the external splitter: running a pipeline leaves new files on the
    disk, or raises. *)
Variable pdal_execute : pdal_pipeline -> disk -> result disk.

(** [_run_PDAL_splitter(filename, tiled_temp_folder, tiling_mins,
    tiling_maxs, n_tiles_side)] *)
Definition _run_PDAL_splitter (filename tiled_temp_folder : path)
    (tiling_mins tiling_maxs : Q * Q) (n_tiles_side : Z) : Ret unit :=
  let length_PDAL_tile :=
    (fst tiling_maxs - fst tiling_mins) / inject_Z n_tiles_side in
  let outfile_with_placeholder :=
    (stem filename ++ "_#" ++ suffix filename)%string in
  let outfilepath := joinpath tiled_temp_folder outfile_with_placeholder in
  let PDAL_pipeline :=
    {| reader_filename := as_posix filename;
       splitter_origin_x := fst tiling_mins;
       splitter_origin_y := snd tiling_mins;
       splitter_length := length_PDAL_tile;
       writer_filename := as_posix outfilepath |} in
  fun fs =>
    match pdal_execute PDAL_pipeline fs with
    | Ok fs' => (Ok tt, fs', [EvExecute PDAL_pipeline])
    | Raise e => (Raise e, fs, [EvExecute PDAL_pipeline])
    end.

(** [Path.iterdir()] *)
Definition iterdir (dir : path) : Ret (list path) :=
  fun fs =>
    match FS.lookup fs dir with
    | Some (FS.Dir es) => (Ok (map (fun e => joinpath dir (fst e)) es), fs, [])
    | Some (FS.File _) => (Raise (Exc NotADirectoryError (as_posix dir)), fs, [])
    | None => (Raise (Exc FileNotFoundError (as_posix dir)), fs, [])
    end.

(** [Path.rename(target)]: the file replaces a file at the target; a
    directory at the target is an error. *)
Definition rename (src dst : path) : Ret unit :=
  fun fs =>
    match FS.lookup fs src with
    | None => (Raise (Exc FileNotFoundError (as_posix src)), fs, [EvRename src dst])
    | Some node =>
        if FS.is_dir fs dst then
          (Raise (Exc IsADirectoryError (as_posix dst)), fs, [EvRename src dst])
        else match FS.put (FS.remove fs src) dst node with
             | Some fs' => (Ok tt, fs', [EvRename src dst])
             | None =>
                 (Raise (Exc FileNotFoundError (as_posix dst)), fs,
                  [EvRename src dst])
             end
    end.

(** The condition of the list comprehension in [split_and_redistribute]. *)
Definition is_tile_of (self : t) (fs : disk) (f : path) : bool :=
  FS.is_file fs f
  && String.eqb (lower (suffix f)) (lower (suffix (input_file self)))
  && startswith (stem f) (stem (input_file self))
  && negb (String.eqb (name f) (name (input_file self))).

(** The body of the loop of [split_and_redistribute]. *)
Definition redistribute (self : t) (g : Grid.t) (tile : path) : Ret unit :=
  details <- _get_details_pc_file tile ;;
  match details with
  | None => raise unpack_error
  | Some (_, tile_mins, tile_maxs, _, _) =>
      let cpX := fst (fst tile_mins)
                 + ((fst (fst tile_maxs) - fst (fst tile_mins)) / 2) in
      let cpY := snd (fst tile_mins)
                 + ((snd (fst tile_maxs) - snd (fst tile_mins)) / 2) in
      let tile_id := _get_tile_name (Grid.get_tile_index g cpX cpY) in
      let retiled_folder := joinpath (output_folder self) tile_id in
      check_dir_exists retiled_folder ;;;
      rename tile (joinpath retiled_folder (name tile))
  end.

(** [split_and_redistribute(self)].  A grid that was never set up has no
    bounds to read. *)
Definition split_and_redistribute (self : t) : Ret unit :=
  check_file_exists (input_file self) ;;;
  match grid self with
  | None => raise (Exc AttributeError "grid is not set up")
  | Some g =>
      _run_PDAL_splitter (input_file self) (output_folder self)
        (Grid.min_x g, Grid.min_y g) (Grid.max_x g, Grid.max_y g)
        (Grid.n_tiles_side g) ;;;
      entries <- iterdir (output_folder self) ;;
      tiles <- (fun fs => (Ok (filter (is_tile_of self fs) entries), fs, [])) ;;
      for_each tiles (redistribute self g)
  end.

End Splitter.

(** *** Globbing

    [Path.glob(pattern)] matches every component of the pattern against the
    names of a directory with [fnmatch], by case on POSIX.  A pattern is
    read as a sequence of tokens: [*] stands for any text, [?] for any
    character, [[seq]] and [[!seq]] for one character in or out of a set,
    and every other character for itself. *)
Inductive glob_token : Type :=
| AnyText
| AnyChar
| OneOf (negated : bool) (ranges : list (ascii * ascii))
| Literal (c : ascii).

(** The text up to the first closing bracket, and what follows it. *)
Fixpoint until_bracket (s : string) : option (string * string) :=
  match s with
  | EmptyString => None
  | String c rest =>
      if Ascii.eqb c "]"%char then Some (EmptyString, rest)
      else match until_bracket rest with
           | Some (stuff, after) => Some (String c stuff, after)
           | None => None
           end
  end.

(** What follows an opening bracket: an optional [!], a set in which a
    closing bracket that comes first stands for itself, and the closing
    bracket.  [None] when the bracket is never closed. *)
Definition bracket_expression (s : string) : option (bool * string * string) :=
  let negated := match s with
                 | String c _ => Ascii.eqb c "!"%char
                 | EmptyString => false
                 end in
  let body := match s with
              | String c rest => if Ascii.eqb c "!"%char then rest else s
              | EmptyString => s
              end in
  match body with
  | String c rest =>
      if Ascii.eqb c "]"%char then
        match until_bracket rest with
        | Some (stuff, after) => Some (negated, String c stuff, after)
        | None => None
        end
      else
        match until_bracket body with
        | Some (stuff, after) => Some (negated, stuff, after)
        | None => None
        end
  | EmptyString => None
  end.

(** The members of a set: [a-z] is a range, any other character stands for
    itself; a range whose ends are out of order has no member. *)
Fixpoint ranges_of (stuff : string) : list (ascii * ascii) :=
  match stuff with
  | EmptyString => []
  | String lo rest =>
      match rest with
      | String dash (String hi rest') =>
          if Ascii.eqb dash "-"%char then (lo, hi) :: ranges_of rest'
          else (lo, lo) :: ranges_of rest
      | _ => (lo, lo) :: ranges_of rest
      end
  end.

(** [fnmatch.translate(pat)]; a bracket that is never closed stands for
    itself.  Every step takes at least one character of the pattern, so
    [fuel] need not be more than its length. *)
Fixpoint translate (fuel : nat) (pat : string) : list glob_token :=
  match fuel with
  | O => []
  | S fuel' =>
      match pat with
      | EmptyString => []
      | String c rest =>
          if Ascii.eqb c "*"%char then AnyText :: translate fuel' rest
          else if Ascii.eqb c "?"%char then AnyChar :: translate fuel' rest
          else if Ascii.eqb c "["%char then
            match bracket_expression rest with
            | Some (negated, stuff, after) =>
                OneOf negated (ranges_of stuff) :: translate fuel' after
            | None => Literal c :: translate fuel' rest
            end
          else Literal c :: translate fuel' rest
      end
  end.

Definition in_ranges (c : ascii) (ranges : list (ascii * ascii)) : bool :=
  existsb (fun r => (nat_of_ascii (fst r) <=? nat_of_ascii c)%nat
                    && (nat_of_ascii c <=? nat_of_ascii (snd r))%nat) ranges.

(** The whole of [s] is matched by the tokens. *)
Fixpoint matches (tokens : list glob_token) (s : string) : bool :=
  match tokens with
  | [] => match s with EmptyString => true | String _ _ => false end
  | AnyText :: rest =>
      (fix skip (s : string) : bool :=
         matches rest s
         || match s with
            | EmptyString => false
            | String _ s' => skip s'
            end) s
  | AnyChar :: rest =>
      match s with
      | String _ s' => matches rest s'
      | EmptyString => false
      end
  | OneOf negated ranges :: rest =>
      match s with
      | String c s' => xorb negated (in_ranges c ranges) && matches rest s'
      | EmptyString => false
      end
  | Literal c :: rest =>
      match s with
      | String c' s' => Ascii.eqb c c' && matches rest s'
      | EmptyString => false
      end
  end.

(** [fnmatch.fnmatchcase(name, pat)] *)
Definition fnmatch (name pat : string) : bool :=
  matches (translate (String.length pat) pat) name.

(** A string without the characters that [glob] reads as wildcards. *)
Fixpoint no_glob_chars (s : string) : bool :=
  match s with
  | EmptyString => true
  | String c rest =>
      negb (Ascii.eqb c "*"%char) && negb (Ascii.eqb c "?"%char)
      && negb (Ascii.eqb c "["%char) && no_glob_chars rest
  end.

(** Two stars in a row somewhere in a component of a pattern. *)
Fixpoint has_double_star (pat : string) : bool :=
  match pat with
  | String c rest =>
      match rest with
      | String c' _ =>
          (Ascii.eqb c "*"%char && Ascii.eqb c' "*"%char)
          || has_double_star rest
      | EmptyString => false
      end
  | EmptyString => false
  end.

(** What the component [**] selects below a directory: the directory and
    every directory under it, parents first. *)
Fixpoint directories (n : disk) (p : path) : list path :=
  match n with
  | FS.File _ => []
  | FS.Dir es =>
      p :: (fix each (es : list (string * disk)) : list path :=
              match es with
              | [] => []
              | e :: rest => directories (snd e) (joinpath p (fst e)) ++ each rest
              end) es
  end.

(** [Path.glob('tile_*/' + last)]: in every subdirectory whose name matches
    [tile_*], the entries whose name matches [last]; when [last] is [**],
    the directories at and below it instead.  The stem of the input file is
    pasted into [last] as it is, so its [*], [?] and [[] are read as
    wildcards. *)
Definition glob_paths (dir : path) (stem_prefix : string) (fs : disk)
  : list path :=
  let last := (stem_prefix ++ "*")%string in
  match FS.lookup fs dir with
  | Some (FS.Dir es) =>
      flat_map
        (fun e =>
           match snd e with
           | FS.Dir inner =>
               if fnmatch (fst e) "tile_*" then
                 if String.eqb last "**"
                 then directories (snd e) (joinpath dir (fst e))
                 else
                   map (fun f => joinpath (joinpath dir (fst e)) (fst f))
                     (filter (fun f => fnmatch (fst f) last) inner)
               else []
           | FS.File _ => []
           end) es
  | _ => []
  end.

(** [pathlib] (up to Python 3.12) refuses a component that holds [**] and
    more. *)
Definition glob_tiles (dir : path) (stem_prefix : string) : Ret (list path) :=
  fun fs =>
    let last := (stem_prefix ++ "*")%string in
    if has_double_star last && negb (String.eqb last "**") then
      (Raise (Exc ValueError
                "Invalid pattern: '**' can only be an entire path component"),
       fs, [])
    else (Ok (glob_paths dir stem_prefix fs), fs, []).

(** [for x in xs: acc = body acc x] *)
Fixpoint fold_each {A B} (xs : list A) (acc : B) (body : B -> A -> Ret B)
  : Ret B :=
  match xs with
  | [] => ret acc
  | x :: rest => acc' <- body acc x ;; fold_each rest acc' body
  end.

(** The body of the loop of [validate]; the state of the loop is
    [(split_points, redistributed_to)]. *)
Definition count_tile (acc : Z * list string) (tile : path)
  : Ret (Z * list string) :=
  is_a_file <- (fun fs => (Ok (FS.is_file fs tile), fs, [])) ;;
  if is_a_file then
    details <- _get_details_pc_file tile ;;
    match details with
    | None => raise unpack_error
    | Some (tile_points, _, _, _, _) =>
        ret ((fst acc + tile_points)%Z, snd acc ++ [name (FS.parent tile)])
    end
  else ret acc.

(** [validate], up to the record it builds. *)
Definition validate_record (self : t) : Ret retile_record :=
  check_file_exists (input_file self) ;;;
  details <- _get_details_pc_file (input_file self) ;;
  match details with
  | None => raise unpack_error
  | Some (parent_points, _, _, _, _) =>
      tiles <- glob_tiles (output_folder self) (stem (input_file self)) ;;
      acc <- fold_each tiles (0%Z, []) count_tile ;;
      ret {| file := as_posix (input_file self);
             redistributed_to := snd acc;
             validated := (parent_points =? fst acc)%Z |}
  end.

(** Where [_write_record] writes. *)
Definition record_path (input_tile : string) (temp_folder : path) : path :=
  joinpath temp_folder (splitext_root input_tile ++ "_retile_record.js")%string.

(** [_write_record(input_tile, temp_folder, retile_record)] *)
Definition _write_record (input_tile : string) (temp_folder : path)
    (record : retile_record) : Ret unit :=
  let record_file := record_path input_tile temp_folder in
  fun fs =>
    if FS.is_dir fs record_file then
      (Raise (Exc IsADirectoryError (as_posix record_file)), fs, [])
    else if negb (FS.is_dir fs temp_folder) then
      (Raise (Exc FileNotFoundError (as_posix record_file)), fs, [])
    else match FS.put fs record_file (FS.File (Json record)) with
         | Some fs' => (Ok tt, fs', [EvWrite record_file record])
         | None => (Raise (Exc FileNotFoundError (as_posix record_file)), fs, [])
         end.

(** [validate(self, write_record_to_file=True)] *)
Definition validate (self : t) (write_record_to_file : bool) : Ret unit :=
  retile_record <- validate_record self ;;
  if write_record_to_file then
    _write_record (stem (input_file self)) (output_folder self) retile_record
  else ret tt.

(** *** What the validation is measured against *)

(** The part of [split_files] that comes from the entries [inner] of the
    directory [d]. *)
Definition split_files_in (pre d : string) (inner : list (string * disk))
  : list (string * content) :=
  flat_map (fun f => match snd f with
                     | FS.File c => if startswith (fst f) pre then [(d, c)] else []
                     | FS.Dir _ => []
                     end) inner.

(** The files that belong to the split of [self]: every file below a
    directory [tile_*] of the output folder whose name starts with the stem
    of the input file, with the name of its directory. *)
Definition split_files (self : t) (fs : disk) : list (string * content) :=
  match FS.lookup fs (output_folder self) with
  | Some (FS.Dir es) =>
      flat_map
        (fun e =>
           match snd e with
           | FS.Dir inner =>
               if startswith (fst e) "tile_"
               then split_files_in (stem (input_file self)) (fst e) inner
               else []
           | FS.File _ => []
           end) es
  | _ => []
  end.

Definition points_of (c : content) : Z :=
  match c with Las h => point_count h | _ => 0%Z end.

Definition is_las (c : content) : bool :=
  match c with Las _ => true | _ => false end.

Definition total (files : list (string * content)) : Z :=
  fold_right Z.add 0%Z (map (fun dc => points_of (snd dc)) files).

(** The sum of the point counts of the split files. *)
Definition split_points (self : t) (fs : disk) : Z :=
  total (split_files self fs).

(** Entry names are distinct within the output folder and within each of
    its subdirectories, as they are on a disk. *)
Definition tidy (self : t) (fs : disk) : Prop :=
  match FS.lookup fs (output_folder self) with
  | Some (FS.Dir es) =>
      NoDup (map fst es) /\
      forall d inner, In (d, FS.Dir inner) es -> NoDup (map fst inner)
  | _ => True
  end.

(** *** A small job *)

Definition header (n : Z) (x0 y0 x1 y1 : Q) : las_header :=
  {| point_count := n; mins := (x0, y0, 0); maxs := (x1, y1, 10);
     scales := (1 # 100, 1 # 100, 1 # 100); offsets := (0, 0, 0) |}.

(** A splitter that cuts [a.las] into a western and an eastern tile. *)
Definition two_tiles (pipeline : pdal_pipeline) (fs : disk) : result disk :=
  match FS.put fs ["out"; "a_1.las"] (FS.File (Las (header 3 0 0 50 50))) with
  | Some fs1 =>
      match FS.put fs1 ["out"; "a_2.las"]
              (FS.File (Las (header 4 50 0 100 50))) with
      | Some fs2 => Ok fs2
      | None => Raise (Exc RuntimeError "writers.las")
      end
  | None => Raise (Exc RuntimeError "writers.las")
  end.

(** The input file lies in the output folder itself. *)
Definition disk_before : disk :=
  FS.Dir [("out", FS.Dir [("a.las", FS.File (Las (header 7 0 0 100 50)))])].

Definition job : t :=
  {| input_file := ["out"; "a.las"];
     output_folder := ["out"];
     grid := match Grid.grid_100_2 with Ok g => Some g | Raise _ => None end |}.

Definition disk_after_split : disk :=
  snd (fst (split_and_redistribute two_tiles job disk_before)).

(** The same disk after a split that lost a point of the eastern tile. *)
Definition disk_after_lossy_split : disk :=
  FS.Dir [("out",
           FS.Dir [("a.las", FS.File (Las (header 7 0 0 100 50)));
                   ("tile_0_0",
                    FS.Dir [("a_1.las", FS.File (Las (header 3 0 0 50 50)))]);
                   ("tile_1_0",
                    FS.Dir [("a_2.las", FS.File (Las (header 3 50 0 100 50)))])])].

(** *** A job whose input file has brackets in its name *)

(** A splitter that cuts [a[1].las] into a western and an eastern tile. *)
Definition two_bracket_tiles (pipeline : pdal_pipeline) (fs : disk)
  : result disk :=
  match FS.put fs ["out"; "a[1]_1.las"]
          (FS.File (Las (header 3 0 0 50 50))) with
  | Some fs1 =>
      match FS.put fs1 ["out"; "a[1]_2.las"]
              (FS.File (Las (header 4 50 0 100 50))) with
      | Some fs2 => Ok fs2
      | None => Raise (Exc RuntimeError "writers.las")
      end
  | None => Raise (Exc RuntimeError "writers.las")
  end.

Definition bracket_disk_before : disk :=
  FS.Dir [("out", FS.Dir [("a[1].las", FS.File (Las (header 7 0 0 100 50)))])].

Definition bracket_job : t :=
  {| input_file := ["out"; "a[1].las"];
     output_folder := ["out"];
     grid := match Grid.grid_100_2 with Ok g => Some g | Raise _ => None end |}.

Definition bracket_disk_after_split : disk :=
  snd (fst (split_and_redistribute two_bracket_tiles bracket_job
              bracket_disk_before)).

End Retiler.

(** ** Reading the log of the retiler *)

Module RetilerLog.
Import Retiler.

(** The files that were renamed, in the order of the calls. *)
Definition moved (log : list event) : list path :=
  flat_map (fun ev => match ev with
                      | EvRename src _ => [src]
                      | _ => []
                      end) log.

(** A character other than the underscore, which separates the two indices
    of a tile name. *)
Definition numeral_char (c : ascii) : bool :=
  negb (Ascii.eqb c "_"%char).

Fixpoint no_underscore (s : string) : bool :=
  match s with
  | EmptyString => true
  | String c rest => numeral_char c && no_underscore rest
  end.

(** A text without a dot: an extension without its dot, or the number that
    PDAL puts in the place of [#]. *)
Fixpoint no_dot (s : string) : bool :=
  match s with
  | EmptyString => true
  | String c rest => negb (Ascii.eqb c "."%char) && no_dot rest
  end.

End RetilerLog.

(** ** Remote synchronisation ([remote_utils.py]) *)

Module RemoteUtils.

Local Open Scope monad_scope.

(** [os.path.join(a, b)] on POSIX: an absolute [b] replaces [a]; otherwise a
    slash is inserted unless [a] is empty or already ends with one. *)
Fixpoint endswith_slash (s : string) : bool :=
  match s with
  | EmptyString => false
  | String c EmptyString => Ascii.eqb c "/"%char
  | String _ rest => endswith_slash rest
  end.

Definition os_path_join (a b : string) : string :=
  if startswith b "/" then b
  else if String.eqb a "" || endswith_slash a then (a ++ b)%string
  else (a ++ "/" ++ b)%string.

(** *** The collaborators

    The local disk, as the functions use it through [os] and [os.path]. *)
Class LocalFS (L : Type) : Type := {
  os_path_exists : L -> string -> bool;
  os_path_isdir : L -> string -> bool;
  os_listdir : L -> string -> result (list string);
  os_makedirs : L -> string -> result unit * L
}.

(** The WebDAV client [wdclient] (webdav3): every call may raise and may
    change the remote store; an upload reads the local disk and a download
    writes to it. *)
Class WebDav (R L : Type) : Type := {
  wd_check : R -> string -> result bool * R;
  wd_list : R -> string -> result (list string) * R;
  wd_is_dir : R -> string -> result bool * R;
  wd_mkdir : R -> string -> result unit * R;
  wd_clean : R -> string -> result unit * R;
  wd_upload_sync : R -> L -> string -> string -> result unit * R;
  wd_download_file : R -> L -> string -> string -> result unit * (R * L)
}.

(** The calls made, each with the answer received.  A recursive call is one
    entry that holds the log of that call. *)
Inductive event : Type :=
| EvPrint (line : string)
| EvExists (path : string) (answer : bool)
| EvIsdir (path : string) (answer : bool)
| EvListdir (path : string) (answer : result (list string))
| EvMakedirs (path : string) (answer : result unit)
| EvCheck (path : string) (answer : result bool)
| EvList (path : string) (answer : result (list string))
| EvIsDir (path : string) (answer : result bool)
| EvMkdir (path : string) (answer : result unit)
| EvClean (path : string) (answer : result unit)
| EvUpload (remote_path local_path : string) (answer : result unit)
| EvDownload (remote_path local_path : string) (answer : result unit)
| EvPull (local_dir remote_dir : string) (inner : list event)
| EvPush (local_dir remote_dir : string) (inner : list event).

(** The log with the recursive calls spliced in, in the order of the calls. *)
Fixpoint flat_event (ev : event) : list event :=
  match ev with
  | EvPull _ _ inner => flat_map flat_event inner
  | EvPush _ _ inner => flat_map flat_event inner
  | _ => [ev]
  end.

Definition flat_log (log : list event) : list event := flat_map flat_event log.

Section Sync.
Context {L R : Type} `{LocalFS L} `{WebDav R L}.

Definition state : Type := (L * R)%type.
Definition Sync (A : Type) : Type := M state event A.

Definition print (line : string) : Sync unit := emit (EvPrint line).

Definition path_exists (p : string) : Sync bool :=
  fun s => let b := os_path_exists (fst s) p in (Ok b, s, [EvExists p b]).

Definition path_isdir (p : string) : Sync bool :=
  fun s => let b := os_path_isdir (fst s) p in (Ok b, s, [EvIsdir p b]).

Definition listdir (p : string) : Sync (list string) :=
  fun s => let a := os_listdir (fst s) p in (a, s, [EvListdir p a]).

Definition makedirs (p : string) : Sync unit :=
  fun s => match os_makedirs (fst s) p with
           | (a, l') => (a, (l', snd s), [EvMakedirs p a])
           end.

Definition check (p : string) : Sync bool :=
  fun s => match wd_check (snd s) p with
           | (a, r') => (a, (fst s, r'), [EvCheck p a])
           end.

Definition list_remote (p : string) : Sync (list string) :=
  fun s => match wd_list (snd s) p with
           | (a, r') => (a, (fst s, r'), [EvList p a])
           end.

Definition is_dir (p : string) : Sync bool :=
  fun s => match wd_is_dir (snd s) p with
           | (a, r') => (a, (fst s, r'), [EvIsDir p a])
           end.

Definition mkdir (p : string) : Sync unit :=
  fun s => match wd_mkdir (snd s) p with
           | (a, r') => (a, (fst s, r'), [EvMkdir p a])
           end.

Definition clean (p : string) : Sync unit :=
  fun s => match wd_clean (snd s) p with
           | (a, r') => (a, (fst s, r'), [EvClean p a])
           end.

Definition upload_sync (remote_path local_path : string) : Sync unit :=
  fun s => match wd_upload_sync (snd s) (fst s) remote_path local_path with
           | (a, r') => (a, (fst s, r'), [EvUpload remote_path local_path a])
           end.

Definition download_file (remote_path local_path : string) : Sync unit :=
  fun s => match wd_download_file (snd s) (fst s) remote_path local_path with
           | (a, (r', l')) => (a, (l', r'), [EvDownload remote_path local_path a])
           end.

(** A recursive call: its log becomes one entry of the caller's log. *)
Definition nested {A} (wrap : list event -> event) (m : Sync A) : Sync A :=
  fun s => match m s with
           | (a, s', log) => (a, s', [wrap log])
           end.

(** [except WebDavException: print(message); raise] *)
Definition reraise_after_print {A} (message : string) (e : exc) : Sync A :=
  print message ;;; raise e.

Definition spaces_44 : string :=
  "                                            ".

(** [push_file_to_remote(wdclient, local_origin, remote_destination, file)];
    [file] is a [str] here, so the [isinstance] test passes. *)
Definition push_file_to_remote (local_origin remote_destination file : string)
  : Sync unit :=
  let remote_path_to_file := os_path_join remote_destination file in
  let local_path_to_file := os_path_join local_origin file in
  present <- check remote_destination ;;
  if present then
    try_except (upload_sync remote_path_to_file local_path_to_file)
      is_WebDavException
      (reraise_after_print
         ("Failed to upload " ++ file ++ " to " ++ spaces_44
            ++ "remote destination")%string)
  else
    print ("remote parent directory " ++ remote_destination
             ++ " does not exist ")%string ;;;
    raise (Exc RemoteResourceNotFound remote_path_to_file).

(** [pull_file_from_remote(wdclient, local_destination, remote_origin, file)] *)
Definition pull_file_from_remote (local_destination remote_origin file : string)
  : Sync unit :=
  let remote_path_to_file := os_path_join remote_origin file in
  let local_path_to_file := os_path_join local_destination file in
  try_except (download_file remote_path_to_file local_path_to_file)
    is_WebDavException
    (reraise_after_print ("failed to download " ++ file ++ " from remote")%string).

Definition recursion_error : exc :=
  Exc RecursionError "maximum recursion depth exceeded".

(** The body of the loop of [pull_directory_from_remote]: a remote directory
    is pulled by the recursive call [recur], anything else is downloaded. *)
Definition pull_entry (recur : string -> string -> Sync unit)
    (local_dir remote_dir record : string) : Sync unit :=
  let rpath := os_path_join remote_dir record in
  let lpath := os_path_join local_dir record in
  d <- is_dir rpath ;;
  if d then
    try_except (nested (EvPull lpath rpath) (recur lpath rpath))
      is_WebDavException
      (reraise_after_print ("failed to recursively pull " ++ record)%string)
  else
    try_except (pull_file_from_remote local_dir remote_dir record)
      is_WebDavException
      (reraise_after_print
         ("failed to pull " ++ record ++ " from " ++ remote_dir)%string).

(** [pull_directory_from_remote(wdclient, local_dir, remote_dir)].  The
    function calls itself on every remote subdirectory; [depth] is the number
    of nested calls the interpreter still allows, and a call beyond it raises
    [RecursionError], as CPython does at its recursion limit. *)
Fixpoint pull_directory_from_remote (depth : nat) (local_dir remote_dir : string)
  : Sync unit :=
  match depth with
  | O => raise recursion_error
  | S depth' =>
      found <- path_exists local_dir ;;
      if found then
        print "A file or directory already exists with this name" ;;;
        raise (Exc FileExistsError local_dir)
      else
        _ <- try_except (check remote_dir) is_WebDavException
               (reraise_after_print
                  "failed to ascertain existance of remote directory") ;;
        records <- list_remote remote_dir ;;
        let records := tl records in
        makedirs local_dir ;;;
        for_each records
          (pull_entry (pull_directory_from_remote depth') local_dir remote_dir)
  end.

(** The body of the loop of [push_directory_to_remote] for an entry that is
    not a directory: delete what is at the remote path, then upload. *)
Definition push_entry_file (local_dir remote_dir lrecord rpath : string)
  : Sync unit :=
  occupied <- check rpath ;;
  (if occupied then clean rpath else ret tt) ;;;
  push_file_to_remote local_dir remote_dir lrecord.

(** The first statement of [push_directory_to_remote]: make sure that the
    remote target is a directory. *)
Definition ensure_remote_dir (remote_dir : string) : Sync unit :=
  present <- check remote_dir ;;
  if negb present then
    try_except (mkdir remote_dir) is_WebDavException
      (fun _ => print "failed to create remote directory" ;;;
                raise (Exc FileNotFoundError ""))
  else
    d <- is_dir remote_dir ;;
    if d then ret tt
    else
      print "A record exits at {} on the remote fs which is not a directory." ;;;
      raise (Exc FileExistsError "").

(** The body of the loop of [push_directory_to_remote]: a local directory is
    pushed by the recursive call [recur], anything else is uploaded. *)
Definition push_entry (recur : string -> string -> Sync unit)
    (local_dir remote_dir lrecord : string) : Sync unit :=
  let lpath := os_path_join local_dir lrecord in
  let rpath := os_path_join remote_dir lrecord in
  d <- path_isdir lpath ;;
  if d then nested (EvPush lpath rpath) (recur lpath rpath)
  else push_entry_file local_dir remote_dir lrecord rpath.

(** [push_directory_to_remote(wdclient, local_dir, remote_dir)]; [depth] as
    for [pull_directory_from_remote]. *)
Fixpoint push_directory_to_remote (depth : nat) (local_dir remote_dir : string)
  : Sync unit :=
  match depth with
  | O => raise recursion_error
  | S depth' =>
      ensure_remote_dir remote_dir ;;;
      lrecords <- listdir local_dir ;;
      for_each lrecords
        (push_entry (push_directory_to_remote depth') local_dir remote_dir)
  end.

End Sync.

End RemoteUtils.

(** ** The options of the WebDAV client ([remote_utils.py]) *)

Module RemoteOptions.

(** A Python [dict] with string keys and values, as a configuration file
    yields it: the entries in insertion order, the keys distinct. *)
Definition dict : Type := list (string * string).

Definition well_formed (d : dict) : Prop := NoDup (map fst d).

(** [k in d.keys()], [d.pop(k, None)] and [d.update(other)]. *)
Definition has_key (k : string) (d : dict) : bool :=
  match FS.assoc k d with Some _ => true | None => false end.

Definition pop (k : string) (d : dict) : dict := FS.remove_entry k d.

Definition update (d other : dict) : dict :=
  fold_left (fun acc kv => FS.set_entry (fst kv) (snd kv) acc) other d.

(** What a caller may hand over as options: a path to a configuration file,
    a dictionary, or any other object, given by the [str()] of its type and
    its own. *)
Inductive options : Type :=
| OptPath (file : string)
| OptDict (d : dict)
| OptOther (type_repr repr : string).

(** The double quote, which the messages contain. *)
Definition dq : string := String (ascii_of_nat 34) EmptyString.

Definition spaces_15 : string := "               ".
Definition spaces_25 : string := "                         ".

Definition note (first_word : string) : string :=
  (spaces_15 ++ first_word ++ " note that if you are using "
   ++ spaces_15 ++ "an authentication file the arguments "
   ++ spaces_15 ++ "must be specified there.")%string.

Definition missing_login : string :=
  ("missing " ++ dq ++ "webdav_login" ++ dq ++ " key. " ++ note "Please")%string.

Definition missing_password : string :=
  ("missing " ++ dq ++ "webdav_password" ++ dq ++ " key." ++ note "please")%string.

(** The message printed when the key [webdav_hostname] is missing. *)
Definition missing_hostname : string :=
  ("missing " ++ dq ++ "webdav_password" ++ dq ++ " key.")%string.

Definition insufficient : string :=
  "Options specified for Webdav client insufficient to establish client.".

(** [if key not in keys: print(message); failure = True] *)
Definition report (key message : string) (d : dict) : list string :=
  if has_key key d then [] else [message].

(** [check_options(options)]: the result and the lines printed. *)
Definition check_options (o : options) : result unit * list string :=
  match o with
  | OptDict d =>
      let printed :=
        report "webdav_login" missing_login d
        ++ report "webdav_password" missing_password d
        ++ report "webdav_hostname" missing_hostname d in
      let failure :=
        negb (has_key "webdav_login" d) || negb (has_key "webdav_password" d)
        || negb (has_key "webdav_hostname" d) in
      if failure then (Raise (Exc RuntimeError ""), printed ++ [insufficient])
      else (Ok tt, printed)
  | OptPath file =>
      (Raise (Exc TypeError file),
       ["options must be a dictionary at this stage."])
  | OptOther _ repr =>
      (Raise (Exc TypeError repr),
       ["options must be a dictionary at this stage."])
  end.

(** The dictionaries that [check_options] is written to let through. *)
Definition complete (d : dict) : bool :=
  has_key "webdav_login" d && has_key "webdav_password" d
  && has_key "webdav_hostname" d.

Definition missing (d : dict) : nat :=
  List.length
    (filter (fun k => negb (has_key k d))
       ["webdav_login"; "webdav_password"; "webdav_hostname"]).

Section Files.

(** Modelled from the spec: [utils.check_file_exists] and
    [utils.get_args_from_configfile] are not among the sources.  The
    configuration "may be ... loaded from a file that may itself reference a
    separate credentials file"; a file that is missing is a not-found
    error. *)
Variable file_exists : string -> bool.
Variable get_args_from_configfile : string -> result dict.

Definition check_file_exists (file : string) : result unit :=
  if file_exists file then Ok tt else Raise (Exc FileNotFoundError file).

(** [get_options_from_file(options)] *)
Definition get_options_from_file (file : string) : result dict :=
  match get_args_from_configfile file with
  | Raise e => Raise e
  | Ok args =>
      match FS.assoc "authenticationfile" args with
      | Some authenticationfile =>
          match check_file_exists authenticationfile with
          | Raise e => Raise e
          | Ok _ =>
              match get_args_from_configfile authenticationfile with
              | Raise e => Raise e
              | Ok authentication =>
                  Ok (update (pop "authenticationfile" args) authentication)
              end
          end
      | None => Ok args
      end
  end.

(** [get_wdclient(options)]; the client [wd3client(options)] is given by
    the options it was built from. *)
Definition get_wdclient (o : options) : result dict * list string :=
  match o with
  | OptPath file =>
      match check_file_exists file with
      | Raise e => (Raise e, [])
      | Ok _ =>
          match get_options_from_file file with
          | Raise e => (Raise e, [])
          | Ok d =>
              match check_options (OptDict d) with
              | (Ok _, printed) => (Ok d, printed)
              | (Raise e, printed) => (Raise e, printed)
              end
          end
      end
  | OptDict d =>
      match check_options (OptDict d) with
      | (Ok _, printed) => (Ok d, printed)
      | (Raise e, printed) => (Raise e, printed)
      end
  | OptOther type_repr _ =>
      (Raise (Exc TypeError
                ("unrecognized type " ++ type_repr ++ " for client "
                 ++ spaces_25 ++ "options")%string), [])
  end.

End Files.

(** *** A small configuration *)

Definition config_file : dict :=
  [("webdav_hostname", "https://webdav.example.org");
   ("authenticationfile", "auth.cfg")].

Definition auth_file : dict :=
  [("webdav_login", "user"); ("webdav_password", "secret")].

Definition read_file (file : string) : result dict :=
  if String.eqb file "remote.cfg" then Ok config_file
  else if String.eqb file "auth.cfg" then Ok auth_file
  else Raise (Exc FileNotFoundError file).

Definition on_disk (file : string) : bool :=
  String.eqb file "remote.cfg" || String.eqb file "auth.cfg".

End RemoteOptions.

(** ** What the synchronisation logs are read for *)

Module SyncLog.
Import RemoteUtils.

(** The uploads that went through, as (remote path, local path). *)
Definition uploaded (log : list event) : list (string * string) :=
  flat_map (fun ev => match ev with
                      | EvUpload rp lp (Ok _) => [(rp, lp)]
                      | _ => []
                      end) log.

Definition is_upload (ev : event) : bool :=
  match ev with EvUpload _ _ _ => true | _ => false end.

(** A log in which every upload attempt comes right after the test of the
    remote parent, which itself comes right after either a positive test of
    the target followed by its deletion, or a negative test of the target. *)
Inductive uploads_clobber : list event -> Prop :=
| uc_nil : uploads_clobber []
| uc_other ev log :
    is_upload ev = false -> uploads_clobber log -> uploads_clobber (ev :: log)
| uc_replace rp lp parent answer log :
    uploads_clobber log ->
    uploads_clobber (EvCheck rp (Ok true) :: EvClean rp (Ok tt)
                       :: EvCheck parent (Ok true)
                       :: EvUpload rp lp answer :: log)
| uc_fresh rp lp parent answer log :
    uploads_clobber log ->
    uploads_clobber (EvCheck rp (Ok false)
                       :: EvCheck parent (Ok true)
                       :: EvUpload rp lp answer :: log).

(** What precedes an upload attempt to [rp]. *)
Definition clobbered_before (before : list event) (rp : string) : Prop :=
  exists earlier parent,
    before = earlier ++ [EvCheck rp (Ok true); EvClean rp (Ok tt);
                         EvCheck parent (Ok true)]
    \/ before = earlier ++ [EvCheck rp (Ok false); EvCheck parent (Ok true)].

(** The remote paths that one call of [pull_directory_from_remote] itself
    transfers: a download it starts, or a recursive call it makes. *)
Definition transfers (log : list event) : list string :=
  flat_map (fun ev => match ev with
                      | EvDownload rp _ _ => [rp]
                      | EvPull _ rp _ => [rp]
                      | _ => []
                      end) log.

(** No remote listing among the entries of a log. *)
Definition is_listing (ev : event) : bool :=
  match ev with EvList _ _ => true | _ => false end.

(** An entry after which a push may stop: a message of the push itself, or a
    call that raised. *)
Definition told (ev : event) : bool :=
  match ev with
  | EvPrint _ => true
  | EvListdir _ (Raise _) | EvCheck _ (Raise _) | EvIsDir _ (Raise _)
  | EvMkdir _ (Raise _) | EvClean _ (Raise _) | EvUpload _ _ (Raise _) => true
  | _ => false
  end.

Definition told_last (log : list event) : bool :=
  match rev log with
  | ev :: _ => told ev
  | [] => false
  end.

Fixpoint flat_map_opt {A B} (f : A -> option (list B)) (xs : list A)
  : option (list B) :=
  match xs with
  | [] => Some []
  | x :: rest =>
      match f x, flat_map_opt f rest with
      | Some here, Some there => Some (here ++ there)
      | _, _ => None
      end
  end.

Section Walk.
Context {L : Type} `{LocalFS L}.

(** Every file under a local directory, depth first and in directory order,
    paired with the remote path it mirrors to: (remote path, local path).
    [None] when the tree is deeper than [depth] or a directory cannot be
    listed. *)
Fixpoint local_files (depth : nat) (l : L) (local_dir remote_dir : string)
  : option (list (string * string)) :=
  match depth with
  | O => None
  | S depth' =>
      match os_listdir l local_dir with
      | Raise _ => None
      | Ok names =>
          flat_map_opt
            (fun name =>
               let lpath := os_path_join local_dir name in
               let rpath := os_path_join remote_dir name in
               if os_path_isdir l lpath
               then local_files depth' l lpath rpath
               else Some [(rpath, lpath)])
            names
      end
  end.

End Walk.

Section Parts.
Variables L R : Type.

(** What a part of a push guarantees: the local disk is not written, every
    upload is a clobbering one, and, if the part completes, the uploads that
    went through are [expected]. *)
Definition push_part_ok (s : L * R) (out : result unit * (L * R) * list event)
    (expected : option (list (string * string))) : Prop :=
  fst (snd (fst out)) = fst s /\
  uploads_clobber (flat_log (snd out)) /\
  (fst (fst out) = Ok tt ->
   expected = Some (uploaded (flat_log (snd out)))).

(** A part of a push that fails, fails after a message or a raised call;
    [fits] says that the local tree below the part fits the depth left. *)
Definition push_part_told (out : result unit * (L * R) * list event)
    (fits : Prop) : Prop :=
  forall e, fst (fst out) = Raise e -> fits ->
            told_last (flat_log (snd out)) = true.

End Parts.

End SyncLog.

(** ** How a loop ran *)

Module Loop.

Section Run.
Variables St Ev A : Type.
Variable body : A -> M St Ev unit.

(** [run xs s res s' log]: the loop over [xs] started in [s] ended with
    [res] in [s'], having logged [log]. *)
Inductive run : list A -> St -> result unit -> St -> list Ev -> Prop :=
| run_nil s : run [] s (Ok tt) s []
| run_stop x rest s e s' log :
    body x s = (Raise e, s', log) -> run (x :: rest) s (Raise e) s' log
| run_step x rest s s1 log1 res s2 log2 :
    body x s = (Ok tt, s1, log1) ->
    run rest s1 res s2 log2 ->
    run (x :: rest) s res s2 (log1 ++ log2).

End Run.

End Loop.

(** ** Reading a synchronisation log, continued *)

Module SyncTrace.
Import RemoteUtils.

(** The calls that change the remote store. *)
Definition writes_remote (ev : event) : bool :=
  match ev with
  | EvMkdir _ _ | EvClean _ _ | EvUpload _ _ _ => true
  | _ => false
  end.

(** The calls that change the local disk. *)
Definition writes_local (ev : event) : bool :=
  match ev with
  | EvMakedirs _ _ | EvDownload _ _ _ => true
  | _ => false
  end.

(** The calls a pull is made of. *)
Definition pull_call (ev : event) : bool :=
  match ev with
  | EvPrint _ | EvExists _ _ | EvMakedirs _ _ | EvCheck _ _ | EvList _ _
  | EvIsDir _ _ | EvDownload _ _ _ => true
  | _ => false
  end.

(** The calls a push is made of. *)
Definition push_call (ev : event) : bool :=
  match ev with
  | EvPrint _ | EvIsdir _ _ | EvListdir _ _ | EvCheck _ _ | EvIsDir _ _
  | EvMkdir _ _ | EvClean _ _ | EvUpload _ _ _ => true
  | _ => false
  end.

(** A call that was answered without an exception; a message counts as a
    failure, since the functions print only on their error paths. *)
Definition answered (ev : event) : bool :=
  match ev with
  | EvPrint _ => false
  | EvListdir _ (Raise _) | EvMakedirs _ (Raise _) | EvCheck _ (Raise _)
  | EvList _ (Raise _) | EvIsDir _ (Raise _) | EvMkdir _ (Raise _)
  | EvClean _ (Raise _) | EvUpload _ _ (Raise _) | EvDownload _ _ (Raise _) =>
      false
  | _ => true
  end.

(** A name that [os.path.join] appends to the directory instead of letting
    it replace the directory. *)
Definition relative (name : string) : bool := negb (startswith name "/").

(** The names a call handed back to be joined to a directory: the entries of
    a remote listing after the first, and the entries of a local listing. *)
Definition names_relative (ev : event) : bool :=
  match ev with
  | EvList _ (Ok records) => forallb relative (tl records)
  | EvListdir _ (Ok names) => forallb relative names
  | _ => true
  end.

(** Every path of the call lies, as a string, under the local or the remote
    root it belongs to. *)
Definition confined (local_root remote_root : string) (ev : event) : bool :=
  match ev with
  | EvExists p _ | EvIsdir p _ | EvListdir p _ | EvMakedirs p _ =>
      startswith p local_root
  | EvCheck p _ | EvList p _ | EvIsDir p _ | EvMkdir p _ | EvClean p _ =>
      startswith p remote_root
  | EvUpload rp lp _ | EvDownload rp lp _ =>
      startswith rp remote_root && startswith lp local_root
  | _ => true
  end.

(** [in_order allowed prev log]: every call of [log], which comes after the
    call [prev], is allowed after the call that comes right before it. *)
Fixpoint in_order (allowed : option event -> event -> bool)
    (prev : option event) (log : list event) : bool :=
  match log with
  | [] => true
  | ev :: rest => allowed prev ev && in_order allowed (Some ev) rest
  end.

(** The last call of a log that comes after the call [prev]. *)
Fixpoint last_from (prev : option event) (log : list event) : option event :=
  match log with
  | [] => prev
  | ev :: rest => last_from (Some ev) rest
  end.

Definition last_call (log : list event) : option event := last_from None log.

(** In a pull, a local directory is made right after a listing that
    succeeded, and a download starts right after [is_dir] said of the same
    remote path that it is not a directory. *)
Definition pull_order (prev : option event) (ev : event) : bool :=
  match ev with
  | EvMakedirs _ _ =>
      match prev with Some (EvList _ (Ok _)) => true | _ => false end
  | EvDownload rp _ _ =>
      match prev with
      | Some (EvIsDir q (Ok false)) => String.eqb rp q
      | _ => false
      end
  | _ => true
  end.

(** In a push, a remote directory is made right after [check] said of the
    same path that it is absent, and a remote path is deleted right after
    [check] said of the same path that it is present. *)
Definition push_order (prev : option event) (ev : event) : bool :=
  match ev with
  | EvMkdir p _ =>
      match prev with
      | Some (EvCheck q (Ok false)) => String.eqb p q
      | _ => false
      end
  | EvClean p _ =>
      match prev with
      | Some (EvCheck q (Ok true)) => String.eqb p q
      | _ => false
      end
  | _ => true
  end.

(** The exception with which a call was answered, if it was. *)
Definition raised (ev : event) : option exc :=
  match ev with
  | EvListdir _ (Raise e) | EvMakedirs _ (Raise e) | EvCheck _ (Raise e)
  | EvList _ (Raise e) | EvIsDir _ (Raise e) | EvMkdir _ (Raise e)
  | EvClean _ (Raise e) | EvUpload _ _ (Raise e) | EvDownload _ _ (Raise e) =>
      Some e
  | _ => None
  end.

(** The exceptions that a pull raises of its own accord. *)
Definition pull_own (e : exc) : bool :=
  match exc_class e with
  | FileExistsError | RecursionError => true
  | _ => false
  end.

(** The exceptions that a push raises of its own accord. *)
Definition push_own (e : exc) : bool :=
  match exc_class e with
  | FileExistsError | FileNotFoundError | RemoteResourceNotFound
  | RecursionError => true
  | _ => false
  end.

End SyncTrace.

(** What every part of a pull or of a push guarantees about its log: only
    the calls of [kind] are made; a part that completes made no call that
    failed; when the names handed back by the listings are relative (and
    [names_ok] holds for the name the part itself joins), every path stays
    under the two roots; every call is [allowed] after the one before it;
    and an exception that ends the part is one of its [own] or the answer of
    one of its calls. *)

Module SyncParts.
Import RemoteUtils.

Section Parts.
Variables L R : Type.

Definition log_ok (kind : event -> bool)
    (allowed : option event -> event -> bool) (own : exc -> bool)
    (local_root remote_root : string)
    (names_ok : Prop) (out : result unit * (L * R) * list event) : Prop :=
  forallb kind (flat_log (snd out)) = true /\
  (fst (fst out) = Ok tt ->
   forallb SyncTrace.answered (flat_log (snd out)) = true) /\
  (names_ok ->
   forallb SyncTrace.names_relative (flat_log (snd out)) = true ->
   forallb (SyncTrace.confined local_root remote_root) (flat_log (snd out))
   = true) /\
  (forall prev,
      SyncTrace.in_order allowed prev (flat_log (snd out)) = true) /\
  (forall e,
      fst (fst out) = Raise e ->
      own e = true \/
      Exists (fun ev => SyncTrace.raised ev = Some e) (flat_log (snd out))).

Definition push_ok : string -> string -> Prop ->
                     result unit * (L * R) * list event -> Prop :=
  log_ok SyncTrace.push_call SyncTrace.push_order SyncTrace.push_own.

Definition pull_ok : string -> string -> Prop ->
                     result unit * (L * R) * list event -> Prop :=
  log_ok SyncTrace.pull_call SyncTrace.pull_order SyncTrace.pull_own.

End Parts.

End SyncParts.

(** ** An in-memory disk and an in-memory WebDAV server

    Both are file system trees whose files hold text.  The server answers as
    the one the functions were written against: a listing starts with the
    directory itself and names subdirectories with a trailing slash; [list]
    and [is_dir] raise [RemoteResourceNotFound] on a missing path; [mkdir]
    and [upload_sync] need the remote parent. *)

Module MemoryEnv.
Import RemoteUtils.

Definition tree : Type := FS.node string.

Definition disk_listdir (l : tree) (p : string) : result (list string) :=
  match FS.lookup l (FS.split_path p) with
  | Some (FS.Dir es) => Ok (map fst es)
  | Some (FS.File _) => Raise (Exc NotADirectoryError p)
  | None => Raise (Exc FileNotFoundError p)
  end.

Definition disk_makedirs (l : tree) (p : string) : result unit * tree :=
  if FS.exists_ l (FS.split_path p) then (Raise (Exc FileExistsError p), l)
  else match FS.mkdirs l (FS.split_path p) with
       | Some l' => (Ok tt, l')
       | None => (Raise (Exc NotADirectoryError p), l)
       end.

#[global] Instance disk : LocalFS tree := {
  os_path_exists l p := FS.exists_ l (FS.split_path p);
  os_path_isdir l p := FS.is_dir l (FS.split_path p);
  os_listdir := disk_listdir;
  os_makedirs := disk_makedirs
}.

Definition listed_name (entry : string * tree) : string :=
  match snd entry with
  | FS.Dir _ => (fst entry ++ "/")%string
  | FS.File _ => fst entry
  end.

Definition server_list (r : tree) (p : string) : result (list string) * tree :=
  match FS.lookup r (FS.split_path p) with
  | Some (FS.Dir es) =>
      (Ok ((FS.name (FS.split_path p) ++ "/")%string :: map listed_name es), r)
  | _ => (Raise (Exc RemoteResourceNotFound p), r)
  end.

Definition server_is_dir (r : tree) (p : string) : result bool * tree :=
  match FS.lookup r (FS.split_path p) with
  | Some (FS.Dir _) => (Ok true, r)
  | Some (FS.File _) => (Ok false, r)
  | None => (Raise (Exc RemoteResourceNotFound p), r)
  end.

Definition server_mkdir (r : tree) (p : string) : result unit * tree :=
  match FS.put r (FS.split_path p) (FS.Dir []) with
  | Some r' => (Ok tt, r')
  | None => (Raise (Exc RemoteParentNotFound p), r)
  end.

Definition server_upload (r l : tree) (remote_path local_path : string)
  : result unit * tree :=
  match FS.lookup l (FS.split_path local_path) with
  | Some (FS.File text) =>
      match FS.put r (FS.split_path remote_path) (FS.File text) with
      | Some r' => (Ok tt, r')
      | None => (Raise (Exc RemoteParentNotFound remote_path), r)
      end
  | _ => (Raise (Exc LocalResourceNotFound local_path), r)
  end.

Definition server_download (r l : tree) (remote_path local_path : string)
  : result unit * (tree * tree) :=
  match FS.lookup r (FS.split_path remote_path) with
  | Some (FS.File text) =>
      match FS.put l (FS.split_path local_path) (FS.File text) with
      | Some l' => (Ok tt, (r, l'))
      | None => (Raise (Exc FileNotFoundError local_path), (r, l))
      end
  | _ => (Raise (Exc RemoteResourceNotFound remote_path), (r, l))
  end.

#[global] Instance server : WebDav tree tree := {
  wd_check r p := (Ok (FS.exists_ r (FS.split_path p)), r);
  wd_list := server_list;
  wd_is_dir := server_is_dir;
  wd_mkdir := server_mkdir;
  wd_clean r p := (Ok tt, FS.remove r (FS.split_path p));
  wd_upload_sync := server_upload;
  wd_download_file := server_download
}.

(** A local directory [out] with two tiles, one of them in a subdirectory. *)
Definition local_out : tree :=
  FS.Dir [("out", FS.Dir [("tile_0_0", FS.Dir [("a_1.las", FS.File "points-1")]);
                          ("notes.txt", FS.File "new")])].

(** A remote store where [archive/out] exists and holds an older
    [notes.txt]. *)
Definition remote_archive : tree :=
  FS.Dir [("archive", FS.Dir [("out", FS.Dir [("notes.txt", FS.File "old")])])].

(** A remote store where [archive/out] is a plain file. *)
Definition remote_conflict : tree :=
  FS.Dir [("archive", FS.Dir [("out", FS.File "not a directory")])].

(** A remote store to pull from. *)
Definition remote_tiles : tree :=
  FS.Dir [("archive",
           FS.Dir [("tiles",
                    FS.Dir [("tile_0_0", FS.Dir [("a_1.las", FS.File "points-1")]);
                            ("a_2.las", FS.File "points-2")])])].

Definition empty_disk : tree := FS.Dir [].

Definition disk_with_target : tree := FS.Dir [("tiles", FS.Dir [])].

End MemoryEnv.

(** ** The parts of a push *)

Module PushParts.
Import RemoteUtils.

Section Sync.
Context {L R : Type} `{LocalFS L} `{WebDav R L}.

(** The part of [push_directory_to_remote] that follows the test of the
    remote target: the listing of the local directory and the loop. *)
Definition push_entries (depth : nat) (local_dir remote_dir : string)
  : Sync unit :=
  bind (listdir local_dir)
    (fun lrecords =>
       for_each lrecords
         (push_entry (push_directory_to_remote depth) local_dir remote_dir)).

End Sync.

End PushParts.

(** ** What a push leaves on the in-memory server *)

Module Mirror.
Import RemoteUtils MemoryEnv.

Fixpoint no_slash (s : string) : bool :=
  match s with
  | EmptyString => true
  | String c rest => negb (Ascii.eqb c "/"%char) && no_slash rest
  end.

(** A name as [os.listdir] returns it: not empty, without a slash, and
    neither [.] nor [..]. *)
Definition plain (name : string) : bool :=
  negb (String.eqb name "") && negb (String.eqb name ".")
  && negb (String.eqb name "..") && no_slash name.

(** A tree as a disk holds it: the names of a directory are plain and
    distinct. *)
Inductive well_formed : tree -> Prop :=
| wf_file text : well_formed (FS.File text)
| wf_dir es :
    NoDup (map fst es) ->
    (forall name child,
        In (name, child) es -> plain name = true /\ well_formed child) ->
    well_formed (FS.Dir es).

(** [mirrored local remote]: the remote node holds all of the local one: a
    file with the same text, or a directory that has, under the name of
    every local entry, a mirror of that entry.  The remote directory may
    hold more. *)
Inductive mirrored : tree -> tree -> Prop :=
| mirrored_file text : mirrored (FS.File text) (FS.File text)
| mirrored_dir es res :
    (forall name child,
        In (name, child) es ->
        exists rc, FS.assoc name res = Some rc /\ mirrored child rc) ->
    mirrored (FS.Dir es) (FS.Dir res).

(** What a completed push of the local directory [es] guarantees: the
    local disk [l] is as it was, the remote target holds a mirror of the
    directory, and the remote store [r] is unchanged at every path apart
    from the target. *)
Definition push_spec (l r : tree) (remote_dir : string)
    (es : list (string * tree)) (st : tree * tree) : Prop :=
  fst st = l /\
  (exists n,
      FS.lookup (snd st) (FS.split_path remote_dir) = Some n /\
      mirrored (FS.Dir es) n) /\
  (forall q,
      FS.apart (FS.split_path remote_dir) q ->
      FS.lookup (snd st) q = FS.lookup r q).

End Mirror.

(** * Theorems *)

(** ** Grid *)

Module GridFacts.
Import Grid.

Lemma Qltb_lt (a b : Q) : Qltb a b = true -> a < b.
Proof.
  unfold Qltb. intros H. apply negb_true_iff in H.
  apply Qnot_le_lt. intros Hle. apply Qle_bool_iff in Hle. congruence.
Qed.

Lemma inject_Z_pos (n : Z) : (1 <= n)%Z -> 0 < inject_Z n.
Proof.
  intros Hn. change 0 with (inject_Z 0). rewrite <- Zlt_Qlt. lia.
Qed.

(** Scaling an offset inside the bounds by the tile size lands in [0, n]. *)
Lemma scaled_offset_range (mn mx x : Q) (n : Z) :
  mn < mx -> (1 <= n)%Z -> mn <= x -> x <= mx ->
  0 <= (x - mn) / ((mx - mn) / inject_Z n) /\
  (x - mn) / ((mx - mn) / inject_Z n) <= inject_Z n.
Proof.
  intros Hlt Hn Hlo Hhi.
  pose proof (inject_Z_pos Hn) as Hn0.
  assert (Hd : 0 < mx - mn).
  { setoid_replace 0 with (mn - mn) by ring.
    apply Qplus_lt_l. exact Hlt. }
  assert (Hs : 0 < (mx - mn) / inject_Z n).
  { apply Qlt_shift_div_l; [exact Hn0|]. ring_simplify. exact Hd. }
  split.
  - apply Qle_shift_div_l; [exact Hs|]. ring_simplify.
    setoid_replace 0 with (mn - mn) by ring.
    apply Qplus_le_l. exact Hlo.
  - apply Qle_shift_div_r; [exact Hs|].
    setoid_replace (inject_Z n * ((mx - mn) / inject_Z n)) with (mx - mn)
      by (field; intros E; rewrite E in Hn0; apply (Qlt_irrefl 0 Hn0)).
    apply Qplus_le_l. exact Hhi.
Qed.

Lemma axis_index_range (mn mx x : Q) (n : Z) :
  mn < mx -> (1 <= n)%Z -> mn <= x -> x <= mx ->
  (0 <= axis_index mn ((mx - mn) / inject_Z n) n x <= n - 1)%Z.
Proof.
  intros Hlt Hn Hlo Hhi. unfold axis_index.
  destruct (scaled_offset_range Hlt Hn Hlo Hhi) as [H0 H1].
  set (q := (x - mn) / ((mx - mn) / inject_Z n)) in *.
  assert (F0 : (0 <= Qfloor q)%Z).
  { change 0%Z with (Qfloor (inject_Z 0)) at 1.
    apply Qfloor_resp_le. exact H0. }
  assert (F1 : (Qfloor q <= n)%Z).
  { rewrite <- (Qfloor_Z n). apply Qfloor_resp_le. exact H1. }
  destruct (Z.eqb_spec (Qfloor q) n); lia.
Qed.

(** A point on the upper bound of an axis is clamped into the last cell. *)
Lemma axis_index_max_edge (mn mx : Q) (n : Z) :
  mn < mx -> (1 <= n)%Z ->
  axis_index mn ((mx - mn) / inject_Z n) n mx = (n - 1)%Z.
Proof.
  intros Hlt Hn. unfold axis_index.
  pose proof (inject_Z_pos Hn) as Hp.
  assert (E : (mx - mn) / ((mx - mn) / inject_Z n) == inject_Z n).
  { field. split.
    - intros E. rewrite E in Hp. exact (Qlt_irrefl 0 Hp).
    - intros E. apply (Qlt_irrefl mn).
      setoid_replace mn with (mx - (mx - mn)) at 2 by ring.
      rewrite E. setoid_replace (mx - 0) with mx by ring. exact Hlt. }
  rewrite E, Qfloor_Z, Z.eqb_refl. reflexivity.
Qed.

Lemma setup_ok_inv (mnx mny mxx mxy : Q) (n : Z) (g : t) :
  setup mnx mny mxx mxy n = Ok g ->
  mnx < mxx /\ mny < mxy /\ (1 <= n)%Z /\
  g = {| min_x := mnx; min_y := mny; max_x := mxx; max_y := mxy;
         n_tiles_side := n;
         tile_width := (mxx - mnx) / inject_Z n;
         tile_height := (mxy - mny) / inject_Z n |}.
Proof.
  unfold setup.
  destruct (Qltb mnx mxx) eqn:Ex; simpl; [|discriminate].
  destruct (Qltb mny mxy) eqn:Ey; simpl; [|discriminate].
  destruct (Z.leb_spec 1 n) as [Hn|Hn]; simpl; [|discriminate].
  intros Hg. inversion Hg.
  repeat split; auto using Qltb_lt.
Qed.

(** C3.  Every grid that [setup] accepts (max strictly above min on both
    axes, at least one tile per side) maps every point of the closed bounding
    box to indices in [0, n_tiles_side - 1] on both axes, the max-edge point
    being clamped to the last index; and on the grid [setup(0,0,100,100,2)]
    the points (99,1), (100,100) and (49,49) fall in cells (1,0), (1,1) and
    (0,0). *)
Theorem get_tile_index_in_range
    (mnx mny mxx mxy : Q) (n : Z) (g : t) (x y : Q) :
  setup mnx mny mxx mxy n = Ok g ->
  mnx <= x -> x <= mxx -> mny <= y -> y <= mxy ->
  ((0 <= fst (get_tile_index g x y) <= n - 1)%Z /\
   (0 <= snd (get_tile_index g x y) <= n - 1)%Z /\
   get_tile_index g mxx mxy = ((n - 1)%Z, (n - 1)%Z)) /\
  (exists g2, grid_100_2 = Ok g2 /\
              get_tile_index g2 99 1 = (1%Z, 0%Z) /\
              get_tile_index g2 100 100 = (1%Z, 1%Z) /\
              get_tile_index g2 49 49 = (0%Z, 0%Z)).
Proof.
  intros Hs Hx0 Hx1 Hy0 Hy1. split.
  - destruct (setup_ok_inv _ _ _ _ _ Hs) as (Hx & Hy & Hn & ->).
    unfold get_tile_index; simpl.
    split; [apply axis_index_range; assumption|].
    split; [apply axis_index_range; assumption|].
    rewrite (axis_index_max_edge Hx Hn), (axis_index_max_edge Hy Hn).
    reflexivity.
  - eexists. split; [reflexivity|].
    repeat split; vm_compute; reflexivity.
Qed.

(** The theorem at a 3 x 3 grid over [-3,3] x [0,9/2], at the point
    (3/2, 9/2) of its upper edge. *)
Lemma get_tile_index_in_range_witness :
  exists g, setup (-3) 0 3 (9 # 2) 3 = Ok g /\
            get_tile_index g (3 # 2) (9 # 2) = (2%Z, 2%Z) /\
            (0 <= fst (get_tile_index g (3 # 2) (9 # 2)) <= 3 - 1)%Z.
Proof.
  eexists. split; [reflexivity|]. split; [vm_compute; reflexivity|].
  refine (proj1 (proj1 (@get_tile_index_in_range
                          (-3) 0 3 (9 # 2) 3%Z _ (3 # 2) (9 # 2) _ _ _ _ _))).
  - reflexivity.
  - vm_compute; discriminate.
  - vm_compute; discriminate.
  - vm_compute; discriminate.
  - vm_compute; discriminate.
Defined.

End GridFacts.

(** ** The monad *)

Module MonadFacts.

Section Laws.
Variables St Ev : Type.

Lemma bind_inv {A B} (m : M St Ev A) (k : A -> M St Ev B)
    (s s' : St) (res : result B) (log : list Ev) :
  bind m k s = (res, s', log) ->
  (exists a s1 log1 log2,
      m s = (Ok a, s1, log1) /\ k a s1 = (res, s', log2) /\
      log = log1 ++ log2) \/
  (exists e, m s = (Raise e, s', log) /\ res = Raise e).
Proof.
  unfold bind. destruct (m s) as [[[a|e] s1] log1].
  - destruct (k a s1) as [[r s2] log2] eqn:Ek. intros E. inversion E; subst.
    left. exists a, s1, log1, log2. auto.
  - intros E. inversion E; subst. right. exists e. auto.
Qed.

Lemma for_each_run {A} (body : A -> M St Ev unit) (xs : list A)
    (s s' : St) (res : result unit) (log : list Ev) :
  for_each xs body s = (res, s', log) -> Loop.run body xs s res s' log.
Proof.
  revert s s' res log.
  induction xs as [|x rest IH]; intros s s' res log E; simpl in E.
  - inversion E; subst. constructor.
  - apply bind_inv in E.
    destruct E as [(a & s1 & log1 & log2 & Hb & Hk & ->) | (e & Hb & ->)].
    + destruct a. eapply Loop.run_step; eauto.
    + apply Loop.run_stop. exact Hb.
Qed.

End Laws.

End MonadFacts.

(** ** The file system tree *)

Module FSFacts.

Section Tree.
Variable C : Type.

Lemma assoc_set_entry_same {A} (x : string) (a : A) (es : list (string * A)) :
  FS.assoc x (FS.set_entry x a es) = Some a.
Proof.
  induction es as [|[y b] rest IH]; simpl.
  - rewrite String.eqb_refl. reflexivity.
  - destruct (String.eqb x y) eqn:E; simpl; rewrite E; auto.
Qed.

Lemma assoc_In {A} (x : string) (a : A) (es : list (string * A)) :
  NoDup (map fst es) -> In (x, a) es -> FS.assoc x es = Some a.
Proof.
  induction es as [|[y b] rest IH]; simpl; intros Hnd Hin; [destruct Hin|].
  inversion Hnd as [|? ? Hnotin Hnd']; subst.
  destruct Hin as [Heq|Hin].
  - inversion Heq; subst. rewrite String.eqb_refl. reflexivity.
  - destruct (String.eqb_spec x y) as [->|Hne].
    + exfalso. apply Hnotin. apply (in_map fst) in Hin. exact Hin.
    + apply IH; assumption.
Qed.

Lemma lookup_app (n : FS.node C) (p q : FS.path) :
  FS.lookup n (p ++ q) =
  match FS.lookup n p with
  | Some m => FS.lookup m q
  | None => None
  end.
Proof.
  revert n. induction p as [|x rest IH]; intros n; simpl.
  - reflexivity.
  - destruct n as [c|es]; [reflexivity|].
    destruct (FS.assoc x es); [apply IH|reflexivity].
Qed.

(** What was put at a path is found there. *)
Lemma lookup_put (n n' new : FS.node C) (p : FS.path) :
  FS.put n p new = Some n' -> FS.lookup n' p = Some new.
Proof.
  revert n n'. induction p as [|x rest IH]; intros n n'; simpl.
  - intros E. inversion E. reflexivity.
  - destruct n as [c|es]; [discriminate|].
    destruct rest as [|y rest'].
    + intros E. inversion E; subst. simpl.
      rewrite assoc_set_entry_same. reflexivity.
    + destruct (FS.assoc x es) as [child|]; [|discriminate].
      destruct (FS.put child (y :: rest') new) as [child'|] eqn:Ep;
        [|discriminate].
      intros E. inversion E; subst.
      change (FS.lookup (FS.Dir (FS.set_entry x child' es)) (x :: y :: rest'))
        with (match FS.assoc x (FS.set_entry x child' es) with
              | Some child0 => FS.lookup child0 (y :: rest')
              | None => None
              end).
      rewrite assoc_set_entry_same. apply (IH _ _ Ep).
Qed.

(** A new entry can always be put into an existing directory. *)
Lemma put_in_dir (n new : FS.node C) (dir : FS.path) (nm : string) :
  FS.is_dir n dir = true -> exists n', FS.put n (dir ++ [nm]) new = Some n'.
Proof.
  unfold FS.is_dir. revert n.
  induction dir as [|x rest IH]; intros n; simpl.
  - destruct n as [c|es]; [discriminate|]. intros _. eauto.
  - destruct n as [c|es]; [discriminate|].
    destruct (FS.assoc x es) as [child|] eqn:Ea; [|discriminate].
    intros Hd. destruct (IH child Hd) as [child' Hc].
    destruct (rest ++ [nm]) as [|y more] eqn:Er.
    + destruct rest; discriminate Er.
    + rewrite Hc. eauto.
Qed.

Lemma name_joinpath (p : FS.path) (nm : string) : FS.name (p ++ [nm]) = nm.
Proof. unfold FS.name. apply last_last. Qed.

Lemma parent_joinpath (p : FS.path) (nm : string) : FS.parent (p ++ [nm]) = p.
Proof. unfold FS.parent. apply removelast_last. Qed.

End Tree.

End FSFacts.

(** ** What a change of the tree leaves alone *)

Module FSFrameFacts.

Lemma assoc_set_entry_other {A} (x y : string) (a : A)
    (es : list (string * A)) :
  x <> y -> FS.assoc y (FS.set_entry x a es) = FS.assoc y es.
Proof.
  intros Hne. induction es as [|[z b] rest IH]; simpl.
  - destruct (String.eqb_spec y x) as [->|_]; [contradiction Hne|]; reflexivity.
  - destruct (String.eqb_spec x z) as [->|Hxz]; simpl.
    + destruct (String.eqb_spec y z) as [->|_]; [contradiction Hne|];
        reflexivity.
    + destruct (String.eqb y z); [reflexivity|exact IH].
Qed.

Lemma assoc_remove_entry_other {A} (x y : string) (es : list (string * A)) :
  x <> y -> FS.assoc y (FS.remove_entry x es) = FS.assoc y es.
Proof.
  intros Hne. induction es as [|[z b] rest IH]; simpl; [reflexivity|].
  destruct (String.eqb_spec x z) as [->|Hxz]; simpl.
  - destruct (String.eqb_spec y z) as [->|_]; [contradiction Hne|];
      reflexivity.
  - destruct (String.eqb y z); [reflexivity|exact IH].
Qed.

Lemma under_nil (q : FS.path) : FS.under [] q.
Proof. exists q. reflexivity. Qed.

Lemma under_cons (x : string) (p q : FS.path) :
  FS.under p q -> FS.under (x :: p) (x :: q).
Proof. intros [s ->]. exists s. reflexivity. Qed.

Lemma apart_cons (x : string) (p q : FS.path) :
  FS.apart (x :: p) (x :: q) -> FS.apart p q.
Proof.
  intros [H1 H2]. split; intros Hu; [apply H1|apply H2];
    apply under_cons; exact Hu.
Qed.

Lemma apart_child (p q : FS.path) (x : string) :
  FS.apart p q -> FS.apart (p ++ [x]) q.
Proof.
  intros [H1 H2]. split.
  - intros [s ->]. apply H1. exists ([x] ++ s). rewrite app_assoc.
    reflexivity.
  - intros [s Hs]. induction s as [|y s' _] using rev_ind.
    + rewrite app_nil_r in Hs. subst q.
      apply H1. exists [x]. reflexivity.
    + rewrite app_assoc in Hs. apply app_inj_tail in Hs.
      destruct Hs as [Hp _]. apply H2. exists s'. exact Hp.
Qed.

Lemma apart_siblings (p : FS.path) (x y : string) :
  x <> y -> FS.apart (p ++ [x]) (p ++ [y]).
Proof.
  intros Hne. split; intros [s Hs]; rewrite <- app_assoc in Hs;
    apply app_inv_head in Hs; inversion Hs; subst; contradiction Hne;
    reflexivity.
Qed.

Section Tree.
Variable C : Type.

(** Putting something at a path changes nothing at the paths apart from
    it. *)
Lemma put_frame (p : FS.path) :
  forall (n n' new : FS.node C) (q : FS.path),
    FS.put n p new = Some n' -> FS.apart p q ->
    FS.lookup n' q = FS.lookup n q.
Proof.
  induction p as [|x rest IH]; intros n n' new q Hput Hap.
  - exfalso. apply (proj1 Hap). apply under_nil.
  - destruct q as [|y q'].
    { exfalso. apply (proj2 Hap). apply under_nil. }
    simpl in Hput. destruct n as [c|es]; [discriminate Hput|].
    destruct rest as [|z rest'].
    + inversion Hput; subst. simpl.
      destruct (String.eqb_spec x y) as [->|Hne].
      * exfalso. apply (proj1 Hap). exists q'. reflexivity.
      * rewrite (assoc_set_entry_other _ _ Hne). reflexivity.
    + destruct (FS.assoc x es) as [child|] eqn:Ea; [|discriminate Hput].
      destruct (FS.put child (z :: rest') new) as [child'|] eqn:Ep;
        [|discriminate Hput].
      inversion Hput; subst.
      change (FS.lookup (FS.Dir (FS.set_entry x child' es)) (y :: q'))
        with (match FS.assoc y (FS.set_entry x child' es) with
              | Some m => FS.lookup m q'
              | None => None
              end).
      change (FS.lookup (FS.Dir es) (y :: q'))
        with (match FS.assoc y es with
              | Some m => FS.lookup m q'
              | None => None
              end).
      destruct (String.eqb_spec x y) as [->|Hne].
      * rewrite FSFacts.assoc_set_entry_same, Ea.
        apply (IH _ _ _ _ Ep). apply (apart_cons Hap).
      * rewrite (assoc_set_entry_other _ _ Hne). reflexivity.
Qed.

(** Removing what is at a path changes nothing at the paths apart from
    it. *)
Lemma remove_frame (p : FS.path) :
  forall (n : FS.node C) (q : FS.path),
    FS.apart p q -> FS.lookup (FS.remove n p) q = FS.lookup n q.
Proof.
  induction p as [|x rest IH]; intros n q Hap.
  - reflexivity.
  - destruct q as [|y q'].
    { exfalso. apply (proj2 Hap). apply under_nil. }
    simpl. destruct n as [c|es]; [reflexivity|].
    destruct rest as [|z rest'].
    + simpl. destruct (String.eqb_spec x y) as [->|Hne].
      * exfalso. apply (proj1 Hap). exists q'. reflexivity.
      * rewrite (assoc_remove_entry_other _ Hne). reflexivity.
    + destruct (FS.assoc x es) as [child|] eqn:Ea; [|reflexivity].
      change (FS.lookup (FS.Dir (FS.set_entry x
                                   (FS.remove child (z :: rest')) es))
                (y :: q'))
        with (match FS.assoc y (FS.set_entry x
                                  (FS.remove child (z :: rest')) es) with
              | Some m => FS.lookup m q'
              | None => None
              end).
      change (FS.lookup (FS.Dir es) (y :: q'))
        with (match FS.assoc y es with
              | Some m => FS.lookup m q'
              | None => None
              end).
      destruct (String.eqb_spec x y) as [->|Hne].
      * rewrite FSFacts.assoc_set_entry_same, Ea.
        apply IH. apply (apart_cons Hap).
      * rewrite (assoc_set_entry_other _ _ Hne). reflexivity.
Qed.

(** What is found below a path is an entry of the directory there. *)
Lemma lookup_child (n c : FS.node C) (p : FS.path) (x : string) :
  FS.lookup n (p ++ [x]) = Some c ->
  exists es, FS.lookup n p = Some (FS.Dir es) /\ FS.assoc x es = Some c.
Proof.
  rewrite FSFacts.lookup_app.
  destruct (FS.lookup n p) as [[t|es]|]; simpl; try discriminate.
  destruct (FS.assoc x es) as [m|] eqn:Ea; [|discriminate].
  intros E. inversion E; subst. exists es. split; [reflexivity|exact Ea].
Qed.

End Tree.

End FSFrameFacts.

(** ** The fan-out executor *)

Module MacroPipelineFacts.
Import MacroPipeline.

Lemma submit_all_running (c : Client) (ts : list Pipeline.t) :
  status c = running ->
  submit_all c ts =
  Ok (map (fun task => MkFuture (_run_task (Pipeline.run task))) ts).
Proof.
  intros Hc. induction ts as [|task rest IH]; simpl.
  - reflexivity.
  - unfold submit at 1. rewrite Hc, IH. reflexivity.
Qed.

Lemma run_running (self : t) (c : Client) :
  client self = Some c -> status c = running ->
  run self =
  (Ok (map entry_of (tasks self)),
   {| tasks := tasks self; client := Some (shutdown c) |}).
Proof.
  intros Hself Hc. unfold run. rewrite Hself, (submit_all_running c (tasks self) Hc).
  unfold gather. rewrite map_map. reflexivity.
Qed.

(** The entries come in the order in which the tasks were added. *)
Lemma run_after_add_task (self : t) (c : Client) (task : Pipeline.t) :
  client self = Some c -> status c = running ->
  fst (run (add_task self task)) =
  Ok (map entry_of (tasks self) ++ [entry_of task]).
Proof.
  intros Hself Hc.
  rewrite (@run_running (add_task self task) c Hself Hc).
  simpl. rewrite map_app. reflexivity.
Qed.

(** C1, as the code has it.  On an executor whose client was set up and is
    still running, [run] does not raise and returns exactly one entry per
    task, in the order of [tasks]; the entry of a task that raised is the
    pair (exception class, exception value), and the entry of a task that
    returned is the pair (None, None), whatever the task returned. *)
Theorem run_returns_one_entry_per_task (self : t) (c : Client) :
  client self = Some c -> status c = running ->
  exists results self',
    run self = (Ok results, self') /\
    List.length results = List.length (tasks self) /\
    forall i task, nth_error (tasks self) i = Some task ->
      (forall e, Pipeline.run task tt = Raise e ->
         nth_error results i = Some (PyTuple [PyType (exc_class e); PyExc e])) /\
      (forall v, Pipeline.run task tt = Ok v ->
         nth_error results i = Some (PyTuple [PyNone; PyNone])).
Proof.
  intros Hself Hc.
  exists (map entry_of (tasks self)).
  exists {| tasks := tasks self; client := Some (shutdown c) |}.
  split; [apply run_running; assumption|].
  split; [apply length_map|].
  intros i task Hi.
  assert (Hn : nth_error (map entry_of (tasks self)) i = Some (entry_of task)).
  { apply map_nth_error. exact Hi. }
  split; intros x Hx; rewrite Hn; unfold entry_of, _run_task; rewrite Hx; reflexivity.
Qed.

Lemma run_returns_one_entry_per_task_witness :
  exists results self',
    run batch_of_three = (Ok results, self') /\
    List.length results = 3%nat /\
    forall i task, nth_error (tasks batch_of_three) i = Some task ->
      (forall e, Pipeline.run task tt = Raise e ->
         nth_error results i = Some (PyTuple [PyType (exc_class e); PyExc e])) /\
      (forall v, Pipeline.run task tt = Ok v ->
         nth_error results i = Some (PyTuple [PyNone; PyNone])).
Proof.
  exact (@run_returns_one_entry_per_task batch_of_three local_client
           eq_refl eq_refl).
Defined.

(** C1 as stated fails: a task that returns 7 on a running local client has
    the entry (None, None), not its return value. *)
Lemma run_drops_the_return_value :
  Pipeline.run task_returns_7 tt = Ok (PyInt 7) /\
  fst (run batch_of_one) = Ok [PyTuple [PyNone; PyNone]] /\
  PyTuple [PyNone; PyNone] <> PyInt 7.
Proof.
  split; [reflexivity|]. split; [reflexivity|]. discriminate.
Qed.

(** Without [setup_client] there is no [client] attribute and [run] raises. *)
Lemma run_without_client (ts : list Pipeline.t) :
  fst (run {| tasks := ts; client := None |}) =
  Raise (Exc AttributeError "'MacroPipeline' object has no attribute 'client'").
Proof. reflexivity. Qed.

(** C8.  Mode 'slurm' raises NotImplementedError at once: nothing but the
    message is printed, no cluster and no client is built, the executor is
    left as it was; and a mode other than 'local', 'ssh' and 'slurm' raises
    RuntimeError in the same way. *)
Theorem setup_client_rejects_slurm_and_unknown
    (self : t) (mode : string) (options : kwargs) :
  (mode = "slurm" ->
   setup_client self mode options =
   (Raise (Exc NotImplementedError ""),
    [EvPrint "Slurm cluster is not implemented in this version!"])) /\
  (mode <> "local" -> mode <> "ssh" -> mode <> "slurm" ->
   setup_client self mode options =
   (Raise (Exc RuntimeError ""),
    [EvPrint ("Unknown mode of setup client " ++ mode ++ "!")%string])).
Proof.
  split.
  - intros ->. reflexivity.
  - intros H1 H2 H3. unfold setup_client.
    apply String.eqb_neq in H1, H2, H3. rewrite H1, H2, H3. reflexivity.
Qed.

Lemma setup_client_rejects_slurm_and_unknown_witness :
  setup_client init "slurm" [("hosts", PyStr "node1")] =
  (Raise (Exc NotImplementedError ""),
   [EvPrint "Slurm cluster is not implemented in this version!"]) /\
  setup_client init "pbs" [] =
  (Raise (Exc RuntimeError ""),
   [EvPrint "Unknown mode of setup client pbs!"]).
Proof.
  split.
  - exact (proj1 (@setup_client_rejects_slurm_and_unknown
                    init "slurm" [("hosts", PyStr "node1")]) eq_refl).
  - refine (proj2 (@setup_client_rejects_slurm_and_unknown init "pbs" [])
              _ _ _); discriminate.
Defined.

End MacroPipelineFacts.

(** ** The fan-out executor, continued *)

Module MacroTasksFacts.
Import MacroPipeline MacroTasks.

Lemma assert_pipelines_ok (items : list candidate) (ts : list Pipeline.t) :
  assert_pipelines items = inr ts <-> items = map IsPipeline ts.
Proof.
  revert ts. induction items as [|[task|repr] rest IH]; intros ts; simpl.
  - split; intros E.
    + inversion E. reflexivity.
    + destruct ts; [reflexivity|discriminate E].
  - destruct (assert_pipelines rest) as [f|ts'] eqn:Er.
    + split; intros E; [discriminate E|].
      destruct ts as [|t0 ts0]; [discriminate E|].
      inversion E; subst.
      assert (Hr : (inl f : failure + list Pipeline.t) = inr ts0)
        by (apply IH; reflexivity).
      discriminate Hr.
    + split; intros E.
      * inversion E; subst. simpl. f_equal. apply IH. reflexivity.
      * destruct ts as [|t0 ts0]; [discriminate E|].
        inversion E; subst.
        assert (Hr : (inr ts' : failure + list Pipeline.t) = inr ts0)
          by (apply IH; reflexivity).
        inversion Hr. reflexivity.
  - split; intros E; [discriminate E|].
    destruct ts; discriminate E.
Qed.

(** X16 ([tasks] setter): a list is accepted exactly when every element is
    a [Pipeline]; the executor then holds these pipelines, in the order of
    the list, and its client is untouched. *)
Theorem tasks_setter_accepts_exactly_pipelines
    (self self' : t) (items : list candidate) :
  set_tasks self (Reiterable items) = inr self' <->
  items = map IsPipeline (tasks self') /\ client self' = client self.
Proof.
  unfold set_tasks. split.
  - destruct (assert_pipelines items) as [f|ts] eqn:Ea; intros E;
      [discriminate E|].
    inversion E; subst. simpl.
    split; [apply assert_pipelines_ok; exact Ea|reflexivity].
  - intros [Hitems Hclient].
    apply assert_pipelines_ok in Hitems. rewrite Hitems, <- Hclient.
    destruct self'. reflexivity.
Qed.


Lemma add_tasks_spec (new : list Pipeline.t) (self : t) :
  tasks (add_tasks self new) = tasks self ++ new /\
  client (add_tasks self new) = client self.
Proof.
  unfold add_tasks. revert self.
  induction new as [|task rest IH]; intros self; simpl.
  - rewrite app_nil_r. split; reflexivity.
  - destruct (IH (add_task self task)) as [Ht Hc]. rewrite Ht, Hc. simpl.
    rewrite <- app_assoc. split; reflexivity.
Qed.

(** X18 ([add_task], [setup_client], [run]): tasks added by chained
    [add_task] calls, before and after a [setup_client] that succeeded, are
    all run: [run] returns one entry per task, first those the executor
    held, then the added ones in the order of the calls. *)
Theorem run_returns_entries_in_order_of_addition
    (self configured : t) (mode : string) (options : kwargs)
    (before after : list Pipeline.t)
    (Hsetup : fst (setup_client (add_tasks self before) mode options)
              = Ok configured) :
  fst (run (add_tasks configured after)) =
  Ok (map entry_of (tasks self ++ before ++ after)).
Proof.
  destruct (add_tasks_spec before self) as [Ht Hc].
  destruct (add_tasks_spec after configured) as [Ht' Hc'].
  assert (Hconf : tasks configured = tasks self ++ before /\
                  exists c, client configured = Some c /\ status c = running).
  { unfold setup_client in Hsetup.
    destruct (String.eqb mode "local");
      [|destruct (String.eqb mode "ssh");
        [|destruct (String.eqb mode "slurm")]];
      simpl in Hsetup; try discriminate Hsetup;
      inversion Hsetup; subst; simpl; (split; [exact Ht|]);
      eexists; split; reflexivity. }
  destruct Hconf as [Htc (c & Hcl & Hrun)].
  rewrite Hcl in Hc'.
  rewrite (@MacroPipelineFacts.run_running (add_tasks configured after) c
             Hc' Hrun).
  simpl. rewrite Ht', Htc, <- app_assoc. reflexivity.
Qed.


Lemma run_returns_entries_in_order_of_addition_witness :
  fst (run (add_tasks
              {| tasks := [task_returns_self; task_fails];
                 client := Some (MkClient LocalCluster running) |}
              [task_returns_7])) =
  Ok (map entry_of (tasks init ++ [task_returns_self; task_fails]
                      ++ [task_returns_7])).
Proof.
  apply (@run_returns_entries_in_order_of_addition init
           {| tasks := [task_returns_self; task_fails];
              client := Some (MkClient LocalCluster running) |}
           "local" [] [task_returns_self; task_fails] [task_returns_7]).
  reflexivity.
Defined.

End MacroTasksFacts.

(** ** The retiler *)

Module RetilerFacts.
Import Retiler.

Local Open Scope monad_scope.

(** *** Globbing with a pattern that has no wildcard of its own *)

Lemma matches_any_text (s : string) : matches [AnyText] s = true.
Proof. induction s as [|c s IH]; simpl; [reflexivity|exact IH]. Qed.

Lemma translate_plain (lit : string) :
  no_glob_chars lit = true ->
  forall fuel name,
    (String.length lit < fuel)%nat ->
    matches (translate fuel (lit ++ "*")) name = startswith name lit.
Proof.
  unfold startswith.
  induction lit as [|c lit IH]; intros Hplain fuel name Hfuel.
  - destruct fuel as [|fuel]; [inversion Hfuel|]. simpl.
    assert (Hnil : translate fuel "" = []) by (destruct fuel; reflexivity).
    rewrite Hnil, matches_any_text. destruct name; reflexivity.
  - destruct fuel as [|fuel]; [inversion Hfuel|].
    simpl in Hplain.
    apply andb_prop in Hplain. destruct Hplain as [Hc Hrest].
    apply andb_prop in Hc. destruct Hc as [Hc Hbr].
    apply andb_prop in Hc. destruct Hc as [Hst Hqu].
    apply negb_true_iff in Hst, Hqu, Hbr.
    simpl. rewrite Hst, Hqu, Hbr.
    destruct name as [|c' name]; [reflexivity|].
    simpl. rewrite IH; [|exact Hrest|simpl in Hfuel; lia].
    destruct (ascii_dec c c') as [->|Hne].
    + rewrite Ascii.eqb_refl. reflexivity.
    + apply Ascii.eqb_neq in Hne. rewrite Hne. reflexivity.
Qed.

(** For a text without wildcards, [<text>*] matches the names that start
    with the text. *)
Lemma fnmatch_plain (lit name : string) :
  no_glob_chars lit = true ->
  fnmatch name (lit ++ "*") = startswith name lit.
Proof.
  intros Hplain. unfold fnmatch. apply translate_plain; [exact Hplain|].
  induction lit as [|c lit IH]; simpl; [lia|].
  simpl in Hplain. apply andb_prop in Hplain. destruct Hplain as [_ Hrest].
  specialize (IH Hrest). lia.
Qed.

Lemma plain_has_no_double_star (lit : string) :
  no_glob_chars lit = true ->
  has_double_star (lit ++ "*") = false /\
  String.eqb (lit ++ "*") "**" = false.
Proof.
  induction lit as [|c lit IH]; intros Hplain; [split; reflexivity|].
  simpl in Hplain.
  apply andb_prop in Hplain. destruct Hplain as [Hc Hrest].
  apply andb_prop in Hc. destruct Hc as [Hc _].
  apply andb_prop in Hc. destruct Hc as [Hst _].
  apply negb_true_iff in Hst.
  destruct (IH Hrest) as [Hds _]. split.
  - simpl. destruct lit as [|c' lit]; simpl in *; rewrite Hst; simpl;
      [reflexivity|exact Hds].
  - simpl. rewrite Hst. reflexivity.
Qed.

(** For a stem without wildcards the glob of [validate] is a prefix
    filter. *)
Lemma glob_paths_plain (dir : path) (pre : string) (fs : disk) :
  no_glob_chars pre = true ->
  glob_paths dir pre fs =
  match FS.lookup fs dir with
  | Some (FS.Dir es) =>
      flat_map
        (fun e =>
           match snd e with
           | FS.Dir inner =>
               if startswith (fst e) "tile_" then
                 map (fun f => joinpath (joinpath dir (fst e)) (fst f))
                   (filter (fun f => startswith (fst f) pre) inner)
               else []
           | FS.File _ => []
           end) es
  | _ => []
  end.
Proof.
  intros Hplain. unfold glob_paths.
  destruct (@plain_has_no_double_star pre Hplain) as [_ Hne].
  rewrite Hne.
  destruct (FS.lookup fs dir) as [[c|es]|]; try reflexivity.
  apply flat_map_ext. intros [d node]. simpl.
  destruct node as [c|inner]; [reflexivity|].
  change "tile_*" with ("tile_" ++ "*")%string.
  rewrite (@fnmatch_plain "tile_" d eq_refl).
  destruct (startswith d "tile_"); [|reflexivity].
  f_equal. apply filter_ext. intros f. apply fnmatch_plain. exact Hplain.
Qed.

(** *** Validation *)

Lemma fold_each_app {A B} (body : B -> A -> Ret B) (xs ys : list A) (acc : B)
    (fs : disk) :
  fold_each (xs ++ ys) acc body fs =
  bind (fold_each xs acc body) (fun acc' => fold_each ys acc' body) fs.
Proof.
  revert acc fs. induction xs as [|x rest IH]; intros acc fs; simpl.
  - unfold bind, ret. destruct (fold_each ys acc body fs) as [[r s] log].
    reflexivity.
  - unfold bind.
    destruct (body acc x fs) as [[[acc1|e] fs1] log1]; [|reflexivity].
    rewrite IH. unfold bind.
    destruct (fold_each rest acc1 body fs1) as [[[acc2|e] fs2] log2];
      [|reflexivity].
    destruct (fold_each ys acc2 body fs2) as [[r fs3] log3].
    rewrite app_assoc. reflexivity.
Qed.

(** Two quiet folds in a row are a quiet fold. *)
Lemma fold_each_app_quiet {A B} (body : B -> A -> Ret B) (xs ys : list A)
    (acc acc1 acc2 : B) (fs : disk) :
  fold_each xs acc body fs = (Ok acc1, fs, []) ->
  fold_each ys acc1 body fs = (Ok acc2, fs, []) ->
  fold_each (xs ++ ys) acc body fs = (Ok acc2, fs, []).
Proof.
  intros E1 E2. rewrite fold_each_app. unfold bind. rewrite E1, E2.
  reflexivity.
Qed.

Lemma total_app (xs ys : list (string * content)) :
  total (xs ++ ys) = (total xs + total ys)%Z.
Proof.
  unfold total. induction xs as [|x rest IH]; simpl; [reflexivity|].
  rewrite IH. lia.
Qed.

(** Counting the matching entries of one tile directory. *)
Lemma count_directory (fs : disk) (dir : path) (d pre : string)
    (inner : list (string * disk)) :
  FS.lookup fs (joinpath dir d) = Some (FS.Dir inner) ->
  NoDup (map fst inner) ->
  forall part,
    incl part inner ->
    (forall c, In (d, c) (split_files_in pre d part) -> is_las c = true) ->
    forall acc,
      fold_each
        (map (fun f => joinpath (joinpath dir d) (fst f))
           (filter (fun f => startswith (fst f) pre) part))
        acc count_tile fs =
      (Ok ((fst acc + total (split_files_in pre d part))%Z,
           snd acc ++ map fst (split_files_in pre d part)), fs, []).
Proof.
  intros Hdir Hnd part.
  induction part as [|[fname node] rest IH]; intros Hincl Hlas acc.
  - simpl. unfold ret, total. simpl.
    rewrite Z.add_0_r, app_nil_r. destruct acc; reflexivity.
  - assert (Hin : In (fname, node) inner) by (apply Hincl; left; reflexivity).
    assert (Hrest : incl rest inner).
    { intros x Hx. apply Hincl. right. exact Hx. }
    assert (Hlook : FS.lookup fs (joinpath (joinpath dir d) fname) = Some node).
    { unfold joinpath in *. rewrite FSFacts.lookup_app, Hdir. simpl.
      rewrite (FSFacts.assoc_In fname node inner Hnd Hin). reflexivity. }
    unfold split_files_in in *. simpl in *.
    destruct (startswith fname pre) eqn:Epre.
    + simpl. unfold bind at 1. unfold count_tile at 1.
      unfold bind at 1. unfold FS.is_file. rewrite Hlook.
      destruct node as [c|sub].
      * assert (Hc : is_las c = true).
        { apply Hlas. simpl. left. reflexivity. }
        destruct c as [h| |]; try discriminate Hc.
        unfold _get_details_pc_file, bind, ret. rewrite Hlook. simpl.
        rewrite IH; [|exact Hrest|].
        -- simpl. unfold total. simpl.
           unfold joinpath.
           rewrite FSFacts.parent_joinpath.
           unfold name. rewrite FSFacts.name_joinpath.
           rewrite Z.add_assoc, <- app_assoc. reflexivity.
        -- intros c Hc'. apply Hlas. simpl. right. exact Hc'.
      * unfold ret. simpl. rewrite IH; [reflexivity|exact Hrest|exact Hlas].
    + destruct node as [c|sub]; simpl;
        apply IH; [exact Hrest|exact Hlas|exact Hrest|exact Hlas].
Qed.

(** Counting the matching entries of all tile directories. *)
Lemma count_directories (fs : disk) (dir : path) (pre : string)
    (es : list (string * disk)) :
  FS.lookup fs dir = Some (FS.Dir es) ->
  NoDup (map fst es) ->
  (forall d inner, In (d, FS.Dir inner) es -> NoDup (map fst inner)) ->
  forall part,
    incl part es ->
    let files :=
      flat_map (fun e => match snd e with
                         | FS.Dir inner =>
                             if startswith (fst e) "tile_"
                             then split_files_in pre (fst e) inner else []
                         | FS.File _ => []
                         end) part in
    (forall d c, In (d, c) files -> is_las c = true) ->
    forall acc,
      fold_each
        (flat_map
           (fun e =>
              match snd e with
              | FS.Dir inner =>
                  if startswith (fst e) "tile_" then
                    map (fun f => joinpath (joinpath dir (fst e)) (fst f))
                      (filter (fun f => startswith (fst f) pre) inner)
                  else []
              | FS.File _ => []
              end) part)
        acc count_tile fs =
      (Ok ((fst acc + total files)%Z, snd acc ++ map fst files), fs, []).
Proof.
  intros Hdir Hnd Hinner part.
  induction part as [|[d node] rest IH]; intros Hincl files Hlas acc.
  - simpl. unfold ret, total. simpl.
    rewrite Z.add_0_r, app_nil_r. destruct acc; reflexivity.
  - assert (Hin : In (d, node) es) by (apply Hincl; left; reflexivity).
    assert (Hrest : incl rest es).
    { intros x Hx. apply Hincl. right. exact Hx. }
    subst files. simpl in *.
    assert (IH' := fun H => IH Hrest H).
    destruct node as [c|inner].
    + simpl in *. apply IH'. exact Hlas.
    + destruct (startswith d "tile_") eqn:Et.
      * assert (Hlook : FS.lookup fs (joinpath dir d) = Some (FS.Dir inner)).
        { unfold joinpath. rewrite FSFacts.lookup_app, Hdir. simpl.
          rewrite (FSFacts.assoc_In d (FS.Dir inner) es Hnd Hin). reflexivity. }
        eapply fold_each_app_quiet.
        -- apply (count_directory fs dir d pre Hlook (Hinner _ _ Hin)
                    (incl_refl inner)).
           intros c Hc. apply (Hlas d c). apply in_or_app. left. exact Hc.
        -- rewrite IH'.
           ++ simpl. rewrite total_app, map_app, Z.add_assoc, <- app_assoc.
              reflexivity.
           ++ intros d' c Hc. apply (Hlas d' c). apply in_or_app. right.
              exact Hc.
      * simpl in *. apply IH'. exact Hlas.
Qed.

(** X25 ([validate]).  On a disk where the input file is a readable LAS
    file, with a stem that holds none of [*], [?] and [[], and every
    file of the split is one too, [validate] builds its record without
    raising, whether the counts agree or not: [validated] is True exactly
    when the point counts of the files whose name starts with the stem of
    the input file, in the [tile_*] directories of the output folder, add up
    to the point count of the input file; without [write_record_to_file]
    nothing else happens, and with it the record is what is written into
    the output folder. *)
Theorem validate_compares_point_counts
    (self : t) (fs : disk) (h : las_header) :
  FS.lookup fs (input_file self) = Some (FS.File (Las h)) ->
  no_glob_chars (stem (input_file self)) = true ->
  tidy self fs ->
  (forall d c, In (d, c) (split_files self fs) -> is_las c = true) ->
  exists record,
    validate_record self fs = (Ok record, fs, []) /\
    (validated record = true <-> split_points self fs = point_count h) /\
    redistributed_to record = map fst (split_files self fs) /\
    file record = as_posix (input_file self) /\
    validate self false fs = (Ok tt, fs, []) /\
    (FS.is_dir fs (output_folder self) = true ->
     FS.is_dir fs (record_path (stem (input_file self)) (output_folder self))
     = false ->
     exists fs',
       validate self true fs =
       (Ok tt, fs',
        [EvWrite (record_path (stem (input_file self)) (output_folder self))
           record]) /\
       FS.lookup fs' (record_path (stem (input_file self)) (output_folder self))
       = Some (FS.File (Json record))).
Proof.
  intros Hinput Hplain Htidy Hlas.
  assert (Hcount :
            fold_each (glob_paths (output_folder self)
                         (stem (input_file self)) fs)
              (0%Z, []) count_tile fs =
            (Ok (split_points self fs, map fst (split_files self fs)), fs, [])).
  { rewrite (@glob_paths_plain _ _ fs Hplain).
    unfold split_points, split_files, tidy in *.
    destruct (FS.lookup fs (output_folder self)) as [[c|es]|] eqn:Eout;
      try reflexivity.
    destruct Htidy as (Hnd & Hinner).
    apply (count_directories fs (output_folder self) (stem (input_file self))
             Eout Hnd Hinner (incl_refl es) Hlas (0%Z, [])). }
  set (record := {| file := as_posix (input_file self);
                    redistributed_to := map fst (split_files self fs);
                    validated := (point_count h =? split_points self fs)%Z |}).
  assert (Hrec : validate_record self fs = (Ok record, fs, [])).
  { unfold validate_record, bind, check_file_exists, _get_details_pc_file,
      FS.is_file, glob_tiles.
    rewrite (proj1 (@plain_has_no_double_star _ Hplain)).
    rewrite andb_false_l.
    do 4 (cbv beta iota; rewrite ?Hinput, ?Hcount).
    reflexivity. }
  exists record. split; [exact Hrec|].
  split.
  { simpl. rewrite Z.eqb_eq. split; intros E; symmetry; exact E. }
  split; [reflexivity|]. split; [reflexivity|].
  split.
  - unfold validate, bind. rewrite Hrec. reflexivity.
  - intros Hout Hfree.
    destruct (FSFacts.put_in_dir fs (FS.File (Json record))
                (output_folder self)
                (splitext_root (stem (input_file self)) ++ "_retile_record.js")
                Hout) as [fs' Hput].
    exists fs'. split.
    + unfold validate, bind. rewrite Hrec.
      unfold _write_record. rewrite Hfree, Hout. simpl negb. cbv iota.
      unfold record_path, joinpath in *. rewrite Hput. reflexivity.
    + eapply FSFacts.lookup_put. exact Hput.
Qed.

(** *** Redistribution *)

Section Redistribution.
Variable pdal_execute : pdal_pipeline -> disk -> result disk.

Lemma details_log (p : path) (fs s : disk) (log : list event)
    (r : result (option (Z * (Q * Q * Q) * (Q * Q * Q) * (Q * Q * Q)
                         * (Q * Q * Q)))) :
  _get_details_pc_file p fs = (r, s, log) ->
  forall src dst, ~ In (EvRename src dst) log.
Proof.
  unfold _get_details_pc_file.
  destruct (FS.lookup fs p) as [[[h| |]|]|]; intros E; inversion E; subst;
    intros src dst Hin; simpl in Hin;
    repeat (destruct Hin as [Hin|Hin]; [discriminate Hin|]); exact Hin.
Qed.

Lemma check_dir_log (p : path) (fs s : disk) (log : list event)
    (r : result unit) :
  check_dir_exists p fs = (r, s, log) ->
  forall src dst, ~ In (EvRename src dst) log.
Proof.
  unfold check_dir_exists.
  destruct (FS.is_dir fs p); [|destruct (FS.exists_ fs p);
                               [|destruct (FS.put fs p (FS.Dir []))]];
    intros E; inversion E; subst; intros src dst Hin; simpl in Hin;
    repeat (destruct Hin as [Hin|Hin]; [discriminate Hin|]); exact Hin.
Qed.

Lemma rename_log (src dst : path) (fs s : disk) (log : list event)
    (r : result unit) :
  rename src dst fs = (r, s, log) -> log = [EvRename src dst].
Proof.
  unfold rename.
  destruct (FS.lookup fs src); [destruct (FS.is_dir fs dst);
                                [|destruct (FS.put _ dst _)]|];
    intros E; inversion E; reflexivity.
Qed.

(** One turn of the loop moves the tile it was given, and nothing else,
    into a cell directory of the output folder, under its own name. *)
Lemma redistribute_moves_its_tile (self : t) (g : Grid.t) (tile : path)
    (fs fs' : disk) (res : result unit) (log : list event) :
  redistribute self g tile fs = (res, fs', log) ->
  forall src dst,
    In (EvRename src dst) log ->
    src = tile /\
    exists i j,
      dst = joinpath (joinpath (output_folder self) (_get_tile_name (i, j)))
              (name tile).
Proof.
  unfold redistribute. intros E src dst Hin.
  apply MonadFacts.bind_inv in E.
  destruct E as [(details & s1 & log1 & log2 & E1 & E2 & ->) | (e & E1 & ->)].
  2:{ exfalso. exact (details_log _ _ E1 _ _ Hin). }
  apply in_app_or in Hin. destruct Hin as [Hin|Hin].
  { exfalso. exact (details_log _ _ E1 _ _ Hin). }
  destruct details as [[[[[n mn] mx] sc] off]|].
  2:{ inversion E2; subst. destruct Hin. }
  destruct (Grid.get_tile_index g _ _) as [i j] eqn:Ei.
  apply MonadFacts.bind_inv in E2.
  destruct E2 as [([] & s2 & log3 & log4 & E3 & E4 & ->) | (e & E3 & ->)].
  2:{ exfalso. exact (check_dir_log _ _ E3 _ _ Hin). }
  apply in_app_or in Hin. destruct Hin as [Hin|Hin].
  { exfalso. exact (check_dir_log _ _ E3 _ _ Hin). }
  apply rename_log in E4. subst log4.
  destruct Hin as [Hin|[]]. inversion Hin; subst.
  split; [reflexivity|]. exists i, j. reflexivity.
Qed.

Lemma redistribute_loop (self : t) (g : Grid.t) (tiles : list path)
    (fs fs' : disk) (res : result unit) (log : list event) :
  Loop.run (redistribute self g) tiles fs res fs' log ->
  forall src dst,
    In (EvRename src dst) log ->
    In src tiles /\
    exists i j,
      dst = joinpath (joinpath (output_folder self) (_get_tile_name (i, j)))
              (name src).
Proof.
  induction 1 as [s|x rest s e s' log Hb
                  |x rest s s1 log1 res s2 log2 Hb Hrest IH];
    intros src dst Hin.
  - destruct Hin.
  - destruct (redistribute_moves_its_tile _ _ _ _ Hb _ _ Hin) as (-> & Hd).
    split; [left; reflexivity|exact Hd].
  - apply in_app_or in Hin. destruct Hin as [Hin|Hin].
    + destruct (redistribute_moves_its_tile _ _ _ _ Hb _ _ Hin) as (-> & Hd).
      split; [left; reflexivity|exact Hd].
    + destruct (IH _ _ Hin) as (Hs & Hd). split; [right; exact Hs|exact Hd].
Qed.

(** C9.  Whatever the splitter leaves on the disk, every file that
    [split_and_redistribute] moves is an entry of the output folder that,
    after the split, is a file whose suffix equals that of the input file up
    to case, whose stem starts with the stem of the input file and whose name
    differs from the name of the input file; it is moved into a directory
    [tile_i_j] of the output folder under its own name.  So the input file
    itself is never moved, wherever it lies. *)
Theorem only_tiles_are_moved
    (self : t) (fs fs' : disk) (res : result unit) (log : list event)
    (src dst : path) :
  split_and_redistribute pdal_execute self fs = (res, fs', log) ->
  In (EvRename src dst) log ->
  (exists entry, src = joinpath (output_folder self) entry) /\
  (exists pipeline fs1,
      pdal_execute pipeline fs = Ok fs1 /\ FS.is_file fs1 src = true) /\
  lower (suffix src) = lower (suffix (input_file self)) /\
  startswith (stem src) (stem (input_file self)) = true /\
  name src <> name (input_file self) /\
  src <> input_file self /\
  (exists i j,
      dst = joinpath (joinpath (output_folder self) (_get_tile_name (i, j)))
              (name src)).
Proof.
  unfold split_and_redistribute. intros E Hin.
  apply MonadFacts.bind_inv in E.
  destruct E as [([] & s1 & log1 & log2 & E1 & E2 & ->) | (e & E1 & ->)];
    unfold check_file_exists in E1;
    destruct (FS.is_file fs (input_file self)); inversion E1; subst;
    try (destruct Hin; fail).
  simpl in Hin.
  destruct (grid self) as [g|].
  2:{ inversion E2; subst. destruct Hin. }
  apply MonadFacts.bind_inv in E2.
  destruct E2 as [([] & s2 & log3 & log4 & E3 & E4 & ->) | (e & E3 & ->)];
    unfold _run_PDAL_splitter in E3;
    match type of E3 with
    | context [pdal_execute ?p s1] =>
        set (pipeline := p) in *;
        destruct (pdal_execute pipeline s1) as [fs1|e1] eqn:Ex
    end;
    inversion E3; subst; clear E3.
  2:{ destruct Hin as [Hin|[]]. discriminate Hin. }
  destruct Hin as [Hin|Hin]; [discriminate Hin|].
  apply MonadFacts.bind_inv in E4.
  destruct E4 as [(entries & s3 & log5 & log6 & E5 & E6 & ->) | (e & E5 & ->)];
    unfold iterdir in E5;
    destruct (FS.lookup s2 (output_folder self)) as [[c|es]|];
    inversion E5; subst; clear E5; try (destruct Hin; fail).
  simpl in Hin.
  apply MonadFacts.bind_inv in E6.
  destruct E6 as [(tiles & s4 & log7 & log8 & E7 & E8 & ->) | (e & E7 & _)];
    inversion E7; subst; clear E7.
  simpl in Hin.
  apply MonadFacts.for_each_run in E8.
  destruct (redistribute_loop E8 _ _ Hin) as (Hsrc & Hdst).
  apply filter_In in Hsrc. destruct Hsrc as (Hentry & Htile).
  apply in_map_iff in Hentry. destruct Hentry as ([entry node] & <- & _).
  unfold is_tile_of in Htile.
  repeat (apply andb_prop in Htile; destruct Htile as [Htile ?]).
  match goal with
  | Hn : negb _ = true |- _ =>
      apply negb_true_iff in Hn; apply String.eqb_neq in Hn; rename Hn into Hname
  end.
  match goal with
  | Hs : String.eqb (lower _) _ = true |- _ =>
      apply String.eqb_eq in Hs; rename Hs into Hsuffix
  end.
  simpl fst in *.
  split; [exists entry; reflexivity|].
  split; [exists pipeline, s4; split; [exact Ex|exact Htile]|].
  split; [exact Hsuffix|]. split; [assumption|].
  split; [exact Hname|]. split; [|exact Hdst].
  intros Heq. apply Hname. rewrite Heq. reflexivity.
Qed.

End Redistribution.

(** *** On the small job *)

Lemma job_is_tidy (fs : disk) :
  fs = disk_after_split \/ fs = disk_after_lossy_split -> tidy job fs.
Proof.
  intros [-> | ->]; unfold tidy; simpl; (split;
    [ repeat constructor; simpl; intuition discriminate
    | intros d inner Hin;
      repeat (destruct Hin as [Hin|Hin];
              [inversion Hin; subst; repeat constructor; simpl;
               intuition discriminate|]);
      destruct Hin ]).
Qed.

Lemma job_files_are_las (fs : disk) :
  fs = disk_after_split \/ fs = disk_after_lossy_split ->
  forall d c, In (d, c) (split_files job fs) -> is_las c = true.
Proof.
  intros [-> | ->] d c Hin; simpl in Hin;
    repeat (destruct Hin as [Hin|Hin]; [inversion Hin; reflexivity|]);
    destruct Hin.
Qed.

(** After a split that lost a point, the validation completes and reports
    the mismatch in the record. *)
Lemma validate_compares_point_counts_witness :
  exists record,
    validate_record job disk_after_lossy_split =
    (Ok record, disk_after_lossy_split, []) /\
    validated record = false /\
    split_points job disk_after_lossy_split = 6%Z /\
    exists fs',
      validate job true disk_after_lossy_split =
      (Ok tt, fs', [EvWrite ["out"; "a_retile_record.js"] record]).
Proof.
  destruct (@validate_compares_point_counts job disk_after_lossy_split
              (header 7 0 0 100 50) eq_refl eq_refl
              (job_is_tidy (or_intror eq_refl))
              (job_files_are_las (or_intror eq_refl)))
    as (record & Hrec & Hiff & Hto & Hfile & Hquiet & Hwrite).
  exists record. split; [exact Hrec|].
  split.
  { destruct (validated record); [|reflexivity].
    destruct Hiff as [Hiff _]. specialize (Hiff eq_refl).
    vm_compute in Hiff. discriminate Hiff. }
  split; [reflexivity|].
  destruct (Hwrite eq_refl eq_refl) as (fs' & Hv & _).
  exists fs'. exact Hv.
Defined.

(** On a split that kept every point, the record says so. *)
Lemma validate_accepts_a_complete_split :
  validate job true disk_after_split =
  (Ok tt,
   snd (fst (validate job true disk_after_split)),
   [EvWrite ["out"; "a_retile_record.js"]
      {| file := "out/a.las";
         redistributed_to := ["tile_0_0"; "tile_1_0"];
         validated := true |}]).
Proof. reflexivity. Qed.

(** The two tiles are moved; the input file, which lies in the output
    folder, is not. *)
Lemma only_tiles_are_moved_witness :
  lower (suffix ["out"; "a_1.las"]) = lower (suffix (input_file job)) /\
  name ["out"; "a_1.las"] <> name (input_file job) /\
  ["out"; "a_1.las"] <> input_file job.
Proof.
  destruct (@only_tiles_are_moved two_tiles job disk_before
              disk_after_split (Ok tt)
              (snd (split_and_redistribute two_tiles job disk_before))
              ["out"; "a_1.las"] ["out"; "tile_0_0"; "a_1.las"] eq_refl
              (or_intror (or_intror (or_introl eq_refl))))
    as (_ & _ & Hsuffix & _ & Hname & Hne & _).
  split; [exact Hsuffix|]. split; [exact Hname|exact Hne].
Defined.

Lemma input_file_stays_in_place :
  FS.is_file disk_after_split (input_file job) = true /\
  FS.is_file disk_after_split ["out"; "tile_0_0"; "a_1.las"] = true /\
  FS.is_file disk_after_split ["out"; "tile_1_0"; "a_2.las"] = true /\
  FS.exists_ disk_after_split ["out"; "a_1.las"] = false.
Proof. repeat split. Qed.

(** C2.  The input file [out/a[1].las], with 7 points, is split into
    [a[1]_1.las] and [a[1]_2.las], with 3 and 4 points, which
    [split_and_redistribute] moves into [tile_0_0] and [tile_1_0].  The
    files of the split whose name starts with the stem of the input file
    hold 7 points together, yet [validate] records [validated = False] and
    no tile directory: the stem is pasted into the glob pattern, where
    [[1]] stands for the character [1], so the pattern matches names that
    start with [a1] and none that start with [a[1]]. *)
Theorem validate_misses_the_tiles_of_a_bracketed_stem :
  fst (fst (split_and_redistribute two_bracket_tiles bracket_job
              bracket_disk_before)) = Ok tt /\
  split_files bracket_job bracket_disk_after_split =
  [("tile_0_0", Las (header 3 0 0 50 50));
   ("tile_1_0", Las (header 4 50 0 100 50))] /\
  split_points bracket_job bracket_disk_after_split = 7%Z /\
  FS.lookup bracket_disk_after_split (input_file bracket_job)
  = Some (FS.File (Las (header 7 0 0 100 50))) /\
  validate_record bracket_job bracket_disk_after_split =
  (Ok {| file := "out/a[1].las";
         redistributed_to := [];
         validated := false |},
   bracket_disk_after_split, []) /\
  fnmatch "a[1]_1.las" "a[1]*" = false /\
  fnmatch "a1_1.las" "a[1]*" = true.
Proof. vm_compute. repeat split. Qed.

End RetilerFacts.

(** ** The retiler, continued *)

Module RetilerMoreFacts.
Import Retiler.

Local Open Scope monad_scope.


Lemma details_quiet (p : path) (fs s : disk) (log : list event)
    (r : result (option (Z * (Q * Q * Q) * (Q * Q * Q) * (Q * Q * Q)
                         * (Q * Q * Q)))) :
  _get_details_pc_file p fs = (r, s, log) ->
  s = fs /\ RetilerLog.moved log = [].
Proof.
  unfold _get_details_pc_file.
  destruct (FS.lookup fs p) as [[[h| |]|]|]; intros E; inversion E; subst;
    split; reflexivity.
Qed.





Section Splitter.
Variable pdal_execute : pdal_pipeline -> disk -> result disk.


End Splitter.

(** *** Validation and the disk *)

Lemma count_tile_disk (acc : Z * list string) (tile : path) (fs s : disk)
    (r : result (Z * list string)) (log : list event) :
  count_tile acc tile fs = (r, s, log) -> s = fs.
Proof.
  unfold count_tile. intros E.
  apply MonadFacts.bind_inv in E.
  destruct E as [(b & s1 & log1 & log2 & E1 & E2 & ->) | (e & E1 & _)];
    [|discriminate E1].
  inversion E1; subst; clear E1.
  destruct (FS.is_file s1 tile); [|inversion E2; reflexivity].
  apply MonadFacts.bind_inv in E2.
  destruct E2 as [(details & s2 & log3 & log4 & E3 & E4 & ->) | (e & E3 & _)].
  - apply details_quiet in E3. destruct E3 as [-> _].
    destruct details as [[[[[n mn] mx] sc] off]|]; inversion E4; reflexivity.
  - apply details_quiet in E3. destruct E3 as [-> _]. reflexivity.
Qed.

Lemma fold_each_disk {A B} (body : B -> A -> Ret B) (xs : list A) :
  (forall acc x fs s r log, body acc x fs = (r, s, log) -> s = fs) ->
  forall acc fs r s log,
    fold_each xs acc body fs = (r, s, log) -> s = fs.
Proof.
  intros Hbody. induction xs as [|x rest IH]; intros acc fs r s log E;
    simpl in E.
  - inversion E. reflexivity.
  - apply MonadFacts.bind_inv in E.
    destruct E as [(acc' & s1 & log1 & log2 & E1 & E2 & ->) | (e & E1 & _)].
    + apply Hbody in E1. subst s1. exact (IH _ _ _ _ _ E2).
    + exact (Hbody _ _ _ _ _ _ E1).
Qed.

(** Building the record reads the disk and leaves it as it was. *)
Lemma validate_record_disk (self : t) (fs s : disk)
    (r : result retile_record) (log : list event) :
  validate_record self fs = (r, s, log) -> s = fs.
Proof.
  unfold validate_record. intros E.
  apply MonadFacts.bind_inv in E.
  destruct E as [([] & s1 & log1 & log2 & E1 & E2 & ->) | (e & E1 & _)];
    unfold check_file_exists in E1;
    destruct (FS.is_file fs (input_file self)); inversion E1; subst;
    clear E1; try reflexivity.
  apply MonadFacts.bind_inv in E2.
  destruct E2 as [(details & s2 & log3 & log4 & E3 & E4 & ->) | (e & E3 & _)];
    apply details_quiet in E3; destruct E3 as [-> _]; [|reflexivity].
  destruct details as [[[[[n mn] mx] sc] off]|]; [|inversion E4; reflexivity].
  apply MonadFacts.bind_inv in E4.
  destruct E4 as [(tiles & s3 & log5 & log6 & E5 & E6 & ->) | (e & E5 & _)];
    unfold glob_tiles in E5;
    destruct (has_double_star _ && negb _); inversion E5; subst; clear E5;
    [|reflexivity].
  apply MonadFacts.bind_inv in E6.
  destruct E6 as [(acc & s4 & log7 & log8 & E7 & E8 & ->) | (e & E7 & _)].
  - apply (@fold_each_disk _ _ count_tile _ count_tile_disk) in E7. subst s4.
    inversion E8. reflexivity.
  - exact (@fold_each_disk _ _ count_tile _ count_tile_disk _ _ _ _ _ E7).
Qed.

(** X14 ([validate], [_write_record]): whatever is on the disk, [validate]
    either leaves the disk exactly as it was, or it was asked to write the
    record, returned normally, and the disk differs by the record file
    alone, put at [<output_folder>/<root>_retile_record.js].  In
    particular [validate(write_record_to_file=False)] and every failing
    [validate] change nothing. *)
Theorem validate_changes_only_its_record
    (self : t) (write_record_to_file : bool) (fs : disk) :
  snd (fst (validate self write_record_to_file fs)) = fs \/
  (write_record_to_file = true /\
   fst (fst (validate self write_record_to_file fs)) = Ok tt /\
   exists record,
     fst (fst (validate_record self fs)) = Ok record /\
     FS.put fs (record_path (stem (input_file self)) (output_folder self))
       (FS.File (Json record))
     = Some (snd (fst (validate self write_record_to_file fs)))).
Proof.
  unfold validate.
  destruct (validate_record self fs) as [[r s] log] eqn:Er.
  pose proof (validate_record_disk _ _ Er) as ->.
  unfold bind. rewrite Er.
  destruct r as [record|e]; [|left; reflexivity].
  destruct write_record_to_file; [|left; reflexivity].
  unfold _write_record.
  destruct (FS.is_dir fs _); [left; reflexivity|].
  destruct (negb (FS.is_dir fs (output_folder self))); [left; reflexivity|].
  destruct (FS.put fs _ _) as [fs'|] eqn:Ep; [|left; reflexivity].
  right. split; [reflexivity|]. split; [reflexivity|].
  exists record. split; [reflexivity|]. exact Ep.
Qed.

(** *** Tile names *)

Lemma digits_no_underscore (d : Decimal.uint) :
  RetilerLog.no_underscore (NilEmpty.string_of_uint d) = true.
Proof. induction d; simpl; auto. Qed.

Lemma str_of_Z_no_underscore (z : Z) :
  RetilerLog.no_underscore (str_of_Z z) = true.
Proof.
  unfold str_of_Z, NilZero.string_of_int, NilZero.string_of_uint.
  destruct (Z.to_int z) as [d|d]; destruct d; simpl;
    try reflexivity; apply digits_no_underscore.
Qed.

Lemma str_of_Z_inj (a b : Z) : str_of_Z a = str_of_Z b -> a = b.
Proof.
  unfold str_of_Z. intros E.
  assert (Hn : forall z, Z.to_int z <> Decimal.Pos Decimal.Nil /\
                         Z.to_int z <> Decimal.Neg Decimal.Nil).
  { intros [|p|p]; simpl; split; try discriminate;
      intros Hp; inversion Hp as [Hq];
      exact (Unsigned.to_uint_nonnil p Hq). }
  apply to_int_inj.
  assert (Ha := NilZero.isi _ (proj1 (Hn a)) (proj2 (Hn a))).
  assert (Hb := NilZero.isi _ (proj1 (Hn b)) (proj2 (Hn b))).
  rewrite E in Ha. rewrite Ha in Hb. inversion Hb. reflexivity.
Qed.

(** Two numerals followed by an underscore and more text are equal texts
    only if the numerals are. *)
Lemma split_at_underscore (s s' rest rest' : string) :
  RetilerLog.no_underscore s = true ->
  RetilerLog.no_underscore s' = true ->
  (s ++ "_" ++ rest)%string = (s' ++ "_" ++ rest')%string ->
  s = s' /\ rest = rest'.
Proof.
  revert s'. induction s as [|c s IH]; intros [|c' s'] Hs Hs' E; simpl in *.
  - inversion E. split; reflexivity.
  - inversion E; subst. discriminate Hs'.
  - inversion E; subst. discriminate Hs.
  - apply andb_prop in Hs. apply andb_prop in Hs'.
    destruct Hs as [_ Hs]. destruct Hs' as [_ Hs'].
    inversion E; subst.
    match goal with
    | Hrest : (s ++ _)%string = (s' ++ _)%string |- _ =>
        destruct (IH s' Hs Hs' Hrest) as [-> ->]
    end.
    split; reflexivity.
Qed.

(** X15 ([_get_tile_name]): two grid cells have the same directory name
    only if they are the same cell, so the tiles of different cells never
    land in one directory. *)
Theorem tile_names_are_distinct (cell cell' : Z * Z)
    (Hsame : _get_tile_name cell = _get_tile_name cell') :
  cell = cell'.
Proof.
  unfold _get_tile_name in Hsame. simpl in Hsame.
  inversion Hsame as [Hrest]. clear Hsame.
  destruct (split_at_underscore _ _ _ _
              (str_of_Z_no_underscore (fst cell))
              (str_of_Z_no_underscore (fst cell')) Hrest) as [Hx Hy].
  apply str_of_Z_inj in Hx. apply str_of_Z_inj in Hy.
  destruct cell, cell'. simpl in *. subst. reflexivity.
Qed.


Lemma tile_names_are_distinct_witness : (3, 12)%Z = (3, 12)%Z.
Proof.
  apply (@tile_names_are_distinct (3, 12)%Z (3, 12)%Z).
  reflexivity.
Defined.

End RetilerMoreFacts.

(** ** File names in the retiler *)

Module RetilerNameFacts.
Import Retiler.

Local Open Scope nat_scope.

Lemma rfind_dot_from_no_dot (e : string) (i : nat) (found : option nat) :
  RetilerLog.no_dot e = true -> rfind_dot_from e i found = found.
Proof.
  revert i found. induction e as [|c e IH]; intros i found Hn; simpl in *;
    [reflexivity|].
  apply andb_prop in Hn. destruct Hn as [Hc He].
  rewrite IH by exact He.
  destruct (Ascii.eqb c "."); [discriminate Hc|reflexivity].
Qed.

Lemma rfind_dot_from_last (a e : string) (i : nat) (found : option nat) :
  RetilerLog.no_dot e = true ->
  rfind_dot_from (a ++ "." ++ e)%string i found = Some (i + String.length a).
Proof.
  revert i found. induction a as [|c a IH]; intros i found Hn; simpl.
  - rewrite rfind_dot_from_no_dot by exact Hn. f_equal. lia.
  - rewrite IH by exact Hn. f_equal. lia.
Qed.

(** The last dot of [a.e], for an extension [e] without a dot. *)
Lemma rfind_dot_last (a e : string) :
  RetilerLog.no_dot e = true ->
  rfind_dot (a ++ "." ++ e)%string = Some (String.length a).
Proof.
  intros Hn. unfold rfind_dot. rewrite rfind_dot_from_last by exact Hn.
  reflexivity.
Qed.

Lemma length_append (a b : string) :
  String.length (a ++ b)%string = String.length a + String.length b.
Proof. induction a as [|c a IH]; simpl; [reflexivity|]. rewrite IH. reflexivity. Qed.

Lemma substring_prefix (a b : string) :
  substring 0 (String.length a) (a ++ b)%string = a.
Proof.
  induction a as [|c a IH]; simpl.
  - destruct b; reflexivity.
  - rewrite IH. reflexivity.
Qed.


Lemma append_assoc (a b c : string) :
  ((a ++ b) ++ c)%string = (a ++ b ++ c)%string.
Proof. induction a as [|x a IH]; simpl; [reflexivity|]. rewrite IH. reflexivity. Qed.



(** [PurePath.stem] and [PurePath.suffix] of [a.e], for a name [a] that is
    not empty and an extension [e] that is not empty and has no dot. *)
Lemma cut_at_last_dot_name (a e : string) :
  RetilerLog.no_dot e = true -> a <> "" -> e <> "" ->
  cut_at_last_dot (a ++ "." ++ e)%string = Some (String.length a).
Proof.
  intros Hn Ha He. unfold cut_at_last_dot.
  rewrite rfind_dot_last by exact Hn.
  rewrite length_append. simpl String.length.
  assert (Hla : (0 < String.length a)%nat)
    by (destruct a; [contradiction Ha; reflexivity|simpl; lia]).
  assert (Hle : (0 < String.length e)%nat)
    by (destruct e; [contradiction He; reflexivity|simpl; lia]).
  destruct (Nat.ltb_spec 0 (String.length a)) as [_|Hbad]; [|lia].
  destruct (Nat.ltb_spec (String.length a)
              (String.length a + S (String.length e) - 1)) as [_|Hbad];
    [reflexivity|lia].
Qed.

Lemma stem_of_name (a e : string) :
  RetilerLog.no_dot e = true -> a <> "" -> e <> "" ->
  stem_of (a ++ "." ++ e)%string = a.
Proof.
  intros Hn Ha He. unfold stem_of.
  rewrite cut_at_last_dot_name by assumption.
  apply substring_prefix.
Qed.


Lemma only_dots_prefix (a : string) :
  only_dots (substring 0 (String.length a) a) = only_dots a.
Proof.
  replace (substring 0 (String.length a) a)
    with (substring 0 (String.length a) (a ++ "")%string).
  - rewrite substring_prefix. reflexivity.
  - f_equal. induction a as [|c a IH]; simpl; [reflexivity|].
    rewrite IH. reflexivity.
Qed.

(** X23 ([validate], [_write_record]): the record file is named after the
    input file without its last TWO extensions: [validate] hands the stem
    of the input file to [_write_record], which strips an extension once
    more.  The records of [base.e1.las] and [base.e2.las] are therefore one
    and the same file, [base_retile_record.js]. *)
Theorem record_name_drops_two_extensions
    (base e1 e2 : string) (temp_folder : path)
    (Hbase : only_dots base = false)
    (He1 : RetilerLog.no_dot e1 = true)
    (He2 : RetilerLog.no_dot e2 = true)
    (Hlast : e2 <> "") :
  record_path (stem_of (base ++ "." ++ e1 ++ "." ++ e2)%string) temp_folder
  = joinpath temp_folder (base ++ "_retile_record.js")%string.
Proof.
  unfold record_path. f_equal. f_equal. f_equal.
  change (base ++ "." ++ e1 ++ "." ++ e2)%string
    with (base ++ ("." ++ e1) ++ "." ++ e2)%string.
  rewrite <- append_assoc.
  rewrite stem_of_name; [|exact He2| |exact Hlast].
  2:{ destruct base; discriminate. }
  unfold splitext_root. rewrite rfind_dot_last by exact He1.
  rewrite substring_prefix, Hbase. reflexivity.
Qed.


Lemma record_name_drops_two_extensions_witness :
  record_path (stem_of "ahn3.part1.las") ["out"]
  = joinpath ["out"] "ahn3_retile_record.js".
Proof.
  apply (@record_name_drops_two_extensions "ahn3" "part1" "las" ["out"]);
    first [reflexivity | discriminate].
Defined.


End RetilerNameFacts.

(** ** Remote synchronisation *)

Module RemoteUtilsFacts.
Import RemoteUtils.

Local Open Scope monad_scope.

Section Generic.
Context {L R : Type} `{LocalFS L} `{WebDav R L}.

(** C4.  When the local target exists, [pull_directory_from_remote] raises
    FileExistsError at once: the only things it does are the existence test
    and a message; no remote call is made (no listing, no download) and the
    local disk and the remote store are as before. *)
Theorem pull_refuses_existing_local_path
    (depth : nat) (local_dir remote_dir : string) (l : L) (r : R) :
  os_path_exists l local_dir = true ->
  pull_directory_from_remote (S depth) local_dir remote_dir (l, r) =
  (Raise (Exc FileExistsError local_dir), (l, r),
   [EvExists local_dir true;
    EvPrint "A file or directory already exists with this name"]).
Proof.
  intros Hex. simpl. unfold bind, path_exists. simpl. rewrite Hex.
  reflexivity.
Qed.

(** Whatever [check] answers, as long as it does not raise, the next thing
    [pull_directory_from_remote] does is to list the remote directory. *)
Lemma pull_lists_whatever_check_answers
    (depth : nat) (local_dir remote_dir : string) (l : L) (r r1 : R)
    (present : bool) :
  os_path_exists l local_dir = false ->
  wd_check r remote_dir = (Ok present, r1) ->
  exists res st rest,
    pull_directory_from_remote (S depth) local_dir remote_dir (l, r) =
    (res, st,
     EvExists local_dir false :: EvCheck remote_dir (Ok present)
       :: EvList remote_dir (fst (wd_list r1 remote_dir)) :: rest).
Proof.
  intros Hex Hck. simpl.
  unfold bind at 1. unfold path_exists at 1. simpl. rewrite Hex.
  unfold bind at 1. unfold try_except, check. simpl. rewrite Hck.
  unfold bind at 1. unfold list_remote at 1. simpl.
  destruct (wd_list r1 remote_dir) as [[records|e] r2]; simpl.
  - match goal with
    | |- context [bind ?m ?k (l, r2)] => destruct (bind m k (l, r2)) as [[res st] rest]
    end.
    eauto.
  - eauto.
Qed.

(** [push_directory_to_remote] starts with the remote target: when
    [check] says it is absent the next call is [mkdir] on it (a WebDAV
    failure of which becomes FileNotFoundError, and after whose success the
    push goes on to list the local directory); when it is present but
    [is_dir] says it is not a directory the push raises FileExistsError with
    nothing done but the two queries and a message, so no upload is
    attempted. *)
Lemma push_target_calls
    (depth : nat) (local_dir remote_dir : string) (l : L) (r : R) :
  (forall r1 answer r2,
      wd_check r remote_dir = (Ok false, r1) ->
      wd_mkdir r1 remote_dir = (answer, r2) ->
      (exists res st rest,
          push_directory_to_remote (S depth) local_dir remote_dir (l, r) =
          (res, st,
           EvCheck remote_dir (Ok false) :: EvMkdir remote_dir answer :: rest)
          /\ (answer = Ok tt ->
              exists more,
                rest = EvListdir local_dir (os_listdir l local_dir) :: more)
          /\ (forall e, answer = Raise e ->
              is_WebDavException (exc_class e) = true ->
              res = Raise (Exc FileNotFoundError "") /\
              rest = [EvPrint "failed to create remote directory"]))) /\
  (forall r1 r2,
      wd_check r remote_dir = (Ok true, r1) ->
      wd_is_dir r1 remote_dir = (Ok false, r2) ->
      push_directory_to_remote (S depth) local_dir remote_dir (l, r) =
      (Raise (Exc FileExistsError ""), (l, r2),
       [EvCheck remote_dir (Ok true); EvIsDir remote_dir (Ok false);
        EvPrint
          "A record exits at {} on the remote fs which is not a directory."])).
Proof.
  split.
  - intros r1 answer r2 Hck Hmk. simpl.
    unfold bind at 1. unfold ensure_remote_dir.
    unfold bind at 1. unfold check at 1. simpl. rewrite Hck. simpl.
    unfold try_except, mkdir. simpl. rewrite Hmk.
    destruct answer as [[]|e]; simpl.
    + unfold bind at 1. unfold listdir at 1. simpl.
      destruct (os_listdir l local_dir) as [names|e] eqn:El.
      * match goal with
        | |- context [for_each ?xs ?b ?s0] =>
            destruct (for_each xs b s0) as [[res st] more]
        end.
        do 3 eexists. split; [reflexivity|]. split.
        -- intros _. eexists. reflexivity.
        -- intros e He. discriminate He.
      * do 3 eexists. split; [reflexivity|]. split.
        -- intros _. eexists. reflexivity.
        -- intros e0 He. discriminate He.
    + destruct (is_WebDavException (exc_class e)) eqn:Ew; simpl.
      * do 3 eexists. split; [reflexivity|]. split.
        -- intros He. discriminate He.
        -- intros e0 He _. split; reflexivity.
      * do 3 eexists. split; [reflexivity|]. split.
        -- intros He. discriminate He.
        -- intros e0 He Hw. inversion He; subst. congruence.
  - intros r1 r2 Hck Hd. simpl.
    unfold bind at 1. unfold ensure_remote_dir.
    unfold bind at 1. unfold check at 1. simpl. rewrite Hck. simpl.
    unfold bind at 1. unfold is_dir at 1. simpl. rewrite Hd. simpl.
    reflexivity.
Qed.

(** *** Logs *)

Lemma flat_log_app (log1 log2 : list event) :
  flat_log (log1 ++ log2) = flat_log log1 ++ flat_log log2.
Proof. apply flat_map_app. Qed.

Lemma uploaded_app (log1 log2 : list event) :
  SyncLog.uploaded (log1 ++ log2) =
  SyncLog.uploaded log1 ++ SyncLog.uploaded log2.
Proof. apply flat_map_app. Qed.

Lemma uploads_clobber_app (log1 log2 : list event) :
  SyncLog.uploads_clobber log1 -> SyncLog.uploads_clobber log2 ->
  SyncLog.uploads_clobber (log1 ++ log2).
Proof.
  intros H1 H2. induction H1; simpl; auto using SyncLog.uploads_clobber.
Qed.

(** In a log of the shape [uploads_clobber], what stands before an upload
    attempt is the test of the target, its deletion if the test was positive,
    and the test of the parent. *)
Lemma uploads_clobber_before (log : list event) :
  SyncLog.uploads_clobber log ->
  forall before rp lp answer after,
    log = before ++ EvUpload rp lp answer :: after ->
    SyncLog.clobbered_before before rp.
Proof.
  induction 1 as [|ev log Hev Hlog IH|rp0 lp0 parent a0 log Hlog IH
                  |rp0 lp0 parent a0 log Hlog IH];
    intros before rp lp answer after E.
  - destruct before; discriminate E.
  - destruct before as [|b before]; simpl in E.
    + inversion E; subst. discriminate Hev.
    + inversion E; subst.
      destruct (IH _ _ _ _ _ eq_refl) as (earlier & p & [-> | ->]);
        exists (b :: earlier), p; [left|right]; reflexivity.
  - destruct before as [|b1 [|b2 [|b3 [|b4 before]]]]; simpl in E;
      inversion E; subst.
    + exists [], parent. left. reflexivity.
    + destruct (IH _ _ _ _ _ eq_refl) as (earlier & p & [-> | ->]);
        eexists (_ :: _ :: _ :: _ :: earlier), p; [left|right]; reflexivity.
  - destruct before as [|b1 [|b2 [|b3 before]]]; simpl in E;
      inversion E; subst.
    + exists [], parent. right. reflexivity.
    + destruct (IH _ _ _ _ _ eq_refl) as (earlier & p & [-> | ->]);
        eexists (_ :: _ :: _ :: earlier), p; [left|right]; reflexivity.
Qed.

(** *** Pushing *)

Lemma ensure_remote_dir_ok (remote_dir : string) (s : state) :
  SyncLog.push_part_ok s (ensure_remote_dir remote_dir s) (Some []).
Proof.
  unfold SyncLog.push_part_ok, ensure_remote_dir, bind, try_except, check, mkdir,
    is_dir, print, emit, raise, ret.
  destruct s as [l r]; simpl.
  destruct (wd_check r remote_dir) as [[[|]|e] r1]; simpl.
  - destruct (wd_is_dir r1 remote_dir) as [[[|]|e] r2]; simpl;
      repeat split; auto; try discriminate;
      repeat (apply SyncLog.uc_other; [reflexivity|]); constructor.
  - destruct (wd_mkdir r1 remote_dir) as [[[]|e] r2]; simpl;
      [|destruct (is_WebDavException (exc_class e)); simpl];
      repeat split; auto; try discriminate;
      repeat (apply SyncLog.uc_other; [reflexivity|]); constructor.
  - repeat split; auto; try discriminate.
    repeat (apply SyncLog.uc_other; [reflexivity|]); constructor.
Qed.

Lemma push_entry_file_ok (local_dir remote_dir lrecord : string) (s : state) :
  SyncLog.push_part_ok s
    (push_entry_file local_dir remote_dir lrecord
       (os_path_join remote_dir lrecord) s)
    (Some [(os_path_join remote_dir lrecord, os_path_join local_dir lrecord)]).
Proof.
  unfold SyncLog.push_part_ok, push_entry_file, push_file_to_remote,
    reraise_after_print, bind, try_except, check, clean, upload_sync,
    print, emit, raise, ret.
  destruct s as [l r]; simpl.
  set (rp := os_path_join remote_dir lrecord).
  set (lp := os_path_join local_dir lrecord).
  destruct (wd_check r rp) as [[[|]|e] r1]; simpl.
  - destruct (wd_clean r1 rp) as [[[]|e] r2]; simpl.
    + destruct (wd_check r2 remote_dir) as [[[|]|e] r3]; simpl.
      * destruct (wd_upload_sync r3 l rp lp) as [[[]|e] r4]; simpl;
          [|destruct (is_WebDavException (exc_class e)); simpl];
          repeat split; auto; try discriminate;
          apply SyncLog.uc_replace;
          repeat (apply SyncLog.uc_other; [reflexivity|]); constructor.
      * repeat split; auto; try discriminate.
        repeat (apply SyncLog.uc_other; [reflexivity|]); constructor.
      * repeat split; auto; try discriminate.
        repeat (apply SyncLog.uc_other; [reflexivity|]); constructor.
    + repeat split; auto; try discriminate.
      repeat (apply SyncLog.uc_other; [reflexivity|]); constructor.
  - destruct (wd_check r1 remote_dir) as [[[|]|e] r3]; simpl.
    + destruct (wd_upload_sync r3 l rp lp) as [[[]|e] r4]; simpl;
        [|destruct (is_WebDavException (exc_class e)); simpl];
        repeat split; auto; try discriminate;
        apply SyncLog.uc_fresh;
        repeat (apply SyncLog.uc_other; [reflexivity|]); constructor.
    + repeat split; auto; try discriminate.
      repeat (apply SyncLog.uc_other; [reflexivity|]); constructor.
    + repeat split; auto; try discriminate.
      repeat (apply SyncLog.uc_other; [reflexivity|]); constructor.
  - repeat split; auto; try discriminate.
    repeat (apply SyncLog.uc_other; [reflexivity|]); constructor.
Qed.

Lemma push_entry_ok (d : nat) (local_dir remote_dir lrecord : string) (s : state) :
  (forall ld rd s0,
      SyncLog.push_part_ok s0 (push_directory_to_remote d ld rd s0)
        (SyncLog.local_files d (fst s0) ld rd)) ->
  SyncLog.push_part_ok s
    (push_entry (push_directory_to_remote d) local_dir remote_dir lrecord s)
    (if os_path_isdir (fst s) (os_path_join local_dir lrecord)
     then SyncLog.local_files d (fst s) (os_path_join local_dir lrecord)
            (os_path_join remote_dir lrecord)
     else Some [(os_path_join remote_dir lrecord,
                 os_path_join local_dir lrecord)]).
Proof.
  intros IH. unfold push_entry, bind, path_isdir. simpl.
  destruct (os_path_isdir (fst s) (os_path_join local_dir lrecord)).
  - unfold nested.
    specialize (IH (os_path_join local_dir lrecord)
                  (os_path_join remote_dir lrecord) s).
    destruct (push_directory_to_remote d _ _ s) as [[res st] inner].
    destruct IH as (Hl & Hc & Hu). simpl in *.
    unfold SyncLog.push_part_ok, flat_log in *. simpl. rewrite app_nil_r.
    repeat split; auto.
    apply SyncLog.uc_other; [reflexivity|exact Hc].
  - pose proof (push_entry_file_ok local_dir remote_dir lrecord s) as Hf.
    destruct (push_entry_file _ _ _ _ s) as [[res st] log].
    unfold SyncLog.push_part_ok in *.
    destruct Hf as (Hl & Hc & Hu). simpl in *.
    repeat split; auto.
    apply SyncLog.uc_other; [reflexivity|exact Hc].
Qed.

Lemma push_loop_ok (d : nat) (local_dir remote_dir : string) :
  (forall ld rd s0,
      SyncLog.push_part_ok s0 (push_directory_to_remote d ld rd s0)
        (SyncLog.local_files d (fst s0) ld rd)) ->
  forall names s res st log,
    Loop.run (push_entry (push_directory_to_remote d) local_dir remote_dir)
      names s res st log ->
    SyncLog.push_part_ok s (res, st, log)
      (SyncLog.flat_map_opt
         (fun name =>
            if os_path_isdir (fst s) (os_path_join local_dir name)
            then SyncLog.local_files d (fst s) (os_path_join local_dir name)
                   (os_path_join remote_dir name)
            else Some [(os_path_join remote_dir name,
                        os_path_join local_dir name)])
         names).
Proof.
  intros IH names s res st log Hrun. unfold SyncLog.push_part_ok.
  induction Hrun as [s|x rest s e s' log Hb
                     |x rest s s1 log1 res s2 log2 Hb Hrest IHrest].
  - repeat split; simpl; auto. constructor.
  - pose proof (push_entry_ok d local_dir remote_dir x s IH) as Hx.
    rewrite Hb in Hx. unfold SyncLog.push_part_ok in Hx. destruct Hx as (Hl & Hc & _).
    repeat split; simpl in *; auto. discriminate.
  - pose proof (push_entry_ok d local_dir remote_dir x s IH) as Hx.
    rewrite Hb in Hx. unfold SyncLog.push_part_ok in Hx. destruct Hx as (Hl & Hc & Hu).
    destruct IHrest as (Hl2 & Hc2 & Hu2). simpl in *.
    rewrite Hl in Hl2, Hu2.
    repeat split; simpl; auto.
    + rewrite flat_log_app. apply uploads_clobber_app; assumption.
    + intros Hres. rewrite (Hu eq_refl), (Hu2 Hres).
      rewrite flat_log_app, uploaded_app. reflexivity.
Qed.

Lemma push_directory_ok (d : nat) :
  forall local_dir remote_dir s,
    SyncLog.push_part_ok s (push_directory_to_remote d local_dir remote_dir s)
      (SyncLog.local_files d (fst s) local_dir remote_dir).
Proof.
  induction d as [|d IH]; intros local_dir remote_dir s;
    unfold SyncLog.push_part_ok.
  - repeat split; simpl; auto; [constructor|discriminate].
  - destruct (push_directory_to_remote (S d) local_dir remote_dir s)
      as [[res st] log] eqn:E.
    cbn [fst snd]. simpl in E. simpl SyncLog.local_files.
    pose proof (ensure_remote_dir_ok remote_dir s) as He.
    unfold SyncLog.push_part_ok in He.
    apply MonadFacts.bind_inv in E.
    destruct E as [([] & s1 & log1 & log2 & E1 & E2 & ->) | (e & E1 & ->)];
      rewrite E1 in He; destruct He as (Hl1 & Hc1 & Hu1);
      cbn [fst snd] in Hl1, Hc1, Hu1.
    + apply MonadFacts.bind_inv in E2.
      destruct E2 as [(names & s2 & log3 & log4 & E3 & E4 & ->) | (e & E3 & ->)];
        unfold listdir in E3; inversion E3 as [[Ea Es Elog]]; subst;
        rewrite Hl1 in Ea; rewrite Ea.
      * apply MonadFacts.for_each_run in E4.
        apply (@push_loop_ok d local_dir remote_dir IH) in E4.
        unfold SyncLog.push_part_ok in E4.
        destruct E4 as (Hl2 & Hc2 & Hu2). cbn [fst snd] in *.
        rewrite Hl1 in Hl2, Hu2.
        repeat split; auto.
        -- rewrite !flat_log_app.
           apply uploads_clobber_app; [exact Hc1|].
           apply uploads_clobber_app; [|exact Hc2].
           apply SyncLog.uc_other; [reflexivity|constructor].
        -- intros Hres. rewrite (Hu2 Hres).
           rewrite !flat_log_app, !uploaded_app.
           specialize (Hu1 eq_refl). injection Hu1 as Hnil.
           rewrite <- Hnil. reflexivity.
      * repeat split; auto; [|discriminate].
        rewrite flat_log_app. apply uploads_clobber_app; [exact Hc1|].
        apply SyncLog.uc_other; [reflexivity|constructor].
    + repeat split; auto. discriminate.
Qed.

(** A push never writes to the local disk; every upload it attempts
    comes right after the test of the remote parent, preceded by a negative
    test of the target path or by a positive test and the deletion of what
    was there; and when the push completes, the uploads that went through are
    exactly the files under the local tree, each once, in depth-first
    order, whatever the remote store already held. *)
Lemma push_upload_calls
    (depth : nat) (local_dir remote_dir : string) (l : L) (r : R)
    (res : result unit) (st : state) (log : list event) :
  push_directory_to_remote depth local_dir remote_dir (l, r) = (res, st, log) ->
  fst st = l /\
  (forall before rp lp answer after,
      flat_log log = before ++ EvUpload rp lp answer :: after ->
      SyncLog.clobbered_before before rp) /\
  (res = Ok tt ->
   SyncLog.local_files depth l local_dir remote_dir =
   Some (SyncLog.uploaded (flat_log log))).
Proof.
  intros E.
  pose proof (push_directory_ok depth local_dir remote_dir (l, r)) as Hp.
  rewrite E in Hp. unfold SyncLog.push_part_ok in Hp.
  destruct Hp as (Hl & Hc & Hu). simpl in *.
  split; [exact Hl|]. split; [|exact Hu].
  apply uploads_clobber_before. exact Hc.
Qed.


(** *** A push that fits the depth fails only when told *)

Lemma told_last_app (log1 log2 : list event) :
  SyncLog.told_last log2 = true -> SyncLog.told_last (log1 ++ log2) = true.
Proof.
  unfold SyncLog.told_last. rewrite rev_app_distr.
  destruct (rev log2) as [|ev more]; [discriminate|]. intros Ht. exact Ht.
Qed.

Lemma ensure_remote_dir_told (remote_dir : string) (s : state) :
  SyncLog.push_part_told (ensure_remote_dir remote_dir s) True.
Proof.
  unfold SyncLog.push_part_told, ensure_remote_dir, bind, try_except, check,
    mkdir, is_dir, print, emit, raise, ret.
  destruct s as [l r]; simpl.
  destruct (wd_check r remote_dir) as [[[|]|e] r1]; simpl.
  - destruct (wd_is_dir r1 remote_dir) as [[[|]|e] r2]; simpl;
      intros e0 He _; (discriminate He || reflexivity).
  - destruct (wd_mkdir r1 remote_dir) as [[[]|e] r2]; simpl;
      [|destruct (is_WebDavException (exc_class e)); simpl];
      intros e0 He _; (discriminate He || reflexivity).
  - intros e0 He _. reflexivity.
Qed.

Lemma push_entry_file_told (local_dir remote_dir lrecord rpath : string)
    (s : state) :
  SyncLog.push_part_told
    (push_entry_file local_dir remote_dir lrecord rpath s) True.
Proof.
  unfold SyncLog.push_part_told, push_entry_file, push_file_to_remote,
    reraise_after_print, bind, try_except, check, clean, upload_sync,
    print, emit, raise, ret.
  destruct s as [l r]; simpl.
  destruct (wd_check r rpath) as [[[|]|e] r1]; simpl;
    [destruct (wd_clean r1 rpath) as [[[]|e] r2]; simpl;
     [set (r3 := r2)|]
    |set (r3 := r1)|];
    try (intros e0 He _; reflexivity);
    (destruct (wd_check r3 remote_dir) as [[[|]|e] r4]; simpl;
     [destruct (wd_upload_sync r4 l _ _) as [[[]|e] r5]; simpl;
      [|destruct (is_WebDavException (exc_class e)); simpl]| |]);
    intros e0 He _; (discriminate He || reflexivity).
Qed.

Lemma flat_map_opt_cons {A B} (f : A -> option (list B)) (x : A)
    (rest : list A) :
  SyncLog.flat_map_opt f (x :: rest) <> None ->
  f x <> None /\ SyncLog.flat_map_opt f rest <> None.
Proof.
  simpl. destruct (f x); [|intros Hn; exfalso; apply Hn; reflexivity].
  destruct (SyncLog.flat_map_opt f rest);
    [|intros Hn; exfalso; apply Hn; reflexivity].
  split; discriminate.
Qed.

Lemma push_directory_told (d : nat) :
  forall local_dir remote_dir s,
    SyncLog.push_part_told (push_directory_to_remote d local_dir remote_dir s)
      (SyncLog.local_files d (fst s) local_dir remote_dir <> None).
Proof.
  induction d as [|d IH]; intros local_dir remote_dir s;
    unfold SyncLog.push_part_told.
  - simpl. intros e _ Hfits. exfalso. apply Hfits. reflexivity.
  - destruct (push_directory_to_remote (S d) local_dir remote_dir s)
      as [[res st] log] eqn:E.
    cbn [fst snd]. simpl in E. simpl SyncLog.local_files.
    intros e -> Hfits.
    pose proof (ensure_remote_dir_ok remote_dir s) as He.
    pose proof (ensure_remote_dir_told remote_dir s) as Ht.
    unfold SyncLog.push_part_ok in He. unfold SyncLog.push_part_told in Ht.
    apply MonadFacts.bind_inv in E.
    destruct E as [([] & s1 & log1 & log2 & E1 & E2 & ->) | (e1 & E1 & Ee)];
      rewrite E1 in He, Ht; destruct He as (Hl1 & _ & _);
      cbn [fst snd] in Hl1, Ht.
    2:{ inversion Ee; subst. apply (Ht e1 eq_refl I). }
    apply MonadFacts.bind_inv in E2.
    destruct E2 as [(names & s2 & log3 & log4 & E3 & E4 & ->) | (e1 & E3 & Ee)];
      unfold listdir in E3; inversion E3 as [[Ea Es Elog]]; subst.
    2:{ rewrite flat_log_app. apply told_last_app. rewrite Ea. reflexivity. }
    rewrite Hl1 in Ea. rewrite Ea in Hfits.
    rewrite !flat_log_app. apply told_last_app. apply told_last_app.
    apply MonadFacts.for_each_run in E4.
    clear E3 Ea E1 Ht. revert Hfits. rewrite <- Hl1. clear Hl1.
    remember (Raise e) as res eqn:Eres.
    induction E4 as [s0|x rest s0 e0 s' log Hb
                     |x rest s0 s3 log5 res s4 log6 Hb Hrest IHrest];
      intros Hfits.
    + discriminate Eres.
    + apply flat_map_opt_cons in Hfits. destruct Hfits as [Hx _].
      unfold push_entry, bind, path_isdir in Hb. cbn [fst snd] in Hb.
      destruct (os_path_isdir (fst s0) (os_path_join local_dir x)).
      * unfold nested in Hb.
        pose proof (IH (os_path_join local_dir x)
                      (os_path_join remote_dir x) s0) as Hin.
        unfold SyncLog.push_part_told in Hin.
        destruct (push_directory_to_remote d _ _ s0) as [[r1 st1] inner].
        inversion Hb; subst. cbn [fst snd] in Hin.
        specialize (Hin e0 eq_refl Hx).
        change (SyncLog.told_last
                  (flat_log ([EvIsdir (os_path_join local_dir x) true]
                             ++ [EvPush (os_path_join local_dir x)
                                   (os_path_join remote_dir x) inner]))
                = true).
        rewrite flat_log_app. apply told_last_app.
        unfold flat_log. simpl. rewrite app_nil_r. exact Hin.
      * pose proof (push_entry_file_told local_dir remote_dir x
                      (os_path_join remote_dir x) s0) as Hf.
        unfold SyncLog.push_part_told in Hf.
        destruct (push_entry_file _ _ _ _ s0) as [[r1 st1] flog].
        inversion Hb; subst. cbn [fst snd] in Hf.
        specialize (Hf e0 eq_refl I).
        change (SyncLog.told_last
                  (flat_log ([EvIsdir (os_path_join local_dir x) false] ++ flog))
                = true).
        rewrite flat_log_app. apply told_last_app. exact Hf.
    + apply flat_map_opt_cons in Hfits. destruct Hfits as [_ Hrest'].
      rewrite flat_log_app. apply told_last_app.
      apply IHrest; [exact Eres|].
      assert (Hsame : fst s3 = fst s0).
      { pose proof (push_entry_ok d local_dir remote_dir x s0
                      (push_directory_ok d)) as Hx.
        rewrite Hb in Hx. unfold SyncLog.push_part_ok in Hx.
        destruct Hx as (Hl & _). exact Hl. }
      rewrite Hsame. exact Hrest'.
Qed.

(** When the local tree fits the depth, a push that fails stops right after
    one of its own messages or after a call that raised: it does not fail
    for want of depth. *)
Lemma push_fails_only_when_told
    (depth : nat) (local_dir remote_dir : string) (l : L) (r : R)
    (e : exc) (st : state) (log : list event)
    (files : list (string * string)) :
  SyncLog.local_files depth l local_dir remote_dir = Some files ->
  push_directory_to_remote depth local_dir remote_dir (l, r)
  = (Raise e, st, log) ->
  SyncLog.told_last (flat_log log) = true.
Proof.
  intros Hfiles E.
  pose proof (push_directory_told depth local_dir remote_dir (l, r)) as Ht.
  unfold SyncLog.push_part_told in Ht. rewrite E in Ht.
  apply (Ht e eq_refl). cbn [fst]. rewrite Hfiles. discriminate.
Qed.

(** *** Pulling *)

Lemma transfers_app (log1 log2 : list event) :
  SyncLog.transfers (log1 ++ log2) =
  SyncLog.transfers log1 ++ SyncLog.transfers log2.
Proof. apply flat_map_app. Qed.

(** One turn of the loop of a pull: it makes no listing of its own, and it
    transfers the entry it is given, unless [is_dir] raised. *)
Lemma pull_entry_transfers (recur : string -> string -> Sync unit)
    (local_dir remote_dir record : string) (s st : state)
    (res : result unit) (log : list event) :
  pull_entry recur local_dir remote_dir record s = (res, st, log) ->
  forallb (fun ev => negb (SyncLog.is_listing ev)) log = true /\
  (SyncLog.transfers log = [os_path_join remote_dir record] \/
   SyncLog.transfers log = [] /\ res <> Ok tt).
Proof.
  unfold pull_entry, pull_file_from_remote, reraise_after_print, bind,
    try_except, nested, is_dir, download_file, print, emit, raise.
  destruct (wd_is_dir (snd s) (os_path_join remote_dir record))
    as [[[|]|e] r1]; cbn [fst snd].
  - destruct (recur _ _ (fst s, r1)) as [[[[]|e] s1] inner]; cbn [fst snd].
    + intros E. inversion E; subst. split; [reflexivity|]. left. reflexivity.
    + destruct (is_WebDavException (exc_class e)); intros E;
        inversion E; subst; (split; [reflexivity|]); left; reflexivity.
  - destruct (wd_download_file r1 (fst s) _ _) as [[[]|e] [r2 l2]];
      cbn [fst snd].
    + intros E. inversion E; subst. split; [reflexivity|]. left. reflexivity.
    + destruct (is_WebDavException (exc_class e)) eqn:Ew; cbn [fst snd];
        rewrite ?Ew; cbn [fst snd]; intros E;
        inversion E; subst; (split; [reflexivity|]); left; reflexivity.
  - intros E. inversion E; subst. split; [reflexivity|].
    right. split; [reflexivity|discriminate].
Qed.

Lemma pull_loop_transfers (recur : string -> string -> Sync unit)
    (local_dir remote_dir : string) (records : list string)
    (s st : state) (res : result unit) (log : list event) :
  Loop.run (pull_entry recur local_dir remote_dir) records s res st log ->
  forallb (fun ev => negb (SyncLog.is_listing ev)) log = true /\
  exists n,
    (n <= List.length records)%nat /\
    SyncLog.transfers log = map (os_path_join remote_dir) (firstn n records) /\
    (res = Ok tt -> n = List.length records).
Proof.
  induction 1 as [s|x rest s e s' log Hb
                  |x rest s s1 log1 res s2 log2 Hb Hrest IH].
  - split; [reflexivity|]. exists 0%nat. simpl. auto.
  - apply pull_entry_transfers in Hb. destruct Hb as (Hn & [Ht | [Ht _]]).
    + split; [exact Hn|]. exists 1%nat. simpl. rewrite Ht.
      repeat split; [lia|discriminate].
    + split; [exact Hn|]. exists 0%nat. simpl. rewrite Ht.
      repeat split; [lia|discriminate].
  - apply pull_entry_transfers in Hb.
    destruct Hb as (Hn & [Ht | [_ Hres]]); [|congruence].
    destruct IH as (Hn2 & n & Hle & Ht2 & Hall).
    split; [rewrite forallb_app, Hn, Hn2; reflexivity|].
    exists (S n). rewrite transfers_app, Ht, Ht2. simpl.
    repeat split; [lia|]. intros Hr. rewrite (Hall Hr). reflexivity.
Qed.

Lemma not_listed (log : list event) (p : string) (a : result (list string)) :
  forallb (fun ev => negb (SyncLog.is_listing ev)) log = true ->
  ~ In (EvList p a) log.
Proof.
  intros Hall Hin. rewrite forallb_forall in Hall.
  specialize (Hall _ Hin). discriminate Hall.
Qed.

(** C10.  If a call of [pull_directory_from_remote] obtained the listing
    [records] of its remote directory, then what that call itself transfers
    (the downloads it starts and the recursive pulls it makes) are, in order,
    entries of the listing without its first one: at most
    [length records - 1] transfers, and exactly the entries after the first
    when the call completes. *)
Theorem pull_discards_first_record
    (depth : nat) (local_dir remote_dir : string) (s st : state)
    (res : result unit) (log : list event) (records : list string) :
  pull_directory_from_remote depth local_dir remote_dir s = (res, st, log) ->
  In (EvList remote_dir (Ok records)) log ->
  (exists n, SyncLog.transfers log =
             map (os_path_join remote_dir) (firstn n (tl records))) /\
  (List.length (SyncLog.transfers log) <= List.length records - 1)%nat /\
  (res = Ok tt ->
   SyncLog.transfers log = map (os_path_join remote_dir) (tl records)).
Proof.
  destruct depth as [|d]; simpl; intros E Hin.
  - inversion E; subst. destruct Hin.
  - apply MonadFacts.bind_inv in E.
    destruct E as [(found & s1 & log1 & log2 & E1 & E2 & ->) | (e & E1 & _)];
      unfold path_exists in E1; inversion E1; subst; clear E1.
    destruct (os_path_exists (fst s1) local_dir).
    { unfold bind, print, emit, raise in E2. inversion E2; subst.
      simpl in Hin. destruct Hin as [Hin|[Hin|[]]]; discriminate Hin. }
    apply MonadFacts.bind_inv in E2.
    destruct E2 as [(present & s2 & log3 & log4 & E3 & E4 & ->) | (e & E3 & ->)].
    2:{ exfalso. revert Hin. apply not_listed.
        unfold try_except, check, reraise_after_print, bind, print, emit,
          raise in E3.
        destruct (wd_check (snd s1) remote_dir) as [[b|e0] r1];
          cbn [fst snd] in E3; [discriminate E3|].
        destruct (is_WebDavException (exc_class e0));
          inversion E3; subst; reflexivity. }
    assert (Hlog3 : log3 = [EvCheck remote_dir (Ok present)]).
    { unfold try_except, check, reraise_after_print, bind, print, emit,
        raise in E3.
      destruct (wd_check (snd s1) remote_dir) as [[b|e0] r1];
        cbn [fst snd] in E3.
      - inversion E3; subst. reflexivity.
      - destruct (is_WebDavException (exc_class e0)); discriminate E3. }
    subst log3.
    apply MonadFacts.bind_inv in E4.
    destruct E4 as [(recs & s3 & log5 & log6 & E5 & E6 & ->) | (e & E5 & ->)];
      unfold list_remote in E5;
      destruct (wd_list (snd s2) remote_dir) as [answer r3];
      inversion E5; subst; clear E5.
    2:{ simpl in Hin. destruct Hin as [Hin|[Hin|[Hin|[]]]]; discriminate Hin. }
    apply MonadFacts.bind_inv in E6.
    destruct E6 as [([] & s4 & log7 & log8 & E7 & E8 & ->) | (e & E7 & ->)];
      unfold makedirs in E7;
      destruct (os_makedirs (fst (fst s2, r3)) local_dir) as [answer l4];
      inversion E7; subst; clear E7.
    + apply MonadFacts.for_each_run in E8.
      apply pull_loop_transfers in E8.
      destruct E8 as (Hno & n & Hle & Ht & Hall).
      assert (records = recs) as ->.
      { simpl in Hin.
        destruct Hin as [Hin|[Hin|[Hin|[Hin|Hin]]]]; try discriminate Hin.
        - inversion Hin. reflexivity.
        - exfalso. revert Hin. apply not_listed. exact Hno. }
      simpl. rewrite Ht.
      split; [exists n; reflexivity|]. split.
      * rewrite length_map, length_firstn.
        destruct recs; simpl in *; lia.
      * intros Hr. rewrite (Hall Hr), firstn_all. reflexivity.
    + assert (records = recs) as ->.
      { simpl in Hin.
        destruct Hin as [Hin|[Hin|[Hin|[Hin|[]]]]]; try discriminate Hin.
        inversion Hin. reflexivity. }
      simpl. split; [exists 0%nat; reflexivity|].
      split; [lia|discriminate].
Qed.

End Generic.

(** *** On the in-memory disk and server *)

Import MemoryEnv.

Lemma pull_refuses_existing_local_path_witness :
  pull_directory_from_remote 5 "tiles" "archive/tiles"
    (disk_with_target, remote_tiles) =
  (Raise (Exc FileExistsError "tiles"), (disk_with_target, remote_tiles),
   [EvExists "tiles" true;
    EvPrint "A file or directory already exists with this name"]).
Proof.
  exact (@pull_refuses_existing_local_path tree tree disk server 4
           "tiles" "archive/tiles" disk_with_target remote_tiles eq_refl).
Defined.

(** C5 fails on the code: the answer of [check] is dropped.  Pulling from
    [archive/missing], which the server does not have, into a fresh local
    path goes on to list the remote directory after [check] answered False;
    the exception that ends the pull is the one the listing raises. *)
Theorem pull_lists_a_missing_remote_directory :
  pull_directory_from_remote 5 "tiles" "archive/missing"
    (empty_disk, remote_tiles) =
  (Raise (Exc RemoteResourceNotFound "archive/missing"),
   (empty_disk, remote_tiles),
   [EvExists "tiles" false;
    EvCheck "archive/missing" (Ok false);
    EvList "archive/missing"
      (Raise (Exc RemoteResourceNotFound "archive/missing"))]).
Proof. reflexivity. Qed.

Lemma push_target_calls_example :
  (exists res st rest,
      push_directory_to_remote 5 "out" "archive/new"
        (local_out, remote_archive) =
      (res, st,
       EvCheck "archive/new" (Ok false) :: EvMkdir "archive/new" (Ok tt)
         :: rest)) /\
  push_directory_to_remote 5 "out" "archive/out" (local_out, remote_conflict) =
  (Raise (Exc FileExistsError ""), (local_out, remote_conflict),
   [EvCheck "archive/out" (Ok true); EvIsDir "archive/out" (Ok false);
    EvPrint "A record exits at {} on the remote fs which is not a directory."]).
Proof.
  split.
  - destruct (proj1 (@push_target_calls tree tree disk
                       server 4 "out" "archive/new" local_out remote_archive)
                remote_archive (Ok tt)
                (snd (MemoryEnv.server_mkdir remote_archive "archive/new"))
                eq_refl eq_refl)
      as (res & st & rest & E & _).
    exists res, st, rest. exact E.
  - exact (proj2 (@push_target_calls tree tree disk
                    server 4 "out" "archive/out" local_out remote_conflict)
             remote_conflict remote_conflict eq_refl eq_refl).
Defined.

(** The push of [out] onto [archive/out], where an older [notes.txt] is
    already stored: both local files are uploaded, in depth-first order. *)
Lemma push_upload_calls_example :
  SyncLog.local_files 5 local_out "out" "archive/out" =
  Some [("archive/out/tile_0_0/a_1.las", "out/tile_0_0/a_1.las");
        ("archive/out/notes.txt", "out/notes.txt")] /\
  SyncLog.local_files 5 local_out "out" "archive/out" =
  Some (SyncLog.uploaded
          (flat_log
             (snd (push_directory_to_remote 5 "out" "archive/out"
                     (local_out, remote_archive))))).
Proof.
  split; [reflexivity|].
  refine (proj2 (proj2 (@push_upload_calls tree tree disk server
                          5 "out" "archive/out" local_out remote_archive
                          (Ok tt) _ _ eq_refl)) eq_refl).
Defined.

(** The pull of [archive/tiles]: the listing has three entries, the first
    of which is the directory itself, and two transfers are made. *)
Lemma pull_discards_first_record_witness :
  SyncLog.transfers
    (snd (pull_directory_from_remote 5 "tiles" "archive/tiles"
            (empty_disk, remote_tiles))) =
  map (os_path_join "archive/tiles") (tl ["tiles/"; "tile_0_0/"; "a_2.las"]).
Proof.
  refine (proj2 (proj2 (@pull_discards_first_record tree tree disk server
                          5 "tiles" "archive/tiles" (empty_disk, remote_tiles)
                          _ (Ok tt) _ ["tiles/"; "tile_0_0/"; "a_2.las"]
                          eq_refl _)) eq_refl).
  simpl. right. right. left. reflexivity.
Defined.

End RemoteUtilsFacts.

(** ** Strings *)

Module StringFacts.

Lemma startswith_nil (s : string) : startswith s "" = true.
Proof. destruct s; reflexivity. Qed.

Lemma startswith_refl (s : string) : startswith s s = true.
Proof.
  unfold startswith. induction s as [|c s IH]; simpl; [reflexivity|].
  destruct (ascii_dec c c) as [_|Hne]; [exact IH|congruence].
Qed.

Lemma startswith_app (s x : string) : startswith (s ++ x) s = true.
Proof.
  unfold startswith. induction s as [|c s IH]; simpl.
  - destruct x; reflexivity.
  - destruct (ascii_dec c c) as [_|Hne]; [exact IH|congruence].
Qed.

Lemma startswith_trans (a b c : string) :
  startswith b a = true -> startswith c b = true -> startswith c a = true.
Proof.
  unfold startswith. revert b c.
  induction a as [|x a IH]; intros b c Hab Hbc.
  - destruct c; reflexivity.
  - destruct b as [|y b]; [discriminate Hab|].
    destruct c as [|z c]; [discriminate Hbc|].
    simpl in *.
    destruct (ascii_dec x y) as [->|]; [|discriminate Hab].
    destruct (ascii_dec y z) as [->|]; [|discriminate Hbc].
    destruct (ascii_dec z z) as [_|Hne]; [|congruence].
    exact (IH _ _ Hab Hbc).
Qed.

(** A relative name joined to a directory lies under the directory. *)
Lemma os_path_join_under (d name : string) :
  SyncTrace.relative name = true ->
  startswith (RemoteUtils.os_path_join d name) d = true.
Proof.
  unfold SyncTrace.relative, RemoteUtils.os_path_join. intros Hrel.
  apply negb_true_iff in Hrel. rewrite Hrel.
  destruct (String.eqb d "" || RemoteUtils.endswith_slash d);
    apply startswith_app.
Qed.

End StringFacts.

(** ** Remote synchronisation, continued *)

Module SyncMoreFacts.
Import RemoteUtils SyncParts.

Local Open Scope monad_scope.

Lemma confined_weaken (l1 r1 l2 r2 : string) (log : list event) :
  startswith l2 l1 = true -> startswith r2 r1 = true ->
  forallb (SyncTrace.confined l2 r2) log = true ->
  forallb (SyncTrace.confined l1 r1) log = true.
Proof.
  intros Hl Hr Hall. rewrite forallb_forall in *. intros ev Hin.
  specialize (Hall ev Hin).
  destruct ev; simpl in *; try reflexivity;
    try (apply (StringFacts.startswith_trans _ _ _ Hl Hall));
    try (apply (StringFacts.startswith_trans _ _ _ Hr Hall));
    apply andb_prop in Hall; destruct Hall as [Ha Hb];
    rewrite (StringFacts.startswith_trans _ _ _ Hr Ha),
      (StringFacts.startswith_trans _ _ _ Hl Hb); reflexivity.
Qed.

Lemma flat_log_nested_pull (lpath rpath : string) (inner : list event) :
  flat_log [EvPull lpath rpath inner] = flat_log inner.
Proof. unfold flat_log. simpl. apply app_nil_r. Qed.

Lemma flat_log_nested_push (lpath rpath : string) (inner : list event) :
  flat_log [EvPush lpath rpath inner] = flat_log inner.
Proof. unfold flat_log. simpl. apply app_nil_r. Qed.

(** A log that is in order, followed by one that is in order whatever
    came before it, is in order. *)
Lemma in_order_app (allowed : option event -> event -> bool)
    (log1 log2 : list event) :
  (forall prev, SyncTrace.in_order allowed prev log2 = true) ->
  forall prev,
    SyncTrace.in_order allowed prev log1 = true ->
    SyncTrace.in_order allowed prev (log1 ++ log2) = true.
Proof.
  intros H2. induction log1 as [|ev rest IH]; intros prev H1; simpl.
  - apply H2.
  - simpl in H1. apply andb_prop in H1. destruct H1 as [Hev Hrest].
    rewrite Hev. simpl. apply IH. exact Hrest.
Qed.

(** A call that is allowed after anything may stand in front of a log that
    is in order whatever came before it. *)
Lemma in_order_cons (allowed : option event -> event -> bool) (ev : event)
    (log : list event) :
  (forall prev, allowed prev ev = true) ->
  (forall prev, SyncTrace.in_order allowed prev log = true) ->
  forall prev, SyncTrace.in_order allowed prev (ev :: log) = true.
Proof. intros Hev Hlog prev. simpl. rewrite Hev. apply Hlog. Qed.

(** In a log that is in order, every call is allowed after the call right
    before it. *)
Lemma in_order_at (allowed : option event -> event -> bool)
    (before after : list event) (ev : event) :
  forall prev,
    SyncTrace.in_order allowed prev (before ++ ev :: after) = true ->
    allowed (SyncTrace.last_from prev before) ev = true.
Proof.
  induction before as [|x rest IH]; intros prev Hord; simpl in *.
  - apply andb_prop in Hord. destruct Hord as [Hev _]. exact Hev.
  - apply andb_prop in Hord. destruct Hord as [_ Hrest].
    apply IH. exact Hrest.
Qed.

Lemma pull_calls_read_the_remote (log : list event) :
  forallb SyncTrace.pull_call log = true ->
  existsb SyncTrace.writes_remote log = false.
Proof.
  induction log as [|ev log IH]; intros Hk; [reflexivity|].
  simpl in Hk |- *. apply andb_prop in Hk. destruct Hk as [Hev Hlog].
  rewrite (IH Hlog). destruct ev; try discriminate Hev; reflexivity.
Qed.

Lemma push_calls_read_the_local_disk (log : list event) :
  forallb SyncTrace.push_call log = true ->
  existsb SyncTrace.writes_local log = false.
Proof.
  induction log as [|ev log IH]; intros Hk; [reflexivity|].
  simpl in Hk |- *. apply andb_prop in Hk. destruct Hk as [Hev Hlog].
  rewrite (IH Hlog). destruct ev; try discriminate Hev; reflexivity.
Qed.

Section Generic.
Context {L R : Type} `{LocalFS L} `{WebDav R L}.

(** Closes the goals left by the case analysis of a part without
    recursion. *)
Ltac leaf :=
  unfold push_ok, pull_ok, log_ok; cbn [fst snd];
  split; [|split; [|split; [|split]]];
  [ reflexivity
  | intros Hres; first [discriminate Hres | reflexivity]
  | intros Hname _; cbn [flat_log flat_map flat_event app forallb
                           SyncTrace.confined];
    rewrite ?StringFacts.startswith_refl,
      ?(StringFacts.os_path_join_under _ _ Hname);
    try rewrite ?StringFacts.os_path_join_under by assumption;
    reflexivity
  | intros prev; simpl; rewrite ?String.eqb_refl; reflexivity
  | intros e0 He0;
    first [ discriminate He0
          | inversion He0; subst;
            first [ left; reflexivity
                  | right;
                    cbn [flat_log flat_map flat_event app];
                    auto 12 using Exists_cons_hd, Exists_cons_tl ] ] ].

(** *** Pushing *)

Lemma ensure_remote_dir_log_ok (local_dir remote_dir : string) (s : state) :
  push_ok local_dir remote_dir True
    (ensure_remote_dir remote_dir s).
Proof.
  unfold ensure_remote_dir, bind, try_except, check, mkdir, is_dir, print,
    emit, raise, ret.
  destruct s as [l r]; cbn [fst snd].
  destruct (wd_check r remote_dir) as [[[|]|e] r1]; cbn [negb fst snd].
  - destruct (wd_is_dir r1 remote_dir) as [[[|]|e] r2]; leaf.
  - destruct (wd_mkdir r1 remote_dir) as [[[]|e] r2];
      [|destruct (is_WebDavException (exc_class e))]; leaf.
  - leaf.
Qed.

Lemma push_entry_file_log_ok (local_dir remote_dir lrecord : string)
    (s : state) :
  push_ok local_dir remote_dir
    (SyncTrace.relative lrecord = true)
    (push_entry_file local_dir remote_dir lrecord
       (os_path_join remote_dir lrecord) s).
Proof.
  unfold push_entry_file, push_file_to_remote, reraise_after_print, bind,
    try_except, check, clean, upload_sync, print, emit, raise, ret.
  destruct s as [l r]; cbn [fst snd].
  destruct (wd_check r (os_path_join remote_dir lrecord)) as [[[|]|e] r1];
    cbn [fst snd].
  - destruct (wd_clean r1 (os_path_join remote_dir lrecord))
      as [[[]|e] r2]; cbn [fst snd]; [|leaf].
    destruct (wd_check r2 remote_dir) as [[[|]|e] r3]; cbn [fst snd];
      [|leaf|leaf].
    destruct (wd_upload_sync r3 l _ _) as [[[]|e] r4]; cbn [fst snd];
      [|destruct (is_WebDavException (exc_class e))]; leaf.
  - destruct (wd_check r1 remote_dir) as [[[|]|e] r3]; cbn [fst snd];
      [|leaf|leaf].
    destruct (wd_upload_sync r3 l _ _) as [[[]|e] r4]; cbn [fst snd];
      [|destruct (is_WebDavException (exc_class e))]; leaf.
  - leaf.
Qed.

Lemma push_entry_log_ok (d : nat) (local_dir remote_dir lrecord : string)
    (s : state) :
  (forall ld rd s0,
      push_ok ld rd True
        (push_directory_to_remote d ld rd s0)) ->
  push_ok local_dir remote_dir
    (SyncTrace.relative lrecord = true)
    (push_entry (push_directory_to_remote d) local_dir remote_dir lrecord s).
Proof.
  intros IH. unfold push_entry, bind, path_isdir. cbn [fst snd].
  destruct (os_path_isdir (fst s) (os_path_join local_dir lrecord)).
  - unfold nested.
    specialize (IH (os_path_join local_dir lrecord)
                  (os_path_join remote_dir lrecord) s).
    destruct (push_directory_to_remote d _ _ s) as [[res st] inner].
    unfold push_ok, pull_ok, log_ok in *. cbn [fst snd] in *.
    destruct IH as (Hk & Ha & Hc & Ho & Hx).
    rewrite RemoteUtilsFacts.flat_log_app, flat_log_nested_push.
    split; [|split; [|split; [|split]]].
    + simpl. exact Hk.
    + intros Hres. simpl. exact (Ha Hres).
    + intros Hname Hrel. simpl in Hrel |- *.
      rewrite (StringFacts.os_path_join_under _ _ Hname). simpl.
      apply (confined_weaken local_dir remote_dir
               (os_path_join local_dir lrecord)
               (os_path_join remote_dir lrecord));
        auto using StringFacts.os_path_join_under.
    + apply in_order_cons; [reflexivity|exact Ho].
    + intros e He. destruct (Hx e He) as [Hown|Hex]; [left; exact Hown|].
      right. simpl. apply Exists_cons_tl. exact Hex.
  - pose proof (push_entry_file_log_ok local_dir remote_dir lrecord s) as Hf.
    destruct (push_entry_file _ _ _ _ s) as [[res st] log].
    unfold push_ok, pull_ok, log_ok in *. cbn [fst snd] in *.
    destruct Hf as (Hk & Ha & Hc & Ho & Hx).
    split; [|split; [|split; [|split]]].
    + simpl. exact Hk.
    + intros Hres. simpl. exact (Ha Hres).
    + intros Hname Hrel. simpl in Hrel |- *.
      rewrite (StringFacts.os_path_join_under _ _ Hname). simpl.
      exact (Hc Hname Hrel).
    + apply in_order_cons; [reflexivity|exact Ho].
    + intros e He. destruct (Hx e He) as [Hown|Hex]; [left; exact Hown|].
      right. simpl. apply Exists_cons_tl. exact Hex.
Qed.

Lemma push_loop_log_ok (d : nat) (local_dir remote_dir : string) :
  (forall ld rd s0,
      push_ok ld rd True
        (push_directory_to_remote d ld rd s0)) ->
  forall names s res st log,
    Loop.run (push_entry (push_directory_to_remote d) local_dir remote_dir)
      names s res st log ->
    push_ok local_dir remote_dir
      (forallb SyncTrace.relative names = true) (res, st, log).
Proof.
  intros IH names s res st log Hrun. unfold push_ok, pull_ok, log_ok.
  induction Hrun as [s|x rest s e s' log Hb
                     |x rest s s1 log1 res s2 log2 Hb Hrest IHrest];
    cbn [fst snd] in *.
  - split; [|split; [|split; [|split]]]; try reflexivity. discriminate.
  - pose proof (push_entry_log_ok d local_dir remote_dir x s IH) as Hbody.
    rewrite Hb in Hbody. unfold push_ok, pull_ok, log_ok in Hbody.
    cbn [fst snd] in Hbody.
    destruct Hbody as (Hk & _ & Hc & Ho & Hx).
    split; [exact Hk|]. split; [discriminate|]. split; [|split; [exact Ho|]].
    2:{ exact Hx. }
    intros Hnames Hrel. simpl in Hnames.
    apply andb_prop in Hnames. destruct Hnames as [Hn _].
    exact (Hc Hn Hrel).
  - pose proof (push_entry_log_ok d local_dir remote_dir x s IH) as Hbody.
    rewrite Hb in Hbody. unfold push_ok, pull_ok, log_ok in Hbody.
    cbn [fst snd] in Hbody.
    destruct Hbody as (Hk & Ha & Hc & Ho & Hx).
    destruct IHrest as (Hk2 & Ha2 & Hc2 & Ho2 & Hx2).
    rewrite RemoteUtilsFacts.flat_log_app, !forallb_app.
    split; [rewrite Hk, Hk2; reflexivity|].
    split; [|split; [|split]].
    + intros Hres. rewrite (Ha eq_refl), (Ha2 Hres). reflexivity.
    + intros Hnames Hrel. simpl in Hnames.
      apply andb_prop in Hnames. destruct Hnames as [Hn Hrest'].
      apply andb_prop in Hrel. destruct Hrel as [Hr1 Hr2].
      rewrite (Hc Hn Hr1), (Hc2 Hrest' Hr2). reflexivity.
    + intros prev. apply in_order_app; [exact Ho2|apply Ho].
    + intros e He. destruct (Hx2 e He) as [Hown|Hex]; [left; exact Hown|].
      right. apply Exists_app. right. exact Hex.
Qed.

Lemma push_directory_log_ok (d : nat) :
  forall local_dir remote_dir s,
    push_ok local_dir remote_dir True
      (push_directory_to_remote d local_dir remote_dir s).
Proof.
  induction d as [|d IH]; intros local_dir remote_dir s.
  - unfold push_ok, pull_ok, log_ok. simpl.
    split; [|split; [|split; [|split]]]; auto; try discriminate.
    intros e He. inversion He. left. reflexivity.
  - destruct (push_directory_to_remote (S d) local_dir remote_dir s)
      as [[res st] log] eqn:E.
    simpl in E.
    pose proof (ensure_remote_dir_log_ok local_dir remote_dir s) as He.
    apply MonadFacts.bind_inv in E.
    destruct E as [([] & s1 & log1 & log2 & E1 & E2 & ->) | (e & E1 & ->)];
      rewrite E1 in He; [|exact He].
    unfold push_ok, pull_ok, log_ok in He |- *. cbn [fst snd] in He |- *.
    destruct He as (Hk1 & Ha1 & Hc1 & Ho1 & Hx1).
    apply MonadFacts.bind_inv in E2.
    destruct E2 as [(names & s2 & log3 & log4 & E3 & E4 & ->) | (e & E3 & ->)];
      unfold listdir in E3; inversion E3 as [[Ea Es Elog]]; subst.
    + apply MonadFacts.for_each_run in E4.
      apply (@push_loop_log_ok d local_dir remote_dir IH) in E4.
      unfold push_ok, pull_ok, log_ok in E4. cbn [fst snd] in E4.
      destruct E4 as (Hk2 & Ha2 & Hc2 & Ho2 & Hx2).
      rewrite !RemoteUtilsFacts.flat_log_app, !forallb_app. rewrite Ea.
      split; [rewrite Hk1, Hk2; reflexivity|].
      split; [|split; [|split]].
      * intros Hres. rewrite (Ha1 eq_refl), (Ha2 Hres). reflexivity.
      * intros _ Hrel.
        apply andb_prop in Hrel. destruct Hrel as [Hr1 Hr2].
        apply andb_prop in Hr2. destruct Hr2 as [Hr2 Hr3].
        rewrite (Hc1 I Hr1). simpl in Hr2 |- *.
        rewrite StringFacts.startswith_refl. simpl.
        rewrite andb_true_r in Hr2.
        exact (Hc2 Hr2 Hr3).
      * intros prev. apply in_order_app; [|apply Ho1].
        apply in_order_cons; [reflexivity|exact Ho2].
      * intros e He. destruct (Hx2 e He) as [Hown|Hex]; [left; exact Hown|].
        right. apply Exists_app. right. apply Exists_app. right. exact Hex.
    + rewrite !RemoteUtilsFacts.flat_log_app, !forallb_app.
      split; [rewrite Hk1; reflexivity|].
      split; [discriminate|]. split; [|split].
      * intros _ Hrel. apply andb_prop in Hrel. destruct Hrel as [Hr1 _].
        rewrite (Hc1 I Hr1). simpl.
        rewrite StringFacts.startswith_refl. reflexivity.
      * intros prev. apply in_order_app; [|apply Ho1].
        intros p. reflexivity.
      * intros e0 He. inversion He; subst. right.
        apply Exists_app. right. rewrite Ea. simpl.
        apply Exists_cons_hd. reflexivity.
Qed.

(** *** Pulling *)

Lemma pull_entry_log_ok (recur : string -> string -> Sync unit)
    (local_dir remote_dir record : string) (s : state) :
  (forall s0,
      pull_ok
        (os_path_join local_dir record) (os_path_join remote_dir record) True
        (recur (os_path_join local_dir record)
           (os_path_join remote_dir record) s0)) ->
  pull_ok local_dir remote_dir
    (SyncTrace.relative record = true)
    (pull_entry recur local_dir remote_dir record s).
Proof.
  intros IH. unfold pull_entry, bind, is_dir.
  destruct (wd_is_dir (snd s) (os_path_join remote_dir record))
    as [[[|]|e] r1]; cbn [fst snd]; [| |leaf].
  - unfold try_except, nested, reraise_after_print, bind, print, emit, raise.
    specialize (IH (fst s, r1)).
    destruct (recur _ _ (fst s, r1)) as [[res st] inner].
    unfold push_ok, pull_ok, log_ok in IH. cbn [fst snd] in IH.
    destruct IH as (Hk & Ha & Hc & Ho & Hx).
    assert (Hdone :
              pull_ok local_dir remote_dir
                (SyncTrace.relative record = true)
                (res, st,
                 [EvIsDir (os_path_join remote_dir record) (Ok true)]
                   ++ [EvPull (os_path_join local_dir record)
                         (os_path_join remote_dir record) inner])).
    { unfold push_ok, pull_ok, log_ok. cbn [fst snd].
      rewrite RemoteUtilsFacts.flat_log_app, flat_log_nested_pull.
      split; [|split; [|split; [|split]]].
      - simpl. exact Hk.
      - intros Hres. simpl. exact (Ha Hres).
      - intros Hname Hrel. simpl in Hrel |- *.
        rewrite (StringFacts.os_path_join_under _ _ Hname). simpl.
        apply (confined_weaken local_dir remote_dir
                 (os_path_join local_dir record)
                 (os_path_join remote_dir record));
          auto using StringFacts.os_path_join_under.
      - apply in_order_cons; [reflexivity|exact Ho].
      - intros e He. destruct (Hx e He) as [Hown|Hex]; [left; exact Hown|].
        right. simpl. apply Exists_cons_tl. exact Hex. }
    destruct res as [[]|e]; [exact Hdone|].
    destruct (is_WebDavException (exc_class e)); [|exact Hdone].
    cbn [fst snd]. unfold push_ok, pull_ok, log_ok in Hdone |- *.
    cbn [fst snd] in Hdone |- *. destruct Hdone as (Hk' & _ & Hc' & Ho' & Hx').
    rewrite app_nil_r, app_assoc, RemoteUtilsFacts.flat_log_app, !forallb_app.
    split; [rewrite Hk'; reflexivity|]. split; [discriminate|].
    split; [|split].
    + intros Hname Hrel. apply andb_prop in Hrel. destruct Hrel as [Hr1 _].
      rewrite (Hc' Hname Hr1). reflexivity.
    + intros prev. apply in_order_app; [|apply Ho'].
      intros p. reflexivity.
    + intros e0 He. destruct (Hx' e0 He) as [Hown|Hex]; [left; exact Hown|].
      right. apply Exists_app. left. exact Hex.
  - unfold pull_file_from_remote, try_except, reraise_after_print, bind,
      download_file, print, emit, raise.
    cbn [fst snd].
    destruct (wd_download_file r1 (fst s) _ _) as [[[]|e] [r2 l2]];
      cbn [fst snd]; [leaf|].
    destruct (is_WebDavException (exc_class e)) eqn:Ew; cbn [fst snd];
      rewrite ?Ew; leaf.
Qed.

Lemma pull_loop_log_ok (recur : string -> string -> Sync unit)
    (local_dir remote_dir : string) :
  (forall ld rd s0,
      pull_ok ld rd True (recur ld rd s0)) ->
  forall records s res st log,
    Loop.run (pull_entry recur local_dir remote_dir) records s res st log ->
    pull_ok local_dir remote_dir
      (forallb SyncTrace.relative records = true) (res, st, log).
Proof.
  intros IH records s res st log Hrun. unfold push_ok, pull_ok, log_ok.
  induction Hrun as [s|x rest s e s' log Hb
                     |x rest s s1 log1 res s2 log2 Hb Hrest IHrest];
    cbn [fst snd] in *.
  - split; [|split; [|split; [|split]]]; try reflexivity. discriminate.
  - pose proof (pull_entry_log_ok recur local_dir remote_dir x s
                  (IH _ _)) as Hbody.
    rewrite Hb in Hbody. unfold push_ok, pull_ok, log_ok in Hbody.
    cbn [fst snd] in Hbody.
    destruct Hbody as (Hk & _ & Hc & Ho & Hx).
    split; [exact Hk|]. split; [discriminate|]. split; [|split; [exact Ho|]].
    2:{ exact Hx. }
    intros Hnames Hrel. simpl in Hnames.
    apply andb_prop in Hnames. destruct Hnames as [Hn _].
    exact (Hc Hn Hrel).
  - pose proof (pull_entry_log_ok recur local_dir remote_dir x s
                  (IH _ _)) as Hbody.
    rewrite Hb in Hbody. unfold push_ok, pull_ok, log_ok in Hbody.
    cbn [fst snd] in Hbody.
    destruct Hbody as (Hk & Ha & Hc & Ho & Hx).
    destruct IHrest as (Hk2 & Ha2 & Hc2 & Ho2 & Hx2).
    rewrite RemoteUtilsFacts.flat_log_app, !forallb_app.
    split; [rewrite Hk, Hk2; reflexivity|].
    split; [|split; [|split]].
    + intros Hres. rewrite (Ha eq_refl), (Ha2 Hres). reflexivity.
    + intros Hnames Hrel. simpl in Hnames.
      apply andb_prop in Hnames. destruct Hnames as [Hn Hrest'].
      apply andb_prop in Hrel. destruct Hrel as [Hr1 Hr2].
      rewrite (Hc Hn Hr1), (Hc2 Hrest' Hr2). reflexivity.
    + intros prev. apply in_order_app; [exact Ho2|apply Ho].
    + intros e He. destruct (Hx2 e He) as [Hown|Hex]; [left; exact Hown|].
      right. apply Exists_app. right. exact Hex.
Qed.

Lemma pull_directory_log_ok (d : nat) :
  forall local_dir remote_dir s,
    pull_ok local_dir remote_dir True
      (pull_directory_from_remote d local_dir remote_dir s).
Proof.
  induction d as [|d IH]; intros local_dir remote_dir s.
  - unfold push_ok, pull_ok, log_ok. simpl.
    split; [|split; [|split; [|split]]]; auto; try discriminate.
    intros e He. inversion He. left. reflexivity.
  - destruct (pull_directory_from_remote (S d) local_dir remote_dir s)
      as [[res st] log] eqn:E.
    simpl in E.
    apply MonadFacts.bind_inv in E.
    destruct E as [(found & s1 & log1 & log2 & E1 & E2 & ->) | (e & E1 & _)];
      unfold path_exists in E1; inversion E1; subst; clear E1.
    destruct (os_path_exists (fst s1) local_dir).
    { unfold bind, print, emit, raise in E2. inversion E2; subst. leaf. }
    apply MonadFacts.bind_inv in E2.
    destruct E2 as [(present & s2 & log3 & log4 & E3 & E4 & ->) | (e & E3 & ->)];
      unfold try_except, check, reraise_after_print, bind, print, emit, raise
        in E3;
      destruct (wd_check (snd s1) remote_dir) as [[b|e0] r1];
      cbn [fst snd] in E3;
      try (destruct (is_WebDavException (exc_class e0)));
      inversion E3; subst; clear E3; try leaf.
    apply MonadFacts.bind_inv in E4.
    destruct E4 as [(recs & s3 & log5 & log6 & E5 & E6 & ->) | (e & E5 & ->)];
      unfold list_remote in E5; cbn [fst snd] in E5;
      destruct (wd_list r1 remote_dir) as [answer r3];
      inversion E5; subst; clear E5; [|leaf].
    apply MonadFacts.bind_inv in E6.
    destruct E6 as [([] & s4 & log7 & log8 & E7 & E8 & ->) | (e & E7 & ->)];
      unfold makedirs in E7; cbn [fst snd] in E7;
      destruct (os_makedirs (fst s1) local_dir) as [answer l4];
      inversion E7; subst; clear E7; [|leaf].
    apply MonadFacts.for_each_run in E8.
    apply (@pull_loop_log_ok (pull_directory_from_remote d) local_dir
             remote_dir IH) in E8.
    unfold push_ok, pull_ok, log_ok in E8 |- *. cbn [fst snd] in E8 |- *.
    destruct E8 as (Hk & Ha & Hc & Ho & Hx).
    split; [|split; [|split; [|split]]].
    + simpl. exact Hk.
    + intros Hres. simpl. exact (Ha Hres).
    + intros _ Hrel. simpl in Hrel |- *.
      rewrite !StringFacts.startswith_refl. simpl.
      apply andb_prop in Hrel. destruct Hrel as [Hr1 Hr2].
      exact (Hc Hr1 Hr2).
    + intros prev. simpl. apply Ho.
    + intros e He. destruct (Hx e He) as [Hown|Hex]; [left; exact Hown|].
      right. simpl. do 4 apply Exists_cons_tl. exact Hex.
Qed.

(** *** What a pull and a push do, in every environment *)

(** X1 ([pull_directory_from_remote]): a pull calls nothing but [print],
    [os.path.exists], [os.makedirs] and the client's [check], [list],
    [is_dir] and [download_file]; it never makes a remote directory, never
    deletes a remote path and never uploads, whatever the local disk and
    the server answer. *)
Theorem pull_never_writes_to_the_remote (d : nat)
    (local_dir remote_dir : string) (s : state) :
  let log := flat_log (snd (pull_directory_from_remote d local_dir remote_dir s)) in
  forallb SyncTrace.pull_call log = true /\
  existsb SyncTrace.writes_remote log = false.
Proof.
  destruct (pull_directory_log_ok d local_dir remote_dir s) as (Hk & _).
  cbn zeta. split; [exact Hk|].
  apply pull_calls_read_the_remote. exact Hk.
Qed.

(** X2 ([push_directory_to_remote]): a push calls nothing but [print],
    [os.path.isdir], [os.listdir] and the client's [check], [is_dir],
    [mkdir], [clean] and [upload_sync]; it never makes a local directory
    and never downloads, whatever the local disk and the server answer. *)
Theorem push_never_writes_to_the_local_disk (d : nat)
    (local_dir remote_dir : string) (s : state) :
  let log := flat_log (snd (push_directory_to_remote d local_dir remote_dir s)) in
  forallb SyncTrace.push_call log = true /\
  existsb SyncTrace.writes_local log = false.
Proof.
  destruct (push_directory_log_ok d local_dir remote_dir s) as (Hk & _).
  cbn zeta. split; [exact Hk|].
  apply push_calls_read_the_local_disk. exact Hk.
Qed.

(** X3 ([pull_directory_from_remote]): a pull that returns normally printed
    nothing and made no call that raised: no exception of the client or of
    the local disk is swallowed on the way. *)
Theorem pull_completes_only_without_failed_calls (d : nat)
    (local_dir remote_dir : string) (s : state)
    (Hdone : fst (fst (pull_directory_from_remote d local_dir remote_dir s))
             = Ok tt) :
  forallb SyncTrace.answered
    (flat_log (snd (pull_directory_from_remote d local_dir remote_dir s)))
  = true.
Proof.
  destruct (pull_directory_log_ok d local_dir remote_dir s) as (_ & Ha & _).
  exact (Ha Hdone).
Qed.

(** X4 ([push_directory_to_remote]): a push that returns normally printed
    nothing and made no call that raised. *)
Theorem push_completes_only_without_failed_calls (d : nat)
    (local_dir remote_dir : string) (s : state)
    (Hdone : fst (fst (push_directory_to_remote d local_dir remote_dir s))
             = Ok tt) :
  forallb SyncTrace.answered
    (flat_log (snd (push_directory_to_remote d local_dir remote_dir s)))
  = true.
Proof.
  destruct (push_directory_log_ok d local_dir remote_dir s) as (_ & Ha & _).
  exact (Ha Hdone).
Qed.

(** X5 ([pull_directory_from_remote]): when no name of a remote listing,
    after its first record, starts with a slash, every local path the pull
    touches starts with [local_dir] and every remote path it asks for
    starts with [remote_dir]. *)
Theorem pull_stays_under_its_roots (d : nat)
    (local_dir remote_dir : string) (s : state)
    (Hnames : forallb SyncTrace.names_relative
                (flat_log (snd (pull_directory_from_remote d local_dir
                                  remote_dir s))) = true) :
  forallb (SyncTrace.confined local_dir remote_dir)
    (flat_log (snd (pull_directory_from_remote d local_dir remote_dir s)))
  = true.
Proof.
  destruct (pull_directory_log_ok d local_dir remote_dir s)
    as (_ & _ & Hc & _).
  exact (Hc I Hnames).
Qed.

(** X6 ([push_directory_to_remote]): when no name of a local listing starts
    with a slash, every local path the push reads starts with [local_dir]
    and every remote path it checks, makes, deletes or uploads to starts
    with [remote_dir]. *)
Theorem push_stays_under_its_roots (d : nat)
    (local_dir remote_dir : string) (s : state)
    (Hnames : forallb SyncTrace.names_relative
                (flat_log (snd (push_directory_to_remote d local_dir
                                  remote_dir s))) = true) :
  forallb (SyncTrace.confined local_dir remote_dir)
    (flat_log (snd (push_directory_to_remote d local_dir remote_dir s)))
  = true.
Proof.
  destruct (push_directory_log_ok d local_dir remote_dir s)
    as (_ & _ & Hc & _).
  exact (Hc I Hnames).
Qed.

(** X7 ([pull_directory_from_remote], [pull_file_from_remote]): every
    download of a pull comes right after the client's [is_dir] answered
    [False] for the same remote path: nothing is downloaded that the server
    called a directory, or that it was not asked about. *)
Theorem pull_downloads_right_after_is_dir_said_no (d : nat)
    (local_dir remote_dir : string) (s : state)
    (before after : list event) (rpath lpath : string)
    (answer : result unit)
    (Hlog : flat_log (snd (pull_directory_from_remote d local_dir
                             remote_dir s))
            = before ++ EvDownload rpath lpath answer :: after) :
  SyncTrace.last_call before = Some (EvIsDir rpath (Ok false)).
Proof.
  destruct (pull_directory_log_ok d local_dir remote_dir s)
    as (_ & _ & _ & Ho & _).
  specialize (Ho None). unfold state in Hlog. rewrite Hlog in Ho.
  apply in_order_at in Ho. unfold SyncTrace.last_call.
  destruct (SyncTrace.last_from None before) as [ev|]; [|discriminate Ho].
  destruct ev; try discriminate Ho.
  simpl in Ho.
  match type of Ho with
  | context [match ?a with Ok _ => _ | Raise _ => _ end] =>
      destruct a as [[|]|]; try discriminate Ho
  end.
  apply String.eqb_eq in Ho. subst. reflexivity.
Qed.

(** X8 ([pull_directory_from_remote]): every [os.makedirs] of a pull comes
    right after a remote listing that succeeded: no local directory is made
    for a remote directory that could not be listed. *)
Theorem pull_makes_directories_right_after_listing (d : nat)
    (local_dir remote_dir : string) (s : state)
    (before after : list event) (path : string) (answer : result unit)
    (Hlog : flat_log (snd (pull_directory_from_remote d local_dir
                             remote_dir s))
            = before ++ EvMakedirs path answer :: after) :
  exists rpath records,
    SyncTrace.last_call before = Some (EvList rpath (Ok records)).
Proof.
  destruct (pull_directory_log_ok d local_dir remote_dir s)
    as (_ & _ & _ & Ho & _).
  specialize (Ho None). unfold state in Hlog. rewrite Hlog in Ho.
  apply in_order_at in Ho. unfold SyncTrace.last_call.
  destruct (SyncTrace.last_from None before) as [ev|]; [|discriminate Ho].
  destruct ev; try discriminate Ho.
  simpl in Ho.
  match type of Ho with
  | context [match ?a with Ok _ => _ | Raise _ => _ end] =>
      destruct a as [records|]; try discriminate Ho
  end.
  eexists _, records. reflexivity.
Qed.

(** X9 ([push_directory_to_remote], [push_file_to_remote]): every [clean]
    of a push comes right after the client's [check] answered [True] for
    the same remote path: a push deletes nothing but a path it has just
    seen on the server. *)
Theorem push_deletes_right_after_check_said_yes (d : nat)
    (local_dir remote_dir : string) (s : state)
    (before after : list event) (path : string) (answer : result unit)
    (Hlog : flat_log (snd (push_directory_to_remote d local_dir
                             remote_dir s))
            = before ++ EvClean path answer :: after) :
  SyncTrace.last_call before = Some (EvCheck path (Ok true)).
Proof.
  destruct (push_directory_log_ok d local_dir remote_dir s)
    as (_ & _ & _ & Ho & _).
  specialize (Ho None). unfold state in Hlog. rewrite Hlog in Ho.
  apply in_order_at in Ho. unfold SyncTrace.last_call.
  destruct (SyncTrace.last_from None before) as [ev|]; [|discriminate Ho].
  destruct ev; try discriminate Ho.
  simpl in Ho.
  match type of Ho with
  | context [match ?a with Ok _ => _ | Raise _ => _ end] =>
      destruct a as [[|]|]; try discriminate Ho
  end.
  apply String.eqb_eq in Ho. subst. reflexivity.
Qed.

(** X10 ([push_directory_to_remote]): every [mkdir] of a push comes right
    after the client's [check] answered [False] for the same remote path:
    a push makes no remote directory over a path that is there. *)
Theorem push_makes_directories_right_after_check_said_no (d : nat)
    (local_dir remote_dir : string) (s : state)
    (before after : list event) (path : string) (answer : result unit)
    (Hlog : flat_log (snd (push_directory_to_remote d local_dir
                             remote_dir s))
            = before ++ EvMkdir path answer :: after) :
  SyncTrace.last_call before = Some (EvCheck path (Ok false)).
Proof.
  destruct (push_directory_log_ok d local_dir remote_dir s)
    as (_ & _ & _ & Ho & _).
  specialize (Ho None). unfold state in Hlog. rewrite Hlog in Ho.
  apply in_order_at in Ho. unfold SyncTrace.last_call.
  destruct (SyncTrace.last_from None before) as [ev|]; [|discriminate Ho].
  destruct ev; try discriminate Ho.
  simpl in Ho.
  match type of Ho with
  | context [match ?a with Ok _ => _ | Raise _ => _ end] =>
      destruct a as [[|]|]; try discriminate Ho
  end.
  apply String.eqb_eq in Ho. subst. reflexivity.
Qed.

(** X11 ([pull_directory_from_remote]): the exception a pull ends with is a
    [FileExistsError] (the local path exists), a [RecursionError], or the
    very exception with which one of its calls was answered: a pull
    converts no exception into another one. *)
Theorem pull_raises_its_own_or_a_call_s_exception (d : nat)
    (local_dir remote_dir : string) (s : state) (e : exc)
    (Hraise : fst (fst (pull_directory_from_remote d local_dir remote_dir s))
              = Raise e) :
  SyncTrace.pull_own e = true \/
  Exists (fun ev => SyncTrace.raised ev = Some e)
    (flat_log (snd (pull_directory_from_remote d local_dir remote_dir s))).
Proof.
  destruct (pull_directory_log_ok d local_dir remote_dir s)
    as (_ & _ & _ & _ & Hx).
  exact (Hx e Hraise).
Qed.

(** X12 ([push_directory_to_remote]): the exception a push ends with is a
    [FileExistsError], a [FileNotFoundError], a [RemoteResourceNotFound], a
    [RecursionError], or the very exception with which one of its calls was
    answered. *)
Theorem push_raises_its_own_or_a_call_s_exception (d : nat)
    (local_dir remote_dir : string) (s : state) (e : exc)
    (Hraise : fst (fst (push_directory_to_remote d local_dir remote_dir s))
              = Raise e) :
  SyncTrace.push_own e = true \/
  Exists (fun ev => SyncTrace.raised ev = Some e)
    (flat_log (snd (push_directory_to_remote d local_dir remote_dir s))).
Proof.
  destruct (push_directory_log_ok d local_dir remote_dir s)
    as (_ & _ & _ & _ & Hx).
  exact (Hx e Hraise).
Qed.

End Generic.

Import MemoryEnv.

Lemma pull_completes_only_without_failed_calls_witness :
  forallb SyncTrace.answered
    (flat_log (snd (pull_directory_from_remote 5 "tiles" "archive/tiles"
                      (empty_disk, remote_tiles))))
  = true.
Proof.
  apply (@pull_completes_only_without_failed_calls tree tree disk server
           5 "tiles" "archive/tiles" (empty_disk, remote_tiles)).
  vm_compute. reflexivity.
Defined.

Lemma push_completes_only_without_failed_calls_witness :
  forallb SyncTrace.answered
    (flat_log (snd (push_directory_to_remote 5 "out" "archive/out"
                      (local_out, remote_archive))))
  = true.
Proof.
  apply (@push_completes_only_without_failed_calls tree tree disk server
           5 "out" "archive/out" (local_out, remote_archive)).
  vm_compute. reflexivity.
Defined.

Lemma pull_stays_under_its_roots_witness :
  forallb (SyncTrace.confined "tiles" "archive/tiles")
    (flat_log (snd (pull_directory_from_remote 5 "tiles" "archive/tiles"
                      (empty_disk, remote_tiles))))
  = true.
Proof.
  apply (@pull_stays_under_its_roots tree tree disk server
           5 "tiles" "archive/tiles" (empty_disk, remote_tiles)).
  vm_compute. reflexivity.
Defined.

Lemma push_stays_under_its_roots_witness :
  forallb (SyncTrace.confined "out" "archive/out")
    (flat_log (snd (push_directory_to_remote 5 "out" "archive/out"
                      (local_out, remote_archive))))
  = true.
Proof.
  apply (@push_stays_under_its_roots tree tree disk server
           5 "out" "archive/out" (local_out, remote_archive)).
  vm_compute. reflexivity.
Defined.

Lemma pull_downloads_right_after_is_dir_said_no_witness :
  SyncTrace.last_call
    (firstn 10 (flat_log (snd (pull_directory_from_remote 5 "tiles"
                                "archive/tiles" (empty_disk, remote_tiles)))))
  = Some (EvIsDir "archive/tiles/tile_0_0/a_1.las" (Ok false)).
Proof.
  apply (@pull_downloads_right_after_is_dir_said_no tree tree disk server
           5 "tiles" "archive/tiles" (empty_disk, remote_tiles)
           (firstn 10 (flat_log (snd (pull_directory_from_remote 5 "tiles"
                                "archive/tiles" (empty_disk, remote_tiles)))))
           (skipn 11 (flat_log (snd (pull_directory_from_remote 5 "tiles"
                                "archive/tiles" (empty_disk, remote_tiles)))))
           "archive/tiles/tile_0_0/a_1.las" "tiles/tile_0_0/a_1.las" (Ok tt)).
  vm_compute. reflexivity.
Defined.

Lemma pull_makes_directories_right_after_listing_witness :
  exists rpath records,
    SyncTrace.last_call
      (firstn 8 (flat_log (snd (pull_directory_from_remote 5 "tiles"
                                  "archive/tiles"
                                  (empty_disk, remote_tiles)))))
    = Some (EvList rpath (Ok records)).
Proof.
  apply (@pull_makes_directories_right_after_listing tree tree disk server
           5 "tiles" "archive/tiles" (empty_disk, remote_tiles)
           (firstn 8 (flat_log (snd (pull_directory_from_remote 5 "tiles"
                                "archive/tiles" (empty_disk, remote_tiles)))))
           (skipn 9 (flat_log (snd (pull_directory_from_remote 5 "tiles"
                                "archive/tiles" (empty_disk, remote_tiles)))))
           "tiles/tile_0_0/" (Ok tt)).
  vm_compute. reflexivity.
Defined.

Lemma push_deletes_right_after_check_said_yes_witness :
  SyncTrace.last_call
    (firstn 13 (flat_log (snd (push_directory_to_remote 5 "out"
                                 "archive/out"
                                 (local_out, remote_archive)))))
  = Some (EvCheck "archive/out/notes.txt" (Ok true)).
Proof.
  apply (@push_deletes_right_after_check_said_yes tree tree disk server
           5 "out" "archive/out" (local_out, remote_archive)
           (firstn 13 (flat_log (snd (push_directory_to_remote 5 "out"
                                 "archive/out" (local_out, remote_archive)))))
           (skipn 14 (flat_log (snd (push_directory_to_remote 5 "out"
                                 "archive/out" (local_out, remote_archive)))))
           "archive/out/notes.txt" (Ok tt)).
  vm_compute. reflexivity.
Defined.

Lemma push_makes_directories_right_after_check_said_no_witness :
  SyncTrace.last_call
    (firstn 5 (flat_log (snd (push_directory_to_remote 5 "out"
                                "archive/out"
                                (local_out, remote_archive)))))
  = Some (EvCheck "archive/out/tile_0_0" (Ok false)).
Proof.
  apply (@push_makes_directories_right_after_check_said_no tree tree disk
           server
           5 "out" "archive/out" (local_out, remote_archive)
           (firstn 5 (flat_log (snd (push_directory_to_remote 5 "out"
                                 "archive/out" (local_out, remote_archive)))))
           (skipn 6 (flat_log (snd (push_directory_to_remote 5 "out"
                                 "archive/out" (local_out, remote_archive)))))
           "archive/out/tile_0_0" (Ok tt)).
  vm_compute. reflexivity.
Defined.

Lemma pull_raises_its_own_or_a_call_s_exception_witness :
  SyncTrace.pull_own (Exc RemoteResourceNotFound "archive/nothing") = true \/
  Exists (fun ev => SyncTrace.raised ev
                    = Some (Exc RemoteResourceNotFound "archive/nothing"))
    (flat_log (snd (pull_directory_from_remote 5 "tiles" "archive/nothing"
                      (empty_disk, remote_tiles)))).
Proof.
  apply (@pull_raises_its_own_or_a_call_s_exception tree tree disk server
           5 "tiles" "archive/nothing" (empty_disk, remote_tiles)).
  vm_compute. reflexivity.
Defined.

Lemma push_raises_its_own_or_a_call_s_exception_witness :
  SyncTrace.push_own (Exc FileExistsError "") = true \/
  Exists (fun ev => SyncTrace.raised ev = Some (Exc FileExistsError ""))
    (flat_log (snd (push_directory_to_remote 5 "out" "archive/out"
                      (local_out, remote_conflict)))).
Proof.
  apply (@push_raises_its_own_or_a_call_s_exception tree tree disk server
           5 "out" "archive/out" (local_out, remote_conflict)).
  vm_compute. reflexivity.
Defined.

End SyncMoreFacts.

(** ** Pushing onto the in-memory server *)

Module MirrorFacts.
Import RemoteUtils MemoryEnv Mirror.

(** *** Paths as strings and as lists *)

Lemma append_nil_r (s : string) : (s ++ "")%string = s.
Proof. induction s as [|c s IH]; simpl; [reflexivity|]. rewrite IH. reflexivity. Qed.

Lemma append_assoc3 (a b c : string) :
  ((a ++ b) ++ c)%string = (a ++ b ++ c)%string.
Proof. induction a as [|x a IH]; simpl; [reflexivity|]. rewrite IH. reflexivity. Qed.

Lemma split_from_plain (t : string) :
  no_slash t = true ->
  forall acc, (acc ++ t)%string <> "" ->
              FS.split_from t acc = [(acc ++ t)%string].
Proof.
  induction t as [|c t IH]; intros Hns acc Hne; simpl.
  - rewrite append_nil_r in *.
    destruct (String.eqb_spec acc "") as [->|_]; [contradiction Hne|];
      reflexivity.
  - simpl in Hns. apply andb_prop in Hns. destruct Hns as [Hc Ht].
    apply negb_true_iff in Hc. rewrite Hc.
    rewrite (IH Ht).
    + rewrite append_assoc3. reflexivity.
    + rewrite append_assoc3. simpl. destruct acc; discriminate.
Qed.

Lemma split_from_slash (s t : string) :
  forall acc,
    FS.split_from (s ++ "/" ++ t) acc =
    FS.split_from s acc ++ FS.split_from t "".
Proof.
  induction s as [|c s IH]; intros acc; simpl.
  - reflexivity.
  - destruct (Ascii.eqb c "/").
    + rewrite IH, app_assoc. reflexivity.
    + apply IH.
Qed.

Lemma endswith_slash_inv (d : string) :
  endswith_slash d = true -> exists d', d = (d' ++ "/")%string.
Proof.
  induction d as [|c d IH]; simpl; [discriminate|].
  destruct d as [|c' d'].
  - intros Hc. apply Ascii.eqb_eq in Hc. subst c. exists "". reflexivity.
  - intros Hd. destruct (IH Hd) as [d0 Hd0]. exists (String c d0).
    simpl. rewrite <- Hd0. reflexivity.
Qed.

(** Joining a plain name to a directory adds one component. *)
Lemma split_path_join (d name : string) :
  plain name = true ->
  FS.split_path (os_path_join d name) = FS.split_path d ++ [name].
Proof.
  unfold plain, FS.split_path, os_path_join. intros Hp.
  apply andb_prop in Hp. destruct Hp as [Hp Hns].
  apply andb_prop in Hp. destruct Hp as [Hp _].
  apply andb_prop in Hp. destruct Hp as [Hne _].
  apply negb_true_iff in Hne.
  assert (Hname : name <> "").
  { intros ->. discriminate Hne. }
  assert (Hsplit : FS.split_from name "" = [name]).
  { apply (split_from_plain name Hns ""). exact Hname. }
  assert (Habs : startswith name "/" = false).
  { unfold startswith. destruct name as [|c name]; [reflexivity|].
    simpl in Hns. apply andb_prop in Hns. destruct Hns as [Hc _].
    apply negb_true_iff in Hc. cbn [String.prefix].
    destruct (ascii_dec "/" c) as [<-|_]; [discriminate Hc|reflexivity]. }
  rewrite Habs.
  destruct (String.eqb_spec d "") as [->|Hd]; simpl orb.
  - simpl. exact Hsplit.
  - destruct (endswith_slash d) eqn:Es.
    + destruct (endswith_slash_inv d Es) as [d' ->].
      rewrite append_assoc3, split_from_slash.
      replace (d' ++ "/")%string with (d' ++ "/" ++ "")%string
        by reflexivity.
      rewrite split_from_slash. simpl. rewrite app_nil_r, Hsplit.
      reflexivity.
    + rewrite split_from_slash, Hsplit. reflexivity.
Qed.

(** *** The calls, on the in-memory disk and server *)

Lemma check_ref (p : string) (l r : tree) :
  check p (l, r) =
  (Ok (FS.exists_ r (FS.split_path p)), (l, r),
   [EvCheck p (Ok (FS.exists_ r (FS.split_path p)))]).
Proof. reflexivity. Qed.

Lemma path_isdir_ref (p : string) (l r : tree) :
  path_isdir p (l, r) =
  (Ok (FS.is_dir l (FS.split_path p)), (l, r),
   [EvIsdir p (FS.is_dir l (FS.split_path p))]).
Proof. reflexivity. Qed.

(** A test of the remote target that lets the push go on leaves a
    directory there, touching nothing apart from it. *)
Lemma ensure_remote_dir_ref (remote_dir : string) (l r : tree)
    (st : tree * tree) (log : list event) :
  ensure_remote_dir remote_dir (l, r) = (Ok tt, st, log) ->
  fst st = l /\
  (exists res,
      FS.lookup (snd st) (FS.split_path remote_dir) = Some (FS.Dir res)) /\
  (forall q, FS.apart (FS.split_path remote_dir) q ->
             FS.lookup (snd st) q = FS.lookup r q).
Proof.
  unfold ensure_remote_dir, bind. rewrite check_ref. cbv beta iota.
  destruct (FS.exists_ r (FS.split_path remote_dir)) eqn:Ex; cbn [negb].
  - unfold is_dir. cbn [fst snd wd_is_dir server]. unfold server_is_dir.
    destruct (FS.lookup r (FS.split_path remote_dir)) as [[text|res]|] eqn:El;
      cbn; intros E; inversion E; subst.
    split; [reflexivity|]. split; [exists res; exact El|].
    intros q _. reflexivity.
  - unfold try_except, mkdir. cbn [fst snd wd_mkdir server].
    unfold server_mkdir.
    destruct (FS.put r (FS.split_path remote_dir) (FS.Dir [])) as [r1|] eqn:Ep;
      cbn; intros E; inversion E; subst.
    split; [reflexivity|]. split.
    + exists []. apply (FSFacts.lookup_put _ _ _ Ep).
    + intros q Hq. apply (@FSFrameFacts.put_frame _ _ _ _ _ _ Ep Hq).
Qed.

Section Entry.
Variable recur : string -> string -> M (tree * tree) event unit.
Variable l : tree.

Hypothesis recur_mirrors :
  forall local_dir remote_dir r st log es,
    FS.lookup l (FS.split_path local_dir) = Some (FS.Dir es) ->
    well_formed (FS.Dir es) ->
    recur local_dir remote_dir (l, r) = (Ok tt, st, log) ->
    push_spec l r remote_dir es st.

(** One turn of the loop leaves a mirror of its entry under the name of
    the entry. *)
Lemma push_entry_mirrors (local_dir remote_dir name : string)
    (child r : tree) (st : tree * tree) (log : list event) :
  plain name = true -> well_formed child ->
  FS.lookup l (FS.split_path local_dir ++ [name]) = Some child ->
  push_entry recur local_dir remote_dir name (l, r) = (Ok tt, st, log) ->
  fst st = l /\
  (exists rc,
      FS.lookup (snd st) (FS.split_path remote_dir ++ [name]) = Some rc /\
      mirrored child rc) /\
  (forall q, FS.apart (FS.split_path remote_dir ++ [name]) q ->
             FS.lookup (snd st) q = FS.lookup r q).
Proof.
  intros Hplain Hwf Hchild.
  unfold push_entry, bind at 1. rewrite path_isdir_ref. cbv beta iota.
  rewrite (split_path_join local_dir name Hplain).
  unfold FS.is_dir. rewrite Hchild.
  destruct child as [text|es'].
  - (* a file: delete what is there, then upload *)
    unfold push_entry_file, bind at 1. rewrite check_ref. cbv beta iota.
    rewrite (split_path_join remote_dir name Hplain).
    set (rpath := FS.split_path remote_dir ++ [name]) in *.
    set (r1 := if FS.exists_ r rpath then FS.remove r rpath else r).
    assert (Hframe1 : forall q, FS.apart rpath q ->
                                FS.lookup r1 q = FS.lookup r q).
    { intros q Hq. subst r1. destruct (FS.exists_ r rpath);
        [apply (@FSFrameFacts.remove_frame _ _ _ _ Hq)|reflexivity]. }
    unfold bind at 1.
    assert (Hr1 : r1 = if FS.exists_ r rpath then FS.remove r rpath else r)
      by reflexivity.
    clearbody r1.
    destruct (FS.exists_ r rpath);
      [unfold clean; cbn [fst snd wd_clean server];
       rewrite (split_path_join remote_dir name Hplain); fold rpath
      |unfold ret];
      rewrite <- Hr1; clear Hr1; cbv beta iota.
    all: unfold push_file_to_remote, bind at 1; rewrite check_ref;
      cbv beta iota.
    all: destruct (FS.exists_ r1 (FS.split_path remote_dir));
      [|cbn; intros E; discriminate E].
    all: unfold try_except, upload_sync; cbn [fst snd wd_upload_sync server];
      unfold server_upload;
      rewrite (split_path_join local_dir name Hplain), Hchild;
      rewrite (split_path_join remote_dir name Hplain); fold rpath.
    all: destruct (FS.put r1 rpath (FS.File text)) as [r2|] eqn:Ep;
      [|cbn; intros E; discriminate E].
    all: intros E; inversion E; subst; cbn [fst snd].
    all: split; [reflexivity|]; split;
      [ exists (FS.File text); split;
        [apply (FSFacts.lookup_put _ _ _ Ep)|apply mirrored_file]
      | intros q Hq; rewrite (@FSFrameFacts.put_frame _ _ _ _ _ _ Ep Hq);
        first [reflexivity | apply Hframe1; exact Hq] ].
  - (* a directory: the recursive call *)
    unfold nested.
    destruct (recur (os_path_join local_dir name)
                (os_path_join remote_dir name) (l, r))
      as [[res st'] log'] eqn:Er.
    intros E. inversion E; subst.
    assert (Hl : FS.lookup l (FS.split_path (os_path_join local_dir name))
                 = Some (FS.Dir es')).
    { rewrite (split_path_join local_dir name Hplain). exact Hchild. }
    destruct (@recur_mirrors _ _ _ _ _ _ Hl Hwf Er) as (Hfst & Hmir & Hframe).
    rewrite (split_path_join remote_dir name Hplain) in Hmir, Hframe.
    split; [exact Hfst|]. split; [exact Hmir|exact Hframe].
Qed.

(** The loop leaves a mirror of every entry it was given. *)
Lemma push_loop_mirrors (local_dir remote_dir : string)
    (part : list (string * tree)) :
  NoDup (map fst part) ->
  (forall name child,
      In (name, child) part ->
      plain name = true /\ well_formed child /\
      FS.lookup l (FS.split_path local_dir ++ [name]) = Some child) ->
  forall r st log,
    Loop.run (push_entry recur local_dir remote_dir) (map fst part)
      (l, r) (Ok tt) st log ->
    fst st = l /\
    (forall name child,
        In (name, child) part ->
        exists rc,
          FS.lookup (snd st) (FS.split_path remote_dir ++ [name]) = Some rc /\
          mirrored child rc) /\
    (forall q,
        (forall name, In name (map fst part) ->
                      FS.apart (FS.split_path remote_dir ++ [name]) q) ->
        FS.lookup (snd st) q = FS.lookup r q).
Proof.
  induction part as [|[name child] rest IH]; intros Hnd Hpart r st log Hrun.
  - inversion Hrun; subst. cbn [fst snd].
    split; [reflexivity|]. split; [intros ? ? []|]. intros q _. reflexivity.
  - simpl in Hrun. inversion Hrun as [| |x xs s s1 log1 res s2 log2 Hb Hrest];
      subst.
    inversion Hnd as [|? ? Hnotin Hnd']; subst.
    destruct (Hpart name child (or_introl eq_refl)) as (Hplain & Hwf & Hchild).
    destruct s1 as [l1 r1].
    destruct (@push_entry_mirrors _ _ _ _ _ _ _ Hplain Hwf Hchild Hb)
      as (Hl1 & (rc & Hrc & Hmir) & Hframe1).
    cbn [fst snd] in Hl1, Hrc, Hframe1. subst l1.
    assert (Hpart' : forall name0 child0,
               In (name0, child0) rest ->
               plain name0 = true /\ well_formed child0 /\
               FS.lookup l (FS.split_path local_dir ++ [name0]) = Some child0).
    { intros n0 c0 Hin. apply Hpart. right. exact Hin. }
    destruct (IH Hnd' Hpart' r1 st _ Hrest) as (Hl2 & Hmirs & Hframe2).
    split; [exact Hl2|]. split.
    + intros n0 c0 [Heq|Hin].
      * inversion Heq; subst n0 c0. exists rc. split; [|exact Hmir].
        rewrite Hframe2; [exact Hrc|].
        intros n1 Hn1. apply FSFrameFacts.apart_siblings.
        intros ->. apply Hnotin. exact Hn1.
      * apply Hmirs. exact Hin.
    + intros q Hq. rewrite Hframe2.
      * apply Hframe1. apply Hq. left. reflexivity.
      * intros n1 Hn1. apply Hq. right. exact Hn1.
Qed.

End Entry.


(** *** The whole push *)

Lemma listdir_ref (p : string) (l r : tree) (es : list (string * tree)) :
  FS.lookup l (FS.split_path p) = Some (FS.Dir es) ->
  listdir p (l, r) = (Ok (map fst es), (l, r), [EvListdir p (Ok (map fst es))]).
Proof.
  intros El. unfold listdir. cbn [fst snd os_listdir disk].
  unfold disk_listdir. rewrite El. reflexivity.
Qed.

(** A completed push leaves a mirror of the local directory at the remote
    target, and nothing else is changed. *)
Lemma push_mirrors_ref (depth : nat) :
  forall (local_dir remote_dir : string) (l r : tree) (st : tree * tree)
         (log : list event) (es : list (string * tree)),
    FS.lookup l (FS.split_path local_dir) = Some (FS.Dir es) ->
    well_formed (FS.Dir es) ->
    push_directory_to_remote depth local_dir remote_dir (l, r)
    = (Ok tt, st, log) ->
    push_spec l r remote_dir es st.
Proof.
  induction depth as [|d IH];
    intros local_dir remote_dir l r st log es Hl Hwf E.
  - discriminate E.
  - cbn [push_directory_to_remote] in E.
    apply MonadFacts.bind_inv in E.
    destruct E as [([] & s1 & log1 & log2 & E1 & E2 & ->) | (e & _ & He)];
      [|discriminate He].
    destruct s1 as [l1 r1].
    destruct (@ensure_remote_dir_ref _ _ _ _ _ E1) as (Hl1 & (res1 & Hdir1) & Hfr1).
    cbn [fst snd] in Hl1, Hdir1, Hfr1. subst l1.
    apply MonadFacts.bind_inv in E2.
    destruct E2 as [(names & s2 & log3 & log4 & E3 & E4 & ->) | (e & E3 & _)];
      rewrite (@listdir_ref local_dir l r1 es Hl) in E3;
      [|discriminate E3].
    inversion E3; subst; clear E3.
    apply MonadFacts.for_each_run in E4.
    inversion Hwf as [|es0 Hnd Hentries]; subst.
    assert (Hpart : forall name child,
               In (name, child) es ->
               plain name = true /\ well_formed child /\
               FS.lookup l (FS.split_path local_dir ++ [name]) = Some child).
    { intros name child Hin. destruct (Hentries name child Hin) as [Hp Hw].
      split; [exact Hp|]. split; [exact Hw|].
      rewrite FSFacts.lookup_app, Hl. cbn [FS.lookup].
      pose proof (FSFacts.assoc_In name child es Hnd Hin) as Ha.
      unfold tree in *. rewrite Ha. reflexivity. }
    assert (Hrec : forall local_dir0 remote_dir0 r0 st0 log0 es0,
               FS.lookup l (FS.split_path local_dir0) = Some (FS.Dir es0) ->
               well_formed (FS.Dir es0) ->
               push_directory_to_remote d local_dir0 remote_dir0 (l, r0)
               = (Ok tt, st0, log0) ->
               push_spec l r0 remote_dir0 es0 st0).
    { intros. eapply IH; eassumption. }
    destruct (@push_loop_mirrors (push_directory_to_remote d) l Hrec
                local_dir remote_dir es Hnd Hpart r1 st _ E4)
      as (Hfst & Hmirs & Hframe).
    assert (Hfr : forall q, FS.apart (FS.split_path remote_dir) q ->
                            FS.lookup (snd st) q = FS.lookup r q).
    { intros q Hq. rewrite Hframe; [exact (Hfr1 q Hq)|].
      intros name _. apply FSFrameFacts.apart_child. exact Hq. }
    assert (Hdir : exists res,
               FS.lookup (snd st) (FS.split_path remote_dir)
               = Some (FS.Dir res)).
    { destruct es as [|[name child] rest].
      - inversion E4; subst. exists res1. exact Hdir1.
      - destruct (Hmirs name child (or_introl eq_refl)) as (rc & Hrc & _).
        destruct (@FSFrameFacts.lookup_child _ _ _ _ _ Hrc) as (res & Hres & _).
        exists res. exact Hres. }
    destruct Hdir as (res & Hres).
    split; [exact Hfst|]. split; [|exact Hfr].
    exists (FS.Dir res). split; [exact Hres|].
    constructor. intros name child Hin.
    destruct (Hmirs name child Hin) as (rc & Hrc & Hmir).
    exists rc. split; [|exact Hmir].
    rewrite FSFacts.lookup_app, Hres in Hrc. cbn [FS.lookup] in Hrc.
    unfold tree in *.
    destruct (FS.assoc name res) as [m|] eqn:Ea; [|discriminate Hrc].
    injection Hrc as ->. first [reflexivity | exact Ea].
Qed.

Lemma triple_eta {A B C : Type} (x : A * B * C) :
  x = (fst (fst x), snd (fst x), snd x).
Proof. destruct x as [[a b] c]. reflexivity. Qed.

(** After a negative test of the target and a [mkdir] that succeeded, the
    push goes on in the store that [mkdir] returned. *)
Lemma push_continues_after_mkdir {L R : Type} `{LocalFS L} `{WebDav R L}
    (depth : nat) (local_dir remote_dir : string) (l : L) (r r1 r2 : R) :
  wd_check r remote_dir = (Ok false, r1) ->
  wd_mkdir r1 remote_dir = (Ok tt, r2) ->
  push_directory_to_remote (S depth) local_dir remote_dir (l, r) =
  (fst (fst (PushParts.push_entries depth local_dir remote_dir (l, r2))),
   snd (fst (PushParts.push_entries depth local_dir remote_dir (l, r2))),
   EvCheck remote_dir (Ok false) :: EvMkdir remote_dir (Ok tt)
     :: snd (PushParts.push_entries depth local_dir remote_dir (l, r2))).
Proof.
  intros Hck Hmk. cbn [push_directory_to_remote].
  unfold bind at 1. unfold ensure_remote_dir, bind at 1, check at 1.
  cbn [fst snd]. rewrite Hck. cbn [negb].
  unfold try_except, mkdir. cbn [fst snd]. rewrite Hmk.
  fold (PushParts.push_entries depth local_dir remote_dir).
  destruct (PushParts.push_entries depth local_dir remote_dir (l, r2))
    as [[res st] rest].
  reflexivity.
Qed.



(** C6.  For any local disk and any client: when [check] says that the
    remote target is absent the next call is [mkdir] on it (a WebDAV
    failure of which becomes FileNotFoundError), and after a [mkdir] that
    succeeded the push goes on, with the listing of the local directory,
    in the store that [mkdir] returned; when the target is present but
    [is_dir] says it is not a directory the push raises FileExistsError
    with nothing done but the two queries and a message, so no upload is
    attempted.  On the in-memory server: a target that is absent, under a
    parent that is a directory, is made an empty directory before the rest
    of the push runs, with nothing changed apart from it; and when a push
    completes, the target is a directory of the store it leaves. *)
Theorem push_creates_the_remote_target :
  (forall (L R : Type) (HL : LocalFS L) (HR : WebDav R L)
          (depth : nat) (local_dir remote_dir : string) (l : L) (r : R),
      (forall r1 answer r2,
          wd_check r remote_dir = (Ok false, r1) ->
          wd_mkdir r1 remote_dir = (answer, r2) ->
          (exists res st rest,
              push_directory_to_remote (S depth) local_dir remote_dir (l, r) =
              (res, st,
               EvCheck remote_dir (Ok false) :: EvMkdir remote_dir answer
                 :: rest)
              /\ (answer = Ok tt ->
                  PushParts.push_entries depth local_dir remote_dir (l, r2)
                  = (res, st, rest) /\
                  exists more,
                    rest = EvListdir local_dir (os_listdir l local_dir)
                             :: more)
              /\ (forall e, answer = Raise e ->
                  is_WebDavException (exc_class e) = true ->
                  res = Raise (Exc FileNotFoundError "") /\
                  rest = [EvPrint "failed to create remote directory"]))) /\
      (forall r1 r2,
          wd_check r remote_dir = (Ok true, r1) ->
          wd_is_dir r1 remote_dir = (Ok false, r2) ->
          push_directory_to_remote (S depth) local_dir remote_dir (l, r) =
          (Raise (Exc FileExistsError ""), (l, r2),
           [EvCheck remote_dir (Ok true); EvIsDir remote_dir (Ok false);
            EvPrint
              "A record exits at {} on the remote fs which is not a directory."])))
  /\
  (forall (depth : nat) (local_dir remote_dir : string) (l r : tree)
          (res : result unit) (st : tree * tree) (log : list event),
      FS.exists_ r (FS.split_path remote_dir) = false ->
      FS.is_dir r (FS.parent (FS.split_path remote_dir)) = true ->
      push_directory_to_remote (S depth) local_dir remote_dir (l, r)
      = (res, st, log) ->
      exists r1 rest,
        FS.put r (FS.split_path remote_dir) (FS.Dir []) = Some r1 /\
        FS.lookup r1 (FS.split_path remote_dir) = Some (FS.Dir []) /\
        (forall q, FS.apart (FS.split_path remote_dir) q ->
                   FS.lookup r1 q = FS.lookup r q) /\
        log = EvCheck remote_dir (Ok false) :: EvMkdir remote_dir (Ok tt)
                :: rest /\
        PushParts.push_entries depth local_dir remote_dir (l, r1)
        = (res, st, rest)) /\
  (forall (depth : nat) (local_dir remote_dir : string) (l r : tree)
          (st : tree * tree) (log : list event) (es : list (string * tree)),
      FS.lookup l (FS.split_path local_dir) = Some (FS.Dir es) ->
      well_formed (FS.Dir es) ->
      push_directory_to_remote depth local_dir remote_dir (l, r)
      = (Ok tt, st, log) ->
      FS.is_dir (snd st) (FS.split_path remote_dir) = true).
Proof.
  split; [|split].
  - intros L R HL HR depth local_dir remote_dir l r.
    destruct (RemoteUtilsFacts.push_target_calls depth local_dir remote_dir
                l r) as [Hmake Hreject].
    split; [|exact Hreject].
    intros r1 answer r2 Hck Hmk.
    destruct (Hmake r1 answer r2 Hck Hmk) as (res & st & rest & E & Hok & Hno).
    exists res, st, rest. split; [exact E|]. split; [|exact Hno].
    intros ->. split; [|exact (Hok eq_refl)].
    rewrite (@push_continues_after_mkdir _ _ _ _ depth local_dir remote_dir
               l r r1 r2 Hck Hmk) in E.
    inversion E; subst. apply triple_eta.
  - intros depth local_dir remote_dir l r res st log Hex Hparent E.
    assert (Hne : FS.split_path remote_dir <> []).
    { intros Hnil. rewrite Hnil in Hex. discriminate Hex. }
    destruct (@FSFacts.put_in_dir string r (FS.Dir [])
                (FS.parent (FS.split_path remote_dir))
                (FS.name (FS.split_path remote_dir)) Hparent) as [r1 Hput].
    unfold FS.parent, FS.name in Hput.
    rewrite <- (app_removelast_last "" Hne) in Hput.
    exists r1, (snd (PushParts.push_entries depth local_dir remote_dir (l, r1))).
    split; [exact Hput|].
    split; [apply (FSFacts.lookup_put _ _ _ Hput)|].
    split; [intros q Hq; apply (@FSFrameFacts.put_frame _ _ _ _ _ _ Hput Hq)|].
    assert (Hck : wd_check r remote_dir = (Ok false, r)).
    { cbn [wd_check server]. rewrite Hex. reflexivity. }
    assert (Hmk : wd_mkdir r remote_dir = (Ok tt, r1)).
    { cbn [wd_mkdir server]. unfold server_mkdir. rewrite Hput. reflexivity. }
    rewrite (@push_continues_after_mkdir _ _ _ _ depth local_dir remote_dir
               l r r r1 Hck Hmk) in E.
    inversion E; subst. split; [reflexivity|].
    apply triple_eta.
  - intros depth local_dir remote_dir l r st log es Hl Hwf E.
    destruct (@push_mirrors_ref depth local_dir remote_dir l r st log es Hl Hwf E)
      as (_ & (n & Hn & Hmir) & _).
    inversion Hmir; subst. unfold FS.is_dir. unfold tree in *.
    rewrite Hn. reflexivity.
Qed.

(** *** On the small stores *)

Ltac wf_tree :=
  first
    [ apply wf_file
    | apply wf_dir;
      [ repeat constructor; simpl; intuition discriminate
      | let name := fresh "name" in
        let child := fresh "child" in
        let Hin := fresh "Hin" in
        intros name child Hin; simpl in Hin;
        repeat (destruct Hin as [Hin|Hin];
                [inversion Hin; subst; split; [reflexivity|wf_tree]|]);
        destruct Hin ] ].

Lemma local_out_is_well_formed :
  well_formed
    (FS.Dir [("tile_0_0", FS.Dir [("a_1.las", FS.File "points-1")]);
             ("notes.txt", FS.File "new")]).
Proof. wf_tree. Qed.


(** The push of [out] onto [archive/new], which is not there, and onto
    [archive/out] where that is a plain file. *)
Lemma push_creates_the_remote_target_witness :
  FS.exists_ remote_archive ["archive"; "new"] = false /\
  FS.is_dir
    (snd (snd (fst (push_directory_to_remote 5 "out" "archive/new"
                      (local_out, remote_archive)))))
    ["archive"; "new"] = true /\
  push_directory_to_remote 5 "out" "archive/out" (local_out, remote_conflict) =
  (Raise (Exc FileExistsError ""), (local_out, remote_conflict),
   [EvCheck "archive/out" (Ok true); EvIsDir "archive/out" (Ok false);
    EvPrint "A record exits at {} on the remote fs which is not a directory."]).
Proof.
  split; [reflexivity|]. split.
  - set (out := push_directory_to_remote 5 "out" "archive/new"
                  (local_out, remote_archive)).
    assert (E : out = (Ok tt, snd (fst out), snd out))
      by (vm_compute; reflexivity).
    exact (proj2 (proj2 push_creates_the_remote_target) 5%nat "out"
             "archive/new" local_out remote_archive (snd (fst out)) (snd out)
             [("tile_0_0", FS.Dir [("a_1.las", FS.File "points-1")]);
              ("notes.txt", FS.File "new")]
             eq_refl local_out_is_well_formed E).
  - exact (proj2 (proj1 push_creates_the_remote_target tree tree disk server
                    4%nat "out" "archive/out" local_out remote_conflict)
             remote_conflict remote_conflict eq_refl eq_refl).
Defined.

End MirrorFacts.

(** ** The options of the WebDAV client *)

Module RemoteOptionsFacts.
Import RemoteOptions.

Lemma assoc_none_notin {A} (k : string) (d : list (string * A)) :
  ~ In k (map fst d) -> FS.assoc k d = None.
Proof.
  induction d as [|[y b] rest IH]; intros Hnot; simpl; [reflexivity|].
  destruct (String.eqb k y) eqn:Ek.
  - apply String.eqb_eq in Ek. subst. exfalso. apply Hnot. left. reflexivity.
  - apply IH. intros Hin. apply Hnot. right. exact Hin.
Qed.

Lemma assoc_set_entry {A} (k x : string) (v : A) (d : list (string * A)) :
  FS.assoc k (FS.set_entry x v d) =
  if String.eqb k x then Some v else FS.assoc k d.
Proof.
  induction d as [|[y b] rest IH]; simpl.
  - destruct (String.eqb k x); reflexivity.
  - destruct (String.eqb x y) eqn:Exy; simpl.
    + apply String.eqb_eq in Exy. subst y.
      destruct (String.eqb k x); reflexivity.
    + destruct (String.eqb k y) eqn:Eky.
      * apply String.eqb_eq in Eky. subst y.
        rewrite String.eqb_sym, Exy. reflexivity.
      * exact IH.
Qed.

Lemma assoc_remove_entry {A} (k x : string) (d : list (string * A)) :
  NoDup (map fst d) ->
  FS.assoc k (FS.remove_entry x d) =
  if String.eqb k x then None else FS.assoc k d.
Proof.
  induction d as [|[y b] rest IH]; intros Hnd; simpl.
  - destruct (String.eqb k x); reflexivity.
  - inversion Hnd as [|? ? Hnot Hrest]; subst.
    destruct (String.eqb x y) eqn:Exy; simpl.
    + apply String.eqb_eq in Exy. subst y.
      destruct (String.eqb k x) eqn:Ekx; [|reflexivity].
      apply String.eqb_eq in Ekx. subst k.
      apply assoc_none_notin. exact Hnot.
    + destruct (String.eqb k y) eqn:Eky.
      * apply String.eqb_eq in Eky. subst y.
        rewrite String.eqb_sym, Exy. reflexivity.
      * exact (IH Hrest).
Qed.

(** [d.update(other)]: the entries of [other] win. *)
Lemma assoc_update (k : string) (other d : dict) :
  well_formed other ->
  FS.assoc k (update d other) =
  match FS.assoc k other with
  | Some v => Some v
  | None => FS.assoc k d
  end.
Proof.
  unfold update, well_formed. revert d.
  induction other as [|[x v] rest IH]; intros d Hnd; simpl; [reflexivity|].
  inversion Hnd as [|? ? Hnot Hrest]; subst.
  rewrite (IH _ Hrest), assoc_set_entry.
  destruct (String.eqb k x) eqn:Ekx.
  - apply String.eqb_eq in Ekx. subst k.
    rewrite (assoc_none_notin _ _ Hnot). reflexivity.
  - reflexivity.
Qed.

(** X19 ([check_options]): a dictionary is let through exactly when it
    has the three keys [webdav_login], [webdav_password] and
    [webdav_hostname], and then nothing is printed; otherwise RuntimeError
    is raised after one line per missing key and one closing line. *)
Theorem check_options_accepts_exactly_complete_options (d : dict) :
  (fst (check_options (OptDict d)) = Ok tt <-> complete d = true) /\
  (complete d = true -> snd (check_options (OptDict d)) = []) /\
  (complete d = false ->
   fst (check_options (OptDict d)) = Raise (Exc RuntimeError "") /\
   List.length (snd (check_options (OptDict d))) = S (missing d)).
Proof.
  unfold check_options, complete, missing, report. simpl.
  destruct (has_key "webdav_login" d), (has_key "webdav_password" d),
    (has_key "webdav_hostname" d); simpl;
    (split; [split; intros E; first [reflexivity|discriminate E]|]);
    (split; [intros E; first [reflexivity|discriminate E]|]);
    intros E; first [discriminate E|split; reflexivity].
Qed.

(** X20 ([check_options]): a dictionary that lacks only the key
    [webdav_hostname] is rejected with a report that names the key
    [webdav_password], which it has; no line names the missing key. *)
Theorem missing_hostname_is_reported_as_password (d : dict)
    (Hlogin : has_key "webdav_login" d = true)
    (Hpassword : has_key "webdav_password" d = true)
    (Hhost : has_key "webdav_hostname" d = false) :
  check_options (OptDict d) =
  (Raise (Exc RuntimeError ""),
   [("missing " ++ dq ++ "webdav_password" ++ dq ++ " key.")%string;
    insufficient]).
Proof.
  unfold check_options, report. rewrite Hlogin, Hpassword, Hhost.
  reflexivity.
Qed.

Section Files.
Variable file_exists : string -> bool.
Variable get_args_from_configfile : string -> result dict.

(** X21 ([get_options_from_file]): when the configuration names an
    authentication file that can be read, the options are those of both
    files: a key of the authentication file has the value given there, any
    other key has the value of the configuration file, and the key
    [authenticationfile] is gone unless the authentication file has one of
    its own. *)
Theorem get_options_from_file_merges_the_credentials
    (file authenticationfile : string) (args authentication : dict)
    (Hargs : get_args_from_configfile file = Ok args)
    (Hwf : well_formed args)
    (Hkey : FS.assoc "authenticationfile" args = Some authenticationfile)
    (Hexists : file_exists authenticationfile = true)
    (Hauth : get_args_from_configfile authenticationfile = Ok authentication)
    (Hwf' : well_formed authentication) :
  exists merged,
    get_options_from_file file_exists get_args_from_configfile file
    = Ok merged /\
    forall k,
      FS.assoc k merged =
      match FS.assoc k authentication with
      | Some v => Some v
      | None =>
          if String.eqb k "authenticationfile" then None
          else FS.assoc k args
      end.
Proof.
  unfold get_options_from_file, check_file_exists.
  rewrite Hargs, Hkey, Hexists, Hauth.
  eexists. split; [reflexivity|].
  intros k. rewrite (@assoc_update k _ _ Hwf'). unfold pop.
  rewrite (@assoc_remove_entry _ k _ _ Hwf). reflexivity.
Qed.

(** X22 ([get_wdclient], [check_options]): a client is built only from
    options that have the three keys, wherever they come from, and then
    nothing was printed. *)
Theorem get_wdclient_builds_only_from_complete_options
    (o : options) (d : dict)
    (Hclient : fst (get_wdclient file_exists get_args_from_configfile o)
               = Ok d) :
  complete d = true /\
  snd (get_wdclient file_exists get_args_from_configfile o) = [].
Proof.
  assert (Hcheck : forall d0 d1,
             fst (match check_options (OptDict d0) with
                  | (Ok _, printed) => (Ok d0, printed)
                  | (Raise e, printed) => (Raise e, printed)
                  end) = Ok d1 ->
             complete d1 = true /\
             snd (match check_options (OptDict d0) with
                  | (Ok _, printed) => (Ok d0, printed)
                  | (Raise e, printed) => (Raise e, printed)
                  end) = []).
  { intros d0 d1.
    destruct (check_options_accepts_exactly_complete_options d0)
      as (Hiff & Hquiet & _).
    destruct (check_options (OptDict d0)) as [[[]|e] printed] eqn:Ec;
      simpl in *; intros E; [|discriminate E].
    inversion E; subst.
    assert (Hc : complete d1 = true) by (apply Hiff; reflexivity).
    split; [exact Hc|exact (Hquiet Hc)]. }
  destruct o as [file|d0|ty r]; simpl in Hclient |- *.
  - destruct (check_file_exists file_exists file); [|discriminate Hclient].
    destruct (get_options_from_file _ _ file) as [d0|e];
      [|discriminate Hclient].
    exact (Hcheck d0 d Hclient).
  - exact (Hcheck d0 d Hclient).
  - discriminate Hclient.
Qed.

End Files.

Lemma missing_hostname_is_reported_as_password_witness :
  check_options (OptDict auth_file) =
  (Raise (Exc RuntimeError ""),
   [("missing " ++ dq ++ "webdav_password" ++ dq ++ " key.")%string;
    insufficient]).
Proof.
  apply (@missing_hostname_is_reported_as_password auth_file);
    reflexivity.
Defined.

Lemma get_options_from_file_merges_the_credentials_witness :
  exists merged,
    get_options_from_file on_disk read_file "remote.cfg" = Ok merged /\
    forall k,
      FS.assoc k merged =
      match FS.assoc k auth_file with
      | Some v => Some v
      | None =>
          if String.eqb k "authenticationfile" then None
          else FS.assoc k config_file
      end.
Proof.
  apply (@get_options_from_file_merges_the_credentials on_disk read_file
           "remote.cfg" "auth.cfg" config_file auth_file);
    try reflexivity;
    unfold well_formed; simpl;
    repeat constructor; simpl; intuition discriminate.
Defined.

Lemma get_wdclient_builds_only_from_complete_options_witness :
  complete
    [("webdav_hostname", "https://webdav.example.org");
     ("webdav_login", "user"); ("webdav_password", "secret")] = true /\
  snd (get_wdclient on_disk read_file (OptPath "remote.cfg")) = [].
Proof.
  apply (@get_wdclient_builds_only_from_complete_options on_disk read_file
           (OptPath "remote.cfg")).
  reflexivity.
Defined.

End RemoteOptionsFacts.

